(** * JIMM: a shallow embedding of the model-lifecycle engine, the
    credential engine, the RPC dispatcher, the controller monitor and
    the jimmdb update builder, with the properties the specification
    states about them.

  Conventions.
  - A Go [error] is an [option error]: [None] is [nil].
  - A Go function returning [(T, error)] returns a [result T].
  - Calls that leave the process (the document store, an upstream
    controller, the clock, the identity service) are answered by an
    environment record.  Every answer may depend on the tick at which
    the call is made, so one environment stands for one execution and
    a theorem quantified over environments speaks about every
    execution.
  - Every such call is appended to a trace, so that "X is attempted"
    and "Y is never reached" are statements about the trace. *)

From Stdlib Require Import ZArith Ascii String List Lia Bool Permutation.
From stdpp Require Import base gmap strings list.

Local Open Scope string_scope.
Local Open Scope list_scope.

(* ===================================================================== *)
(** * errgo: errors with causes                                           *)
(* ===================================================================== *)

Module Errgo.

(** The error codes of [params] that the embedded functions mention,
    together with the two package-private codes
    [errInvalidModelParams] (jem) and [errMonitoringStopped]
    (monitor).  In Go these are values of the string type
    [params.ErrorCode] that are used as [error] values. *)
Inductive ErrorCode : Type :=
| ErrNotFound
| ErrUnauthorized
| ErrAlreadyExists
| ErrAmbiguousChoice
| ErrBadRequest
| ErrForbidden
| errInvalidModelParams
| errMonitoringStopped.

#[global] Instance ErrorCode_eq_dec : EqDecision ErrorCode.
Proof. solve_decision. Defined.

(** Error values.
    - [ECode c]: a [params.ErrorCode] used directly as an error;
    - [EApi code msg]: an error that carries a wire code
      ([*jujuparams.Error], [*rpc.RequestError]);
    - [ECallNotImplemented root version]:
      [*rpcreflect.CallNotImplementedError];
    - [EOther msg]: any other leaf error (driver, network, context);
    - [EErrgo msg underlying cause]: an [*errgo.Err]. *)
#[warnings="-register-all"] Inductive error : Type :=
| ECode (c : ErrorCode)
| EApi (code msg : string)
| ECallNotImplemented (rootMethod : string) (version : Z)
| EOther (msg : string)
| EErrgo (msg : string) (underlying : option error) (cause : option error).

(** [errgo.Cause]: the [Cause_] field of an [*errgo.Err] when it is
    set, the error itself otherwise. *)
Definition Cause (e : error) : error :=
  match e with
  | EErrgo _ _ (Some c) => c
  | _ => e
  end.

(** [errgo.Is(code)] for a [params.ErrorCode]: interface equality with
    the code value. *)
Definition Is (c : ErrorCode) (e : error) : bool :=
  match e with
  | ECode c' => bool_decide (c = c')
  | _ => false
  end.

(** [errgo.Any]. *)
Definition Any (_ : error) : bool := true.

(** [match(cause, pass...)]. *)
Definition matches (pass : list (error -> bool)) (e : error) : bool :=
  existsb (fun p => p e) pass.

(** [errgo.NoteMask]: always a fresh [*errgo.Err]; the cause of the
    underlying error is kept only when one of [pass] accepts it. *)
Definition NoteMask (underlying : option error) (msg : string)
           (pass : list (error -> bool)) : error :=
  EErrgo msg underlying
         (match underlying with
          | Some u => if matches pass (Cause u) then Some (Cause u) else None
          | None => None
          end).

(** [errgo.Mask]: [nil] stays [nil]. *)
Definition Mask (underlying : option error) (pass : list (error -> bool))
  : option error :=
  match underlying with
  | None => None
  | Some _ => Some (NoteMask underlying "" pass)
  end.

(** [errgo.Notef]: never [nil], even for a [nil] underlying error. *)
Definition Notef (underlying : option error) (msg : string) : error :=
  NoteMask underlying msg [].

(** [errgo.WithCausef]. *)
Definition WithCausef (underlying : option error) (cause : error)
           (msg : string) : error :=
  EErrgo msg underlying (Some cause).

(** [errgo.New]. *)
Definition New (msg : string) : error := EErrgo msg None None.

(** [jujuparams.ErrCode]: the wire code of the cause, the empty string
    when the cause carries none. *)
Definition ErrCode (e : error) : string :=
  match Cause e with
  | EApi code _ => code
  | _ => ""
  end.

(** The result of a Go function returning [(T, error)]. *)
Inductive result (A : Type) : Type :=
| Ok (a : A)
| Err (e : error).
Arguments Ok {A} a.
Arguments Err {A} e.

(** The cause of the error a call returned, if it returned one. *)
Definition cause_of {A} (r : result A) : option error :=
  match r with Err e => Some (Cause e) | Ok _ => None end.

End Errgo.

Export Errgo.

(* ===================================================================== *)
(** * internal/jem/jimmdb: the update builder                             *)
(* ===================================================================== *)

Module jimmdb.
Section WithValue.

(** The values stored in documents ([interface{}] in Go). *)
Context {Value : Type}.

(** [bson.DocElem]. *)
Record DocElem : Type := { Name : string; Value_ : Value }.

(** [Update].  [bson.D] is an ordered list of elements; [bson.M] is a
    Go map, which is [nil] until [Set] allocates it. *)
Record Update : Type := {
  AddToSet_ : list DocElem;
  Pull_ : list DocElem;
  Set_ : option (gmap string Value)
}.

(** The zero value [Update{}], which is what [new(Update)] points to. *)
Definition zero : Update :=
  {| AddToSet_ := []; Pull_ := []; Set_ := None |}.

(** [len] of a [bson.M]: a nil map has length 0. *)
Definition len_M (m : option (gmap string Value)) : nat :=
  match m with
  | None => 0
  | Some m => size m
  end.

Definition IsZero (u : Update) : bool :=
  (length (AddToSet_ u) =? 0)%nat
  && (length (Pull_ u) =? 0)%nat
  && (len_M (Set_ u) =? 0)%nat.

Definition AddToSet (u : Update) (field : string) (value : Value) : Update :=
  {| AddToSet_ := AddToSet_ u ++ [{| Name := field; Value_ := value |}];
     Pull_ := Pull_ u;
     Set_ := Set_ u |}.

Definition Pull (u : Update) (field : string) (value : Value) : Update :=
  {| AddToSet_ := AddToSet_ u;
     Pull_ := Pull_ u ++ [{| Name := field; Value_ := value |}];
     Set_ := Set_ u |}.

(** [Update.Set] ([Set] is reserved in Rocq). *)
Definition Set' (u : Update) (field : string) (value : Value) : Update :=
  let m := match Set_ u with
           | None => ∅
           | Some m => m
           end in
  {| AddToSet_ := AddToSet_ u;
     Pull_ := Pull_ u;
     Set_ := Some (<[field := value]> m) |}.

(** The operations a caller can record on an update, and a run of
    them in call order. *)
Inductive Op : Type :=
| OpAddToSet (field : string) (value : Value)
| OpPull (field : string) (value : Value)
| OpSet (field : string) (value : Value).

Definition apply (u : Update) (o : Op) : Update :=
  match o with
  | OpAddToSet f v => AddToSet u f v
  | OpPull f v => Pull u f v
  | OpSet f v => Set' u f v
  end.

Definition record (ops : list Op) (u : Update) : Update :=
  fold_left apply ops u.

(** What is recorded on an update: the number of elements of each of
    its three operation documents. *)
Definition recorded (u : Update) : nat :=
  length (AddToSet_ u) + length (Pull_ u) + len_M (Set_ u).

End WithValue.
Arguments DocElem : clear implicits.
Arguments Update : clear implicits.
Arguments Op : clear implicits.
End jimmdb.

(* ===================================================================== *)
(** * params and mongodoc: the documents of the index store               *)
(* ===================================================================== *)

Module params.

(** [params.User] and [params.Cloud] are string types. *)
Definition User : Type := string.
Definition Cloud : Type := string.

(** [params.EntityPath]. *)
Record EntityPath : Type := { User_ : User; Name : string }.

#[global] Instance EntityPath_eq_dec : EqDecision EntityPath.
Proof. solve_decision. Defined.

#[global] Instance EntityPath_countable : Countable EntityPath.
Proof.
  refine (inj_countable' (fun p => (User_ p, Name p))
                         (fun q => {| User_ := q.1; Name := q.2 |}) _).
  intros []; reflexivity.
Defined.

(** [EntityPath.String]: [user/name]. *)
Definition EntityPath_String (p : EntityPath) : string :=
  User_ p +:+ "/" +:+ Name p.

(** [params.CredentialPath]: a cloud and an embedded entity path. *)
Record CredentialPath : Type := { Cloud_ : Cloud; EntityPath_ : EntityPath }.

#[global] Instance CredentialPath_eq_dec : EqDecision CredentialPath.
Proof. solve_decision. Defined.

(** Modelled from the spec: [CredentialPath.IsZero] is declared in the
    params package, which is not part of the sources at hand; the spec
    calls a zero path an "empty input" as opposed to an "explicit
    input".  The zero value of the struct has every field empty. *)
Definition CredentialPath_IsZero (p : CredentialPath) : bool :=
  bool_decide (p = {| Cloud_ := ""; EntityPath_ := {| User_ := ""; Name := "" |} |}).

Definition Time : Type := Z.

End params.

Module mongodoc.
Import params.

(** [mongodoc.ACL] ([params.ACL]): the users and groups that may read,
    write and administer a document. *)
Record ACL : Type := { Read : list string; Write : list string; Admin : list string }.

(** [mongodoc.Credential]. *)
Record Credential : Type := {
  cred_Path : CredentialPath;
  cred_ACL : ACL;
  cred_Type : string;
  cred_Attributes : list (string * string);
  cred_Controllers : list EntityPath;
  cred_Revoked : bool
}.

(** [mongodoc.ModelInfo]: life, status and the agent version kept in
    [Config]. *)
Record ModelInfo : Type := {
  Life_ : string;
  Status : string;
  StatusMessage : string;
  StatusSince : option Time;
  AgentVersion : option string
}.

(** [mongodoc.Model]. *)
Record Model : Type := {
  Id : string;
  Path : EntityPath;
  Controller_ : EntityPath;
  UUID : string;
  Cloud__ : Cloud;
  CloudRegion_ : string;
  Credential_ : CredentialPath;
  DefaultSeries : string;
  Type_ : string;
  ProviderType : string;
  Info : option ModelInfo;
  Creator : string;
  CreationTime : Time;
  UsageSenderCredentials : list Byte.byte;
  model_ACL : ACL
}.

(** Modelled from the spec: [Model.Life] is a method of the mongodoc
    package, which is not part of the sources at hand; the spec keeps
    the life inside [info] ("info (life, status, agent version)"), and
    a model without info has no life. *)
Definition Life (m : Model) : string :=
  match Info m with
  | Some i => Life_ i
  | None => ""
  end.

(** [mongodoc.Controller]. *)
Record Controller : Type := {
  ctl_Path : EntityPath;
  ctl_UUID : string;
  AdminUser : string;
  ctl_ACL : ACL;
  Deprecated : bool;
  MonitorLeaseOwner : string;
  MonitorLeaseExpiry : Time;
  UpdateCredentials : list CredentialPath
}.

(** [mongodoc.CloudRegion]. *)
Record CloudRegion : Type := {
  cr_Cloud : Cloud;
  cr_Region : string;
  cr_ProviderType : string;
  cr_ACL : ACL;
  PrimaryControllers : list EntityPath;
  SecondaryControllers : list EntityPath
}.

(** [mongodoc.Machine]: the model it belongs to, its id and its life. *)
Record Machine : Type := {
  m_ModelUUID : string;
  m_Id : string;
  m_Life : string
}.

(** The two audit entries the embedded code appends. *)
Inductive AuditEntry : Type :=
| AuditModelCreated (id uuid owner creator controllerPath cloud region : string)
| AuditModelDestroyed (id uuid : string).

End mongodoc.

(* ===================================================================== *)
(** * The world outside the process                                       *)
(* ===================================================================== *)

Module World.
Import params mongodoc.

(** [base.ModelInfo], what an upstream controller reports about a model
    it has created. *)
Record base_ModelInfo : Type := {
  mi_UUID : string;
  mi_Cloud : string;
  mi_CloudRegion : string;
  mi_DefaultSeries : string;
  mi_Type : string;
  mi_ProviderType : string;
  mi_Life : string;
  mi_Status : string;
  mi_StatusInfo : string;
  mi_StatusSince : option Time;
  mi_AgentVersion : option string
}.

(** The zero value [base.ModelInfo{}]. *)
Definition base_ModelInfo_zero : base_ModelInfo :=
  {| mi_UUID := ""; mi_Cloud := ""; mi_CloudRegion := ""; mi_DefaultSeries := "";
     mi_Type := ""; mi_ProviderType := ""; mi_Life := ""; mi_Status := "";
     mi_StatusInfo := ""; mi_StatusSince := None; mi_AgentVersion := None |}.

(** [jujuparams.ModelUserInfo], without the time of the last
    connection. *)
Record ModelUserInfo : Type := {
  UserName : string;
  DisplayName : string;
  Access : string
}.

(** [jujuparams.ModelInfo] as an upstream controller reports it: the
    fields [getModel] and [modelInfo] read. *)
Record ControllerModelInfo : Type := {
  cmi_CloudTag : string;
  cmi_CloudRegion : string;
  cmi_CloudCredentialTag : string;
  cmi_DefaultSeries : string;
  cmi_Users : list ModelUserInfo
}.

(** One entry of the reply to an upstream [ModelInfo] request
    ([jujuparams.ModelInfoResult]).  [mir_Error] holds the code and the
    message of a [*jujuparams.Error]. *)
Record ModelInfoResult : Type := {
  mir_Error : option (string * string);
  mir_Result : ControllerModelInfo
}.

(** A query on the credentials collection. *)
Inductive CredentialQuery : Type :=
| ByPath (path : CredentialPath)
| ByUserCloud (user : User) (cloud : Cloud).

(** The update [CreateModel] applies to the reserved row. *)
Record ModelUpdate : Type := {
  upd_uuid : string;
  upd_controller : EntityPath;
  upd_cloud : string;
  upd_cloudregion : string;
  upd_defaultseries : string;
  upd_info : ModelInfo;
  upd_type : string;
  upd_providertype : string
}.

(** [auth.ACLEntity]: the documents an access check can be asked about. *)
Inductive ACLEntity : Type :=
| CredentialEntity (c : Credential)
| CloudRegionEntity (r : CloudRegion)
| ModelEntity (m : Model).

(** Every call that leaves the process. *)
Inductive Call : Type :=
(* the index store *)
| DBCredential (path : CredentialPath)
| DBFindCredentials (q : CredentialQuery)
| DBCloudRegion (cloud : Cloud) (region : string)
| DBController (path : EntityPath)
| DBAddModel (doc : Model)
| DBDeleteModel (path : EntityPath)
| DBDeleteModelWithUUID (ctl : EntityPath) (uuid : string)
| DBApplyModel (id : string) (u : ModelUpdate)
| DBSetModelLife (ctl : EntityPath) (uuid : string) (life : string)
| DBModelFromUUID (uuid : string)
| DBMachinesForModel (uuid : string)
| DBProviderType (cloud : Cloud)
| DBUpdateLegacyModel (doc : Model)
| DBAppendAudit (entry : AuditEntry)
| DBupdateCredential (cred : Credential)
| DBsetCredentialUpdates (ctls : list EntityPath) (cred : CredentialPath)
| DBcredentialAddController (cred : CredentialPath) (ctl : EntityPath)
| DBclearCredentialUpdate (ctl : EntityPath) (cred : CredentialPath)
(* the identity service *)
| AuthCheckIsUser (user : User)
| AuthCheckCanRead (entity : ACLEntity)
| AuthCheckIsAdmin (entity : ACLEntity)
| AuthCheckReadACL (path : EntityPath)
(* the usage-sender authorization client *)
| UsageGetCredentials (user : string)
(* process-wide sources of time and randomness *)
| ClockNow
| UUIDNext
| RandIntn (n : nat)
(* upstream controllers *)
| OpenAPI (ctlUUID : string)
| ConnClose
| APICreateModel (name owner cloud region : string) (cred : option CredentialPath)
| APIGrantModel (user access uuid : string)
| APIUpdateCredential (cred : CredentialPath) (authType : string)
| APIRevokeCredential (cred : CredentialPath)
| APIDestroyModel (uuid : string) (destroyStorage : option bool)
| APIModelInfo (uuid : string)
(* the log *)
| LogMsg (level msg : string).

(** A call together with the error it returned ([None]: it succeeded). *)
Definition Event : Type := (Call * option error)%type.

(** The collections of the index store. *)
Record Store : Type := {
  models : list Model;
  credentials : list Credential;
  controllers : list Controller;
  cloudregions : list CloudRegion;
  machines : list Machine;
  audits : list AuditEntry
}.

(** The state threaded through a run: the number of calls made so far,
    the store, and the trace of the calls. *)
Record World : Type := {
  tick : nat;
  store : Store;
  trace : list Event
}.

(** The answers of the outside world.  Each is indexed by the tick of
    the call it answers. *)
Record Env : Type := {
  (* the store fails the call with this error, or serves it *)
  db_fault : nat -> option error;
  (* the identity check: nil when allowed, an error with cause
     [params.ErrUnauthorized] when denied, any other error for a lookup
     failure *)
  acl_check : nat -> option error;
  (* [auth.Username(ctx)] *)
  username : string;
  (* the usage-sender authorization client, nil when not configured *)
  usage_client : option (nat -> result (list Byte.byte));
  (* [wallClock.Now()] *)
  clock_now : nat -> Time;
  (* [uuidGenerator.Next()], a [[24]byte] *)
  uuid_next : nat -> list Byte.byte;
  (* the random source, reduced below the bound asked for by [randIntn] *)
  rand_int : nat -> nat;
  (* an upstream call fails with this error, or succeeds *)
  api_fault : nat -> option error;
  (* what a successful upstream [CreateModel] reports *)
  api_created : nat -> base_ModelInfo;
  (* what a successful upstream [ModelInfo] reports *)
  api_model_infos : nat -> list ModelInfoResult;
  (* [ctx.Err()] when the context is done at this tick *)
  ctx_done : nat -> option error
}.

(** Computations that make calls. *)
Definition M (A : Type) : Type := World -> A * World.

Definition ret {A} (a : A) : M A := fun w => (a, w).

Definition bind {A B} (c : M A) (k : A -> M B) : M B :=
  fun w => let (a, w') := c w in k a w'.

(** Record a call and its outcome; the next call is made at the next
    tick. *)
Definition emit (c : Call) (err : option error) : M unit :=
  fun w => (tt, {| tick := S (tick w); store := store w;
                   trace := trace w ++ [(c, err)] |}).

Definition get_tick : M nat := fun w => (tick w, w).

End World.

Declare Scope go_scope.
Delimit Scope go_scope with go.
Notation "'let*' x ':=' c 'in' k" := (World.bind c (fun x => k))
  (at level 10, x pattern, c at level 100, k at level 200) : go_scope.
Notation "c ';;' k" := (World.bind c (fun _ => k))
  (at level 100, k at level 200, right associativity) : go_scope.

Local Open Scope go_scope.

(* ===================================================================== *)
(** * The index store (DAO)                                               *)
(* ===================================================================== *)

(** Modelled from the spec: the DAO ([jem.Database]) is not part of the
    sources at hand.  Section 4.A of the spec gives its contract: typed
    operations on the collections, [AddModel] reporting [AlreadyExists]
    when the path collides, lookups reporting [NotFound], and
    [NewCanReadIter] yielding only the entries the caller may read.  An
    operation either fails with the error the environment injects,
    leaving the store as it was, or is served from the store. *)
Module DB.
Import params mongodoc World.

(** The error of a result, nil for a success. *)
Definition err_of {A} (r : result A) : option error :=
  match r with
  | Err e => Some e
  | Ok _ => None
  end.

(** Modelled from the spec: a call to the store.  It fails with the
    error the environment injects at this tick, leaving the store as it
    was, or is served by [serve]; either way it is recorded. *)
Definition call {A} (env : Env) (c : Call) (serve : Store -> result A * Store)
  : M (result A) :=
  fun w =>
    match db_fault env (tick w) with
    | Some e =>
        (Err e, {| tick := S (tick w); store := store w;
                   trace := trace w ++ [(c, Some e)] |})
    | None =>
        let (r, s) := serve (store w) in
        (r, {| tick := S (tick w); store := s;
               trace := trace w ++ [(c, err_of r)] |})
    end.

(** Modelled from the spec: the DAO maps a missing row to an error with
    cause [NotFound] and a colliding path to one with cause
    [AlreadyExists]. *)
Definition not_found (what : string) : error :=
  WithCausef None (ECode ErrNotFound) (what +:+ " not found").

Definition already_exists : error :=
  WithCausef None (ECode ErrAlreadyExists) "already exists".

Definition set_models (f : list Model -> list Model) (s : Store) : Store :=
  {| models := f (models s); credentials := credentials s;
     controllers := controllers s; cloudregions := cloudregions s;
     machines := machines s; audits := audits s |}.

Definition set_credentials (f : list Credential -> list Credential) (s : Store) : Store :=
  {| models := models s; credentials := f (credentials s);
     controllers := controllers s; cloudregions := cloudregions s;
     machines := machines s; audits := audits s |}.

Definition set_controllers (f : list Controller -> list Controller) (s : Store) : Store :=
  {| models := models s; credentials := credentials s;
     controllers := f (controllers s); cloudregions := cloudregions s;
     machines := machines s; audits := audits s |}.

Definition set_audits (f : list AuditEntry -> list AuditEntry) (s : Store) : Store :=
  {| models := models s; credentials := credentials s;
     controllers := controllers s; cloudregions := cloudregions s;
     machines := machines s; audits := f (audits s) |}.

Definition has_path (p : EntityPath) (m : Model) : bool :=
  bool_decide (Path m = p).

Definition has_uuid (ctl : EntityPath) (uuid : string) (m : Model) : bool :=
  bool_decide (Controller_ m = ctl) && bool_decide (UUID m = uuid).

Definition lookup {A} (what : string) (f : A -> bool) (l : list A) : result A :=
  match find f l with
  | Some a => Ok a
  | None => Err (not_found what)
  end.

(** ** Lookups *)

(** Modelled from the spec: [Database.Credential], the row with this
    path or [NotFound]. *)
Definition Credential (env : Env) (path : CredentialPath) : M (result Credential) :=
  call env (DBCredential path)
       (fun s => (lookup "credential" (fun c => bool_decide (cred_Path c = path))
                         (credentials s), s)).

(** Modelled from the spec: [Database.CloudRegion], the row of the
    (cloud, region) or [NotFound]. *)
Definition CloudRegion (env : Env) (cloud : Cloud) (region : string)
  : M (result CloudRegion) :=
  call env (DBCloudRegion cloud region)
       (fun s => (lookup "cloudregion"
                         (fun r => bool_decide (cr_Cloud r = cloud)
                                   && bool_decide (cr_Region r = region))
                         (cloudregions s), s)).

(** Modelled from the spec: [Database.Controller], the row with this
    path or [NotFound]. *)
Definition Controller (env : Env) (path : EntityPath) : M (result Controller) :=
  call env (DBController path)
       (fun s => (lookup "controller" (fun c => bool_decide (ctl_Path c = path))
                         (controllers s), s)).

(** Modelled from the spec: [Database.ModelFromUUID], the row with this
    UUID or [NotFound]. *)
Definition ModelFromUUID (env : Env) (uuid : string) : M (result Model) :=
  call env (DBModelFromUUID uuid)
       (fun s => (lookup "model" (fun m => bool_decide (UUID m = uuid)) (models s), s)).

(** ** Models *)

(** The document with its id set to the string form of its path. *)
Definition with_Id (m : Model) : Model :=
  {| Id := EntityPath_String (Path m); Path := Path m; Controller_ := Controller_ m;
     UUID := UUID m; Cloud__ := Cloud__ m; CloudRegion_ := CloudRegion_ m;
     Credential_ := Credential_ m; DefaultSeries := DefaultSeries m;
     Type_ := Type_ m; ProviderType := ProviderType m; Info := Info m;
     Creator := Creator m; CreationTime := CreationTime m;
     UsageSenderCredentials := UsageSenderCredentials m; model_ACL := model_ACL m |}.

(** Modelled from the spec: [Database.AddModel] ("AddModel and
    AddController report AlreadyExists when the path collides").
    [AddModel] fills in the document's id and inserts it, unless a row
    with the same path is already there. *)
Definition AddModel (env : Env) (doc : Model) : M (result Model) :=
  call env (DBAddModel doc)
       (fun s => if existsb (has_path (Path doc)) (models s)
                 then (Err already_exists, s)
                 else (Ok (with_Id doc), set_models (fun l => l ++ [with_Id doc]) s)).

(** Modelled from the spec: [Database.DeleteModel], which removes the
    row with this path and reports [NotFound] when there is none. *)
Definition DeleteModel (env : Env) (path : EntityPath) : M (option error) :=
  let* r := call env (DBDeleteModel path)
       (fun s => if existsb (has_path path) (models s)
                 then (Ok tt, set_models (filter (fun m => negb (has_path path m))) s)
                 else (Err (not_found "model"), s)) in
  ret (err_of r).

(** Modelled from the spec: [Database.DeleteModelWithUUID], which
    removes the rows with this (controller, UUID) ("deletes the local
    row by (controller, UUID)"). *)
Definition DeleteModelWithUUID (env : Env) (ctl : EntityPath) (uuid : string)
  : M (option error) :=
  let* r := call env (DBDeleteModelWithUUID ctl uuid)
       (fun s => (Ok tt, set_models (filter (fun m => negb (has_uuid ctl uuid m))) s)) in
  ret (err_of r).

(** The row after the [$set] of [CreateModel]. *)
Definition apply_update (u : ModelUpdate) (m : Model) : Model :=
  {| Id := Id m; Path := Path m; Controller_ := upd_controller u;
     UUID := upd_uuid u; Cloud__ := upd_cloud u; CloudRegion_ := upd_cloudregion u;
     Credential_ := Credential_ m; DefaultSeries := upd_defaultseries u;
     Type_ := upd_type u; ProviderType := upd_providertype u;
     Info := Some (upd_info u);
     Creator := Creator m; CreationTime := CreationTime m;
     UsageSenderCredentials := UsageSenderCredentials m; model_ACL := model_ACL m |}.

(** Modelled from the spec:
    [Models().FindId(id).Apply(change)] with [ReturnNew]: the row with
    this id is updated and the new row returned. *)
Definition ApplyModel (env : Env) (id : string) (u : ModelUpdate) : M (result Model) :=
  call env (DBApplyModel id u)
       (fun s => match find (fun m => bool_decide (Id m = id)) (models s) with
                 | Some m =>
                     (Ok (apply_update u m),
                      set_models (map (fun m' => if bool_decide (Id m' = id)
                                                 then apply_update u m' else m')) s)
                 | None => (Err (EOther "not found"), s)
                 end).

(** The row with its life replaced. *)
Definition set_life (life : string) (m : Model) : Model :=
  {| Id := Id m; Path := Path m; Controller_ := Controller_ m;
     UUID := UUID m; Cloud__ := Cloud__ m; CloudRegion_ := CloudRegion_ m;
     Credential_ := Credential_ m; DefaultSeries := DefaultSeries m;
     Type_ := Type_ m; ProviderType := ProviderType m;
     Info := Some match Info m with
                  | Some i => {| Life_ := life; Status := Status i;
                                 StatusMessage := StatusMessage i;
                                 StatusSince := StatusSince i;
                                 AgentVersion := AgentVersion i |}
                  | None => {| Life_ := life; Status := ""; StatusMessage := "";
                               StatusSince := None; AgentVersion := None |}
                  end;
     Creator := Creator m; CreationTime := CreationTime m;
     UsageSenderCredentials := UsageSenderCredentials m; model_ACL := model_ACL m |}.

(** Modelled from the spec: [Database.SetModelLife], which sets the
    life of the rows with this (controller, UUID). *)
Definition SetModelLife (env : Env) (ctl : EntityPath) (uuid life : string)
  : M (option error) :=
  let* r := call env (DBSetModelLife ctl uuid life)
       (fun s => (Ok tt, set_models (map (fun m => if has_uuid ctl uuid m
                                                   then set_life life m else m)) s)) in
  ret (err_of r).

(** Modelled from the spec: [Database.AppendAudit]; the audit log is
    append-only. *)
Definition AppendAudit (env : Env) (entry : AuditEntry) : M (option error) :=
  let* r := call env (DBAppendAudit entry)
       (fun s => (Ok tt, set_audits (fun l => l ++ [entry]) s)) in
  ret (err_of r).

(** Modelled from the spec:
    [UpdateLegacyModel]: store the cloud details found for a model that
    was created without them. *)
Definition UpdateLegacyModel (env : Env) (doc : Model) : M (option error) :=
  let* r := call env (DBUpdateLegacyModel doc)
       (fun s => (Ok tt, set_models (map (fun m => if has_path (Path doc) m
                                                   then doc else m)) s)) in
  ret (err_of r).

(** Modelled from the spec: [Database.MachinesForModel], the machines
    of the model with this UUID. *)
Definition MachinesForModel (env : Env) (uuid : string) : M (result (list Machine)) :=
  call env (DBMachinesForModel uuid)
       (fun s => (Ok (filter (fun m => bool_decide (m_ModelUUID m = uuid)) (machines s)), s)).

(** Modelled from the spec: [Database.ProviderType], the provider type
    of the region row with the empty name, which stands for the cloud
    itself. *)
Definition ProviderType (env : Env) (cloud : Cloud) : M (result string) :=
  call env (DBProviderType cloud)
       (fun s => (match lookup "cloud"
                               (fun r => bool_decide (cr_Cloud r = cloud)
                                         && bool_decide (cr_Region r = ""))
                               (cloudregions s) with
                  | Ok r => Ok (cr_ProviderType r)
                  | Err e => Err e
                  end, s)).

(** ** Credentials *)

Definition has_cred_path (p : CredentialPath) (c : mongodoc.Credential) : bool :=
  bool_decide (cred_Path c = p).

(** The stored fields an update replaces; the path and the controllers
    of a stored credential stay. *)
Definition merge_credential (new old : mongodoc.Credential) : mongodoc.Credential :=
  {| cred_Path := cred_Path old; cred_ACL := cred_ACL new; cred_Type := cred_Type new;
     cred_Attributes := cred_Attributes new; cred_Controllers := cred_Controllers old;
     cred_Revoked := cred_Revoked new |}.

Definition fresh_credential (new : mongodoc.Credential) : mongodoc.Credential :=
  {| cred_Path := cred_Path new; cred_ACL := cred_ACL new; cred_Type := cred_Type new;
     cred_Attributes := cred_Attributes new; cred_Controllers := [];
     cred_Revoked := cred_Revoked new |}.

(** Modelled from the spec: [Database.updateCredential] ("persist the
    new credential locally"), an upsert by path. *)
Definition updateCredential (env : Env) (cred : mongodoc.Credential) : M (option error) :=
  let* r := call env (DBupdateCredential cred)
       (fun s => (Ok tt,
                  set_credentials
                    (fun l => if existsb (has_cred_path (cred_Path cred)) l
                              then map (fun c => if has_cred_path (cred_Path cred) c
                                                 then merge_credential cred c else c) l
                              else l ++ [fresh_credential cred]) s)) in
  ret (err_of r).

Definition add_update (cred : CredentialPath) (c : mongodoc.Controller) : mongodoc.Controller :=
  {| ctl_Path := ctl_Path c; ctl_UUID := ctl_UUID c; AdminUser := AdminUser c;
     ctl_ACL := ctl_ACL c;
     Deprecated := Deprecated c; MonitorLeaseOwner := MonitorLeaseOwner c;
     MonitorLeaseExpiry := MonitorLeaseExpiry c;
     UpdateCredentials :=
       if bool_decide (cred ∈ UpdateCredentials c) then UpdateCredentials c
       else UpdateCredentials c ++ [cred] |}.

Definition clear_update (cred : CredentialPath) (c : mongodoc.Controller) : mongodoc.Controller :=
  {| ctl_Path := ctl_Path c; ctl_UUID := ctl_UUID c; AdminUser := AdminUser c;
     ctl_ACL := ctl_ACL c;
     Deprecated := Deprecated c; MonitorLeaseOwner := MonitorLeaseOwner c;
     MonitorLeaseExpiry := MonitorLeaseExpiry c;
     UpdateCredentials :=
       filter (fun p => negb (bool_decide (p = cred))) (UpdateCredentials c) |}.

(** Modelled from the spec:
    [setCredentialUpdates]: mark the credential as awaiting a push on
    each of the controllers. *)
Definition setCredentialUpdates (env : Env) (ctls : list EntityPath)
           (cred : CredentialPath) : M (option error) :=
  let* r := call env (DBsetCredentialUpdates ctls cred)
       (fun s => (Ok tt,
                  set_controllers
                    (map (fun c => if bool_decide (ctl_Path c ∈ ctls)
                                   then add_update cred c else c)) s)) in
  ret (err_of r).

(** Modelled from the spec: [clearCredentialUpdate], the push to this
    controller is done. *)
Definition clearCredentialUpdate (env : Env) (ctl : EntityPath)
           (cred : CredentialPath) : M (option error) :=
  let* r := call env (DBclearCredentialUpdate ctl cred)
       (fun s => if existsb (fun c => bool_decide (ctl_Path c = ctl)) (controllers s)
                 then (Ok tt,
                       set_controllers
                         (map (fun c => if bool_decide (ctl_Path c = ctl)
                                        then clear_update cred c else c)) s)
                 else (Err (not_found "controller"), s)) in
  ret (err_of r).

Definition add_controller (ctl : EntityPath) (c : mongodoc.Credential) : mongodoc.Credential :=
  {| cred_Path := cred_Path c; cred_ACL := cred_ACL c; cred_Type := cred_Type c;
     cred_Attributes := cred_Attributes c;
     cred_Controllers :=
       if bool_decide (ctl ∈ cred_Controllers c) then cred_Controllers c
       else cred_Controllers c ++ [ctl];
     cred_Revoked := cred_Revoked c |}.

(** Modelled from the spec:
    [credentialAddController]: record that the credential has been
    pushed to this controller. *)
Definition credentialAddController (env : Env) (cred : CredentialPath)
           (ctl : EntityPath) : M (option error) :=
  let* r := call env (DBcredentialAddController cred ctl)
       (fun s => if existsb (has_cred_path cred) (credentials s)
                 then (Ok tt,
                       set_credentials
                         (map (fun c => if has_cred_path cred c
                                        then add_controller ctl c else c)) s)
                 else (Err (not_found "credential"), s)) in
  ret (err_of r).

(** ** Iterators *)

(** Whether a credential row matches a query. *)
Definition query_matches (q : CredentialQuery) (c : mongodoc.Credential) : bool :=
  match q with
  | ByPath path => bool_decide (cred_Path c = path)
  | ByUserCloud user cloud =>
      bool_decide (User_ (EntityPath_ (cred_Path c)) = user)
      && bool_decide (Cloud_ (cred_Path c) = cloud)
  end.

(** Modelled from the spec:
    [Credentials().Find(query).Iter()]: the matching rows, or the error
    the cursor reports. *)
Definition FindCredentials (env : Env) (q : CredentialQuery)
  : M (result (list mongodoc.Credential)) :=
  call env (DBFindCredentials q)
       (fun s => (Ok (filter (query_matches q) (credentials s)), s)).

(** Modelled from the spec: [NewCanReadIter] ("yielding only entries
    the caller may read"), drained by [for iter.Next(&cred) { ... }]: the rows
    the caller may read, in cursor order, and what [iter.Err()] reports
    afterwards.  A row the caller may not read is passed over; a failed
    identity lookup ends the iteration with that error. *)
Fixpoint canRead (check : mongodoc.Credential -> M (option error)) (rows : list mongodoc.Credential)
  : M (list mongodoc.Credential * option error) :=
  match rows with
  | [] => ret ([], None)
  | row :: rest =>
      let* verdict := check row in
      match verdict with
      | None =>
          let* (readable, e) := canRead check rest in
          ret (row :: readable, e)
      | Some e =>
          if Is ErrUnauthorized (Cause e) then canRead check rest
          else ret ([], Mask (Some e) [])
      end
  end.

End DB.

(* ===================================================================== *)
(** * auth, upstream API and process-wide sources                         *)
(* ===================================================================== *)

Module Ext.
Import params mongodoc World.

(** Modelled from the spec: the [auth] package is not part of the
    sources at hand.  An identity check ([auth.CheckIsUser], [auth.CheckCanRead],
    [auth.CheckIsAdmin], [Database.CheckReadACL]): the environment's
    verdict at this tick. *)
Definition check (env : Env) (c : Call) : M (option error) :=
  fun w => let r := acl_check env (tick w) in
           (r, snd (emit c r w)).

Definition CheckIsUser (env : Env) (user : User) : M (option error) :=
  check env (AuthCheckIsUser user).

Definition CheckCanRead (env : Env) (entity : ACLEntity) : M (option error) :=
  check env (AuthCheckCanRead entity).

Definition CheckIsAdmin (env : Env) (entity : ACLEntity) : M (option error) :=
  check env (AuthCheckIsAdmin entity).

Definition CheckReadACL (env : Env) (path : EntityPath) : M (option error) :=
  check env (AuthCheckReadACL path).

(** An upstream call that returns only an error. *)
Definition api (env : Env) (c : Call) : M (option error) :=
  fun w => let r := api_fault env (tick w) in
           (r, snd (emit c r w)).

(** [modelmanager.Client.CreateModel]. *)
Definition api_CreateModel (env : Env) (c : Call) : M (result base_ModelInfo) :=
  fun w => match api_fault env (tick w) with
           | Some e => (Err e, snd (emit c (Some e) w))
           | None => (Ok (api_created env (tick w)), snd (emit c None w))
           end.

(** [modelmanager.Client.ModelInfo]. *)
Definition api_ModelInfo (env : Env) (uuid : string) : M (result (list ModelInfoResult)) :=
  fun w => match api_fault env (tick w) with
           | Some e => (Err e, snd (emit (APIModelInfo uuid) (Some e) w))
           | None => (Ok (api_model_infos env (tick w)), snd (emit (APIModelInfo uuid) None w))
           end.

(** [zapctx.Error], [zapctx.Warn], [zapctx.Info]. *)
Definition log (level msg : string) : M unit := emit (LogMsg level msg) None.

(** [wallClock.Now()]. *)
Definition Now (env : Env) : M Time :=
  fun w => (clock_now env (tick w), snd (emit ClockNow None w)).

(** [uuidGenerator.Next()]. *)
Definition Next (env : Env) : M (list Byte.byte) :=
  fun w => (uuid_next env (tick w), snd (emit UUIDNext None w)).

(** A random number below [n], for [n > 0], as [rand.Shuffle] draws
    them. *)
Definition randIntn (env : Env) (n : nat) : M nat :=
  fun w => (rand_int env (tick w) mod n, snd (emit (RandIntn n) None w)).

(** [usageSenderAuthorizationClient.GetCredentials]. *)
Definition GetCredentials (client : nat -> result (list Byte.byte)) (user : string)
  : M (result (list Byte.byte)) :=
  fun w => let r := client (tick w) in
           (r, snd (emit (UsageGetCredentials user) (DB.err_of r) w)).

(** [fmt.Sprintf("%x", b)] for a byte array: two lower-case hexadecimal
    digits per byte. *)
Definition hex_digit (n : N) : Ascii.ascii :=
  match n with
  | 0 => "0" | 1 => "1" | 2 => "2" | 3 => "3" | 4 => "4" | 5 => "5"
  | 6 => "6" | 7 => "7" | 8 => "8" | 9 => "9" | 10 => "a" | 11 => "b"
  | 12 => "c" | 13 => "d" | 14 => "e" | _ => "f"
  end%N%char.

Fixpoint hex (bs : list Byte.byte) : string :=
  match bs with
  | [] => ""
  | b :: rest =>
      let n := Byte.to_N b in
      String (hex_digit (n / 16)) (String (hex_digit (n mod 16)) (hex rest))
  end.

(** [a[i], a[j] = a[j], a[i]].  Go panics when an index is out of range;
    [shuffle] never asks for one. *)
Definition swap {A} (l : list A) (i j : nat) : list A :=
  match l !! i, l !! j with
  | Some a, Some b => <[i := b]> (<[j := a]> l)
  | _, _ => l
  end.

(** The package variable [shuffle], which is [rand.Shuffle] outside
    tests: [for i := n-1; i > 0; i-- { j := Intn(i+1); swap(i, j) }]. *)
Fixpoint shuffle_from {A} (env : Env) (i : nat) (l : list A) : M (list A) :=
  match i with
  | 0 => ret l
  | S i' =>
      let* j := randIntn env (S i) in
      shuffle_from env i' (swap l i j)
  end.

Definition shuffle {A} (env : Env) (l : list A) : M (list A) :=
  shuffle_from env (length l - 1) l.

End Ext.

(* ===================================================================== *)
(** * jem: the model lifecycle and credential engines                     *)
(* ===================================================================== *)

Module JEM.
Import params mongodoc World Ext.

(** [jujuparams.CodeAlreadyExists] and [jujuparams.CodeUpgradeInProgress]. *)
Definition CodeAlreadyExists : string := "already exists".
Definition CodeUpgradeInProgress : string := "upgrade in progress".
(** [jujuparams.IsCodeHasPersistentStorage]. *)
Definition IsCodeHasPersistentStorage (e : error) : bool :=
  String.eqb (ErrCode e) "model/controller has persistent storage".

(** [CreateModelParams]. *)
Record CreateModelParams : Type := {
  p_Path : EntityPath;
  p_ControllerPath : EntityPath;
  p_Credential : CredentialPath;
  p_Cloud : Cloud;
  p_Region : string;
  p_Attributes : list (string * string)
}.

Section WithEnv.
Variable env : Env.

(** [JEM.Controller]. *)
Definition Controller (path : EntityPath) : M (result mongodoc.Controller) :=
  let* aerr := CheckReadACL env path in
  match aerr with
  | Some e => ret (Err (NoteMask (Some e) "" [Is ErrUnauthorized]))
  | None =>
      let* r := DB.Controller env path in
      match r with
      | Ok ctl => ret (Ok ctl)
      | Err e => ret (Err (NoteMask (Some e) "" [Is ErrNotFound]))
      end
  end.

(** [JEM.Credential]. *)
Definition Credential (path : CredentialPath) : M (result mongodoc.Credential) :=
  let* r := DB.Credential env path in
  match r with
  | Err err =>
      let* err :=
        (if Is ErrNotFound (Cause err)
         then
           (* We return an authorization error for all attempts to
              retrieve credentials from any other user's space. *)
           let* aerr := CheckIsUser env (User_ (EntityPath_ path)) in
           match aerr with
           | Some aerr => ret aerr
           | None => ret err
           end
         else ret err) in
      ret (Err (NoteMask (Some err) "" [Is ErrNotFound; Is ErrUnauthorized]))
  | Ok cred =>
      let* aerr := CheckCanRead env (CredentialEntity cred) in
      match aerr with
      | Some e => ret (Err (NoteMask (Some e) "" [Is ErrUnauthorized]))
      | None => ret (Ok cred)
      end
  end.

(** [JEM.OpenAPIFromDoc]: the connection cache either hands out a
    connection to the controller or reports why it cannot. *)
Definition OpenAPIFromDoc (ctl : mongodoc.Controller) : M (option error) :=
  api env (OpenAPI (ctl_UUID ctl)).

(** [JEM.OpenAPI]. *)
Definition OpenAPI (path : EntityPath) : M (option error) :=
  let* r := DB.Controller env path in
  match r with
  | Err e => ret (Some (NoteMask (Some e) "cannot get controller" [Is ErrNotFound]))
  | Ok ctl => OpenAPIFromDoc ctl
  end.

(** [conn.Close()]. *)
Definition Close : M unit := emit ConnClose None.

(** [JEM.updateControllerCredential].  [conn] is false for a nil
    connection, in which case one is opened here and closed on return. *)
Definition updateControllerCredential (ctlPath : EntityPath) (credPath : CredentialPath)
           (conn : bool) (cred : option mongodoc.Credential) : M (option error) :=
  let* oerr := (if conn then ret None else OpenAPI ctlPath) in
  match oerr with
  | Some e => ret (Mask (Some e) [])
  | None =>
      let* res :=
        (let* rc := match cred with
                    | Some c => ret (Ok c)
                    | None => DB.Credential env credPath
                    end in
         match rc with
         | Err e => ret (Mask (Some e) [Is ErrNotFound])
         | Ok cred =>
             let* err :=
               (if cred_Revoked cred
                then api env (APIRevokeCredential credPath)
                else api env (APIUpdateCredential credPath (cred_Type cred))) in
             match err with
             | Some e => ret (Some (Notef (Some e) "cannot update credentials"))
             | None =>
                 let* cerr := DB.clearCredentialUpdate env ctlPath credPath in
                 match cerr with
                 | Some _ =>
                     log "error"
                         "failed to update controller after successfully updating credential" ;;
                     ret None
                 | None => ret None
                 end
             end
         end) in
      (if conn then ret tt else Close) ;;
      ret res
  end.

(** [JEM.createModelOnController]. *)
Definition createModelOnController (ctlPath : EntityPath) (p : CreateModelParams)
           (cred : option mongodoc.Credential) : M (result base_ModelInfo) :=
  let* rctl := Controller ctlPath in
  match rctl with
  | Err e => ret (Err (Notef (Some e) "cannot get controller document"))
  | Ok ctl =>
      if Deprecated ctl then ret (Err (Notef None "controller deprecated"))
      else
        let* oerr := OpenAPIFromDoc ctl in
        match oerr with
        | Some e => ret (Err (Notef (Some e) "cannot connect to controller"))
        | None =>
            let* res :=
              (let* cerr :=
                 match cred with
                 | None => ret None
                 | Some c =>
                     let* e1 := updateControllerCredential ctlPath (cred_Path c) true (Some c) in
                     match e1 with
                     | Some e => ret (Some (Notef (Some e) "cannot add credential"))
                     | None =>
                         let* e2 := DB.credentialAddController env (cred_Path c) ctlPath in
                         match e2 with
                         | Some e => ret (Some (Notef (Some e) "cannot add credential"))
                         | None => ret None
                         end
                     end
                 end in
               match cerr with
               | Some e => ret (Err e)
               | None =>
                   let* rm := api_CreateModel env
                                (APICreateModel (Name (p_Path p)) (User_ (p_Path p))
                                                (p_Cloud p) (p_Region p)
                                                (option_map cred_Path cred)) in
                   match rm with
                   | Err err =>
                       if String.eqb (ErrCode err) CodeAlreadyExists
                       then ret (Err (Notef (Some err) "model name in use"))
                       else if String.eqb (ErrCode err) CodeUpgradeInProgress
                       then ret (Err (Notef (Some err) "upgrade in progress"))
                       else ret (Err (WithCausef (Some err) (ECode errInvalidModelParams) ""))
                   | Ok m =>
                       let* gerr := api env (APIGrantModel (AdminUser ctl) "admin" (mi_UUID m)) in
                       match gerr with
                       | Some e =>
                           log "error" "leaked model" ;;
                           ret (Err (Notef (Some e) "cannot grant model access"))
                       | None => ret (Ok m)
                       end
                   end
               end) in
            Close ;;
            ret res
        end
  end.

(** [JEM.possibleControllers]. *)
Definition possibleControllers (ctlPath : EntityPath) (cloud : Cloud) (region : string)
  : M (result (list EntityPath)) :=
  if negb (String.eqb (Name ctlPath) "") then ret (Ok [ctlPath])
  else
    let* r := DB.CloudRegion env cloud region in
    match r with
    | Err e => ret (Err (NoteMask (Some e) "" [Is ErrNotFound]))
    | Ok cloudRegion =>
        let* aerr := CheckCanRead env (CloudRegionEntity cloudRegion) in
        match aerr with
        | Some e => ret (Err (NoteMask (Some e) "" [Is ErrUnauthorized]))
        | None =>
            let controllers :=
              if (length (PrimaryControllers cloudRegion) =? 0)%nat
              then SecondaryControllers cloudRegion
              else PrimaryControllers cloudRegion in
            let* controllers := shuffle env controllers in
            ret (Ok controllers)
        end
    end.

(** The iteration of [selectCredential]: the credentials that match the
    query and that the caller may read, and what [iter.Err()] reports
    once the iterator is drained. *)
Definition readableCredentials (query : CredentialQuery)
  : M (list mongodoc.Credential * option error) :=
  let* rows := DB.FindCredentials env query in
  match rows with
  | Err e => ret ([], Some e)
  | Ok rows => DB.canRead (fun c => CheckCanRead env (CredentialEntity c)) rows
  end.

(** [JEM.selectCredential].  The result is [Ok None] for Go's
    [(nil, nil)]. *)
Definition selectCredential (path : CredentialPath) (user : User) (cloud : Cloud)
  : M (result (option mongodoc.Credential)) :=
  let query := if CredentialPath_IsZero path
               then ByUserCloud user cloud
               else ByPath path in
  let* (creds, ierr) := readableCredentials query in
  match ierr with
  | Some e => ret (Err (Notef (Some e) "cannot query credentials"))
  | None =>
      match creds with
      | [] =>
          if negb (CredentialPath_IsZero path)
          then ret (Err (WithCausef None (ECode ErrNotFound) "credential not found"))
          else ret (Ok None)
      | [c] => ret (Ok (Some c))
      | _ => ret (Err (WithCausef None (ECode ErrAmbiguousChoice)
                                  "more than one possible credential to use"))
      end
  end.

(** The zero values of the path structs. *)
Definition EntityPath_zero : EntityPath := {| User_ := ""; Name := "" |}.
Definition CredentialPath_zero : CredentialPath :=
  {| Cloud_ := ""; EntityPath_ := EntityPath_zero |}.

(** The row [CreateModel] reserves: only the path, the creation time,
    the creator, the usage credentials, the temporary UUID and, when a
    credential was selected, its path are set. *)
Definition reserved_doc (p : CreateModelParams) (now : Time) (creator : string)
           (usageSenderCredentials : list Byte.byte) (uuid : list Byte.byte)
           (cred : option mongodoc.Credential) : Model :=
  {| Id := ""; Path := p_Path p; Controller_ := EntityPath_zero;
     UUID := "creating-" +:+ hex uuid;
     Cloud__ := ""; CloudRegion_ := "";
     Credential_ := match cred with
                    | Some c => cred_Path c
                    | None => CredentialPath_zero
                    end;
     DefaultSeries := ""; Type_ := ""; ProviderType := ""; Info := None;
     Creator := creator; CreationTime := now;
     UsageSenderCredentials := usageSenderCredentials;
     model_ACL := {| Read := []; Write := []; Admin := [] |} |}.

(** The [$set] document [CreateModel] applies once the model exists
    upstream. *)
Definition model_update (ctlPath : EntityPath) (modelInfo : base_ModelInfo) : ModelUpdate :=
  {| upd_uuid := mi_UUID modelInfo;
     upd_controller := ctlPath;
     upd_cloud := mi_Cloud modelInfo;
     upd_cloudregion := mi_CloudRegion modelInfo;
     upd_defaultseries := mi_DefaultSeries modelInfo;
     upd_info := {| Life_ := mi_Life modelInfo;
                    Status := mi_Status modelInfo;
                    StatusMessage := mi_StatusInfo modelInfo;
                    StatusSince := mi_StatusSince modelInfo;
                    AgentVersion := mi_AgentVersion modelInfo |};
     upd_type := mi_Type modelInfo;
     upd_providertype := mi_ProviderType modelInfo |}.

(** The loop of [CreateModel] over the candidate controllers.  It ends
    with the controller that took the model and what it reported, with
    the zero path when every candidate failed, or with the error that
    makes [CreateModel] return from inside the loop. *)
Fixpoint tryControllers (p : CreateModelParams) (cred : option mongodoc.Credential)
         (controllers : list EntityPath) : M (result (EntityPath * base_ModelInfo)) :=
  match controllers with
  | [] => ret (Ok (EntityPath_zero, base_ModelInfo_zero))
  | controller :: rest =>
      let* r := createModelOnController controller p cred in
      match r with
      | Ok modelInfo => ret (Ok (controller, modelInfo))
      | Err err =>
          if Is errInvalidModelParams (Cause err)
          then ret (Err (Notef (Some err) "cannot create model"))
          else
            log "error" "cannot create model on controller" ;;
            tryControllers p cred rest
      end
  end.

(** The statements of [CreateModel] that follow the [defer]. *)
Definition createReserved (p : CreateModelParams) (cred : option mongodoc.Credential)
           (controllers : list EntityPath) (modelDoc : Model) : M (result Model) :=
  let* r := tryControllers p cred controllers in
  match r with
  | Err e => ret (Err e)
  | Ok (ctlPath, modelInfo) =>
      if String.eqb (Name ctlPath) ""
      then ret (Err (New "cannot find suitable controller"))
      else
        let* ra := DB.ApplyModel env (Id modelDoc) (model_update ctlPath modelInfo) in
        match ra with
        | Err e => ret (Err (Notef (Some e) "cannot update model in database"))
        | Ok modelDoc =>
            let* aerr := DB.AppendAudit env
                           (AuditModelCreated (Id modelDoc) (mi_UUID modelInfo)
                                              (User_ (Path modelDoc)) (Creator modelDoc)
                                              (EntityPath_String ctlPath)
                                              (Cloud__ modelDoc) (CloudRegion_ modelDoc)) in
            match aerr with
            | Some _ => log "error" "cannot add audit log for model creation"
            | None => ret tt
            end ;;
            ret (Ok modelDoc)
        end
  end.

(** The deferred function of [CreateModel]: it sees the result the
    function is about to return and, when that is an error, removes the
    reserved row; a failure to remove it is only logged. *)
Definition removeOnError (modelDoc : Model) (r : result Model) : M unit :=
  match r with
  | Ok _ => ret tt
  | Err _ =>
      let* derr := DB.DeleteModel env (Path modelDoc) in
      match derr with
      | Some _ => log "error" "cannot remove model from database after error; leaked model"
      | None => ret tt
      end
  end.

(** The statements of [CreateModel] up to the document it is about to
    insert: the owner check, the usage credentials, the credential, the
    candidate controllers and the document with its temporary UUID. *)
Definition prepare (p : CreateModelParams)
  : M (result (option mongodoc.Credential * list EntityPath * Model)) :=
  let* aerr := CheckIsUser env (User_ (p_Path p)) in
  match aerr with
  | Some e => ret (Err (NoteMask (Some e) "" [Is ErrUnauthorized]))
  | None =>
      let* ru := match usage_client env with
                 | Some client => GetCredentials client (User_ (p_Path p))
                 | None => ret (Ok [])
                 end in
      match ru with
      | Err e => ret (Err (NoteMask (Some e) "" []))
      | Ok usageSenderCredentials =>
          let* rc := selectCredential (p_Credential p) (User_ (p_Path p)) (p_Cloud p) in
          match rc with
          | Err e => ret (Err (NoteMask (Some e) "" [Is ErrNotFound; Is ErrAmbiguousChoice]))
          | Ok cred =>
              let* rp := possibleControllers (p_ControllerPath p) (p_Cloud p) (p_Region p) in
              match rp with
              | Err e => ret (Err (NoteMask (Some e) "" [Is ErrNotFound; Is ErrUnauthorized]))
              | Ok controllers =>
                  let* now := Now env in
                  let* uuid := Next env in
                  ret (Ok (cred, controllers,
                           reserved_doc p now (username env)
                                        usageSenderCredentials uuid cred))
              end
          end
      end
  end.

(** [JEM.CreateModel]. *)
Definition CreateModel (p : CreateModelParams) : M (result Model) :=
  let* pr := prepare p in
  match pr with
  | Err e => ret (Err e)
  | Ok (cred, controllers, modelDoc) =>
      let* ra := DB.AddModel env modelDoc in
      match ra with
      | Err e => ret (Err (NoteMask (Some e) "" [Is ErrAlreadyExists]))
      | Ok modelDoc =>
          let* r := createReserved p cred controllers modelDoc in
          removeOnError modelDoc r ;;
          ret r
      end
  end.

(** What one iteration of the [select] in [UpdateCredential] observes:
    a push reporting on the channel, or the context being done. *)
Inductive Select : Type :=
| RecvCh
| CtxDone.

(** The body of the goroutine [UpdateCredential] starts for a
    controller. *)
Definition push (c : mongodoc.Credential) (credPath : CredentialPath) (ctlPath : EntityPath)
  : M unit :=
  let* err := updateControllerCredential ctlPath credPath false (Some c) in
  match err with
  | Some _ => log "warn" "cannot update credential"
  | None => ret tt
  end.

(** The goroutines together with the loop
    [for n > 0 { select { case <-ch: n--; case <-ctx.Done(): } }].
    [sched] lists what the successive iterations of the [select]
    observe, and [running] the controllers whose goroutine has not
    reported yet; a goroutine is run when its report is received.  The
    result is [None] when the schedule ends with the loop still going
    round. *)
Fixpoint waitPushes (c : mongodoc.Credential) (credPath : CredentialPath)
         (sched : list Select) (n : nat) (running : list EntityPath) {struct sched}
  : M (option unit) :=
  match n with
  | 0 => ret (Some tt)
  | S n' =>
      match sched with
      | [] => ret None
      | RecvCh :: sched' =>
          match running with
          | ctlPath :: _ => push c credPath ctlPath
          | [] => ret tt
          end ;;
          waitPushes c credPath sched' n' (tail running)
      | CtxDone :: sched' =>
          waitPushes c credPath sched' n running
      end
  end.

(** [JEM.UpdateCredential] under a schedule of the [select].  [None]:
    the call has not returned by the end of the schedule;
    [Some err]: it has returned [err]. *)
Definition UpdateCredential (sched : list Select) (cred : mongodoc.Credential)
  : M (option (option error)) :=
  let* uerr := DB.updateCredential env cred in
  match uerr with
  | Some e => ret (Some (Some (Notef (Some e) "cannot update local database")))
  | None =>
      let* rc := DB.Credential env (cred_Path cred) in
      match rc with
      | Err e => ret (Some (Mask (Some e) []))
      | Ok c =>
          let* serr := DB.setCredentialUpdates env (cred_Controllers cred) (cred_Path cred) in
          match serr with
          | Some _ => log "error" "cannot update controllers with updated credential"
          | None => ret tt
          end ;;
          let n := length (cred_Controllers c) in
          let* done := waitPushes c (cred_Path cred) sched n (cred_Controllers c) in
          match done with
          | Some _ => ret (Some None)
          | None => ret None
          end
      end
  end.

(** [JEM.DestroyModel]. *)
Definition DestroyModel (model : Model) (destroyStorage : option bool) : M (option error) :=
  let* err := api env (APIDestroyModel (UUID model) destroyStorage) in
  match err with
  | Some e => ret (Mask (Some e) [IsCodeHasPersistentStorage])
  | None =>
      let* lerr := DB.SetModelLife env (Controller_ model) (UUID model) "dying" in
      match lerr with
      | Some _ => log "warn" "error updating model life"
      | None => ret tt
      end ;;
      let* aerr := DB.AppendAudit env (AuditModelDestroyed (Id model) (UUID model)) in
      match aerr with
      | Some _ => log "error" "cannot add audit log for model destruction"
      | None => ret tt
      end ;;
      ret None
  end.

End WithEnv.
End JEM.

(* ===================================================================== *)
(** * jujuapi: the controller root                                        *)
(* ===================================================================== *)

Module jujuapi.
Import params mongodoc World Ext.

(** ** Dispatch *)

(** [facade]: the key of the facade tables. *)
Definition facade : Type := (string * Z)%type.

(** [unauthenticatedFacades]. *)
Definition unauthenticatedFacades : gmap facade string :=
  list_to_map [
    (("Admin", 3%Z), "Admin");
    (("Pinger", 1%Z), "Pinger")
  ].

(** [facades]. *)
Definition facades : gmap facade string :=
  list_to_map [
    (("Bundle", 1%Z), "Bundle");
    (("Cloud", 1%Z), "CloudV1");
    (("Cloud", 2%Z), "CloudV2");
    (("Cloud", 3%Z), "CloudV3");
    (("Cloud", 4%Z), "CloudV4");
    (("Cloud", 5%Z), "CloudV5");
    (("Controller", 3%Z), "ControllerV3");
    (("Controller", 4%Z), "ControllerV4");
    (("Controller", 5%Z), "ControllerV5");
    (("Controller", 6%Z), "ControllerV6");
    (("Controller", 7%Z), "ControllerV7");
    (("Controller", 8%Z), "ControllerV8");
    (("Controller", 9%Z), "ControllerV9");
    (("JIMM", 1%Z), "JIMMV2");
    (("JIMM", 2%Z), "JIMMV2");
    (("ModelManager", 2%Z), "ModelManagerV2");
    (("ModelManager", 3%Z), "ModelManagerV3");
    (("ModelManager", 4%Z), "ModelManagerAPI");
    (("ModelManager", 5%Z), "ModelManagerAPI");
    (("Pinger", 1%Z), "Pinger");
    (("UserManager", 1%Z), "UserManager");
    (("ModelSummaryWatcher", 1%Z), "ModelSummaryWatcher")
  ].

(** The two states of a connection, and the table [r.facades] points to
    in each. *)
Inductive ConnState : Type :=
| Unauthenticated
| Authenticated.

Definition facades_of (st : ConnState) : gmap facade string :=
  match st with
  | Unauthenticated => unauthenticatedFacades
  | Authenticated => facades
  end.

(** What [FindMethod] does besides computing its result. *)
Inductive Step : Type :=
| Heartbeat
| FacadeLookup (rootName : string) (version : Z)
| FindRootMethod (rootMethod : string) (version : Z) (methodName : string).

(** [jujuparams.CodeNotSupported] and [jujuparams.CodeUnauthorized]. *)
Definition CodeNotSupported : string := "not supported".
Definition CodeUnauthorized : string := "unauthorized access".

Section Dispatch.

(** [rpcreflect.MethodCaller] and the reflective finder [r.findMethod],
    which resolves a method of the controller root, the login method of
    [Admin] among them. *)
Variable MethodCaller : Type.
Variable findMethod : string -> Z -> string -> result MethodCaller.

(** [controllerRoot.FindMethod] in connection state [st]: its result
    and the steps it took. *)
Definition FindMethod (st : ConnState) (rootName : string) (version : Z)
           (methodName : string) : result MethodCaller * list Step :=
  if String.eqb rootName "Admin" && (version <? 3)%Z
  then (Err (EApi CodeNotSupported "JIMM does not support login from old clients"),
        [Heartbeat])
  else
    let rn := default "" (facades_of st !! (rootName, version)) in
    if String.eqb rn ""
    then (Err (ECallNotImplemented rootName version),
          [Heartbeat; FacadeLookup rootName version])
    else (findMethod rn 0%Z methodName,
          [Heartbeat; FacadeLookup rootName version; FindRootMethod rn 0%Z methodName]).

End Dispatch.

(** ** Model information *)

(** [names.UserTag]: a name and an optional domain. *)
Record UserTag : Type := { ut_Name : string; ut_Domain : string }.

(** [UserTag.IsLocal], [UserTag.Id]. *)
Definition ut_IsLocal (t : UserTag) : bool := String.eqb (ut_Domain t) "".
Definition ut_Id (t : UserTag) : string :=
  if String.eqb (ut_Domain t) "" then ut_Name t
  else ut_Name t +:+ "@" +:+ ut_Domain t.

(** [user]. *)
Definition user (tag : UserTag) : result User :=
  if ut_IsLocal tag
  then Err (WithCausef None (ECode ErrBadRequest) "unsupported local user")
  else Ok (if String.eqb (ut_Domain tag) "external" then ut_Name tag else ut_Id tag).

(** [errgo.Is(context.DeadlineExceeded)]. *)
Definition IsDeadlineExceeded (e : error) : bool :=
  match e with
  | EOther msg => String.eqb msg "context deadline exceeded"
  | _ => false
  end.

(** [jujuparams.ModelReadAccess], [ModelWriteAccess], [ModelAdminAccess]. *)
Definition ModelReadAccess : string := "read".
Definition ModelWriteAccess : string := "write".
Definition ModelAdminAccess : string := "admin".

(** [UserTag.WithDomain]. *)
Definition WithDomain (t : UserTag) (domain : string) : UserTag :=
  {| ut_Name := ut_Name t; ut_Domain := domain |}.

(** [sort.Strings]: the strings in increasing order, byte by byte. *)
Fixpoint insert_sorted (s : string) (l : list string) : list string :=
  match l with
  | [] => [s]
  | x :: rest => if String.leb s x then s :: l else x :: insert_sorted s rest
  end.

Definition sort_Strings (l : list string) : list string :=
  foldr insert_sorted [] l.

(** [jujuparams.EntityStatus], without the data. *)
Record EntityStatus : Type := {
  es_Status : string;
  es_Info : string;
  es_Since : option Time
}.

(** [modelStatus]. *)
Definition modelStatus (info : option ModelInfo) : EntityStatus :=
  match info with
  | None => {| es_Status := ""; es_Info := ""; es_Since := None |}
  | Some i =>
      {| es_Status := Status i; es_Info := StatusMessage i; es_Since := StatusSince i |}
  end.

(** The reply of [modelInfo] ([jujuparams.ModelInfo]).  The tags of
    the cloud, of the credential and of the owner are kept as the
    values they are made from, a machine as its id, and a version
    number as the string it prints as. *)
Record ModelInfoReply : Type := {
  r_Name : string;
  r_UUID : string;
  r_ControllerUUID : string;
  r_ProviderType : string;
  r_DefaultSeries : string;
  r_Cloud : string;
  r_CloudRegion : string;
  r_CloudCredential : CredentialPath;
  r_Owner : string;
  r_Life : string;
  r_Status : EntityStatus;
  r_Users : list ModelUserInfo;
  r_Machines : list string;
  r_AgentVersion : option string;
  r_Type : string
}.

(** [info.Users = users]. *)
Definition with_users (info : ModelInfoReply) (users : list ModelUserInfo)
  : ModelInfoReply :=
  {| r_Name := r_Name info; r_UUID := r_UUID info;
     r_ControllerUUID := r_ControllerUUID info; r_ProviderType := r_ProviderType info;
     r_DefaultSeries := r_DefaultSeries info; r_Cloud := r_Cloud info;
     r_CloudRegion := r_CloudRegion info; r_CloudCredential := r_CloudCredential info;
     r_Owner := r_Owner info; r_Life := r_Life info; r_Status := r_Status info;
     r_Users := users; r_Machines := r_Machines info;
     r_AgentVersion := r_AgentVersion info; r_Type := r_Type info |}.

(** The fields of [controllerRoot] the embedded methods read;
    [identity_Id] is [r.identity.Id()]. *)
Record controllerRoot : Type := {
  cr_ControllerUUID : string;
  controllerUUIDMasking : bool;
  identity_Id : string
}.

Section WithEnv.
Variable env : Env.

(** The parsers of the [names] package. *)
Variable ParseModelTag : string -> result string.
Variable ParseCloudTag : string -> result string.
Variable ParseCloudCredentialTag : string -> result (string * UserTag * string).

(** [names.IsValidUser] and [names.NewUserTag]. *)
Variable IsValidUser : string -> bool.
Variable NewUserTag : string -> UserTag.

(** [version.Parse]. *)
Variable ParseVersion : string -> result string.

(** [userTag]. *)
Definition userTag (username : string) : UserTag :=
  let tag := NewUserTag username in
  if String.eqb (ut_Domain tag) "" then WithDomain tag "external" else tag.

(** [iterUsers].  The callback updates the variables it has captured,
    which are threaded through as [s]. *)
Fixpoint iterUsers {S : Type} (users : list ModelUserInfo)
         (f : User -> ModelUserInfo -> S -> M S) (s : S) : M S :=
  match users with
  | [] => ret s
  | u :: rest =>
      if negb (IsValidUser (UserName u))
      then
        log "info" "controller sent invalid username, skipping" ;;
        iterUsers rest f s
      else
        match user (NewUserTag (UserName u)) with
        | Err _ =>
            (* This error will occur if the user is local to the
               controller, it can be safely ignored. *)
            iterUsers rest f s
        | Ok user =>
            let* s' := f user u s in
            iterUsers rest f s'
        end
  end.

(** [isModelAdmin], on the users of the model information. *)
Definition isModelAdmin (users : list ModelUserInfo) : M bool :=
  iterUsers users
            (fun u ui (admin : bool) =>
               if admin then ret true
               else if String.eqb (Access ui) ModelAdminAccess
               then
                 let* err := CheckIsUser env u in
                 ret (match err with None => true | Some _ => false end)
               else ret false)
            false.

(** [filterUsers]. *)
Definition filterUsers (users : list ModelUserInfo) (admin : bool)
  : M (list ModelUserInfo) :=
  iterUsers users
            (fun u ui (filtered : list ModelUserInfo) =>
               if admin then ret (filtered ++ [ui])
               else
                 let* err := CheckIsUser env u in
                 match err with
                 | None => ret (filtered ++ [ui])
                 | Some _ => ret filtered
                 end)
            [].

(** [runWithContext]: the task runs detached; the caller gets its
    result, or [ctx.Err()] when the context is done first. *)
Definition runWithContext {A} (f : M (result A)) : M (result A) :=
  let* r := f in
  let* t := get_tick in
  match ctx_done env t with
  | Some cerr =>
      match r with
      | Err _ => log "info" "error in canceled task"
      | Ok _ => ret tt
      end ;;
      ret (Err (NoteMask (Some cerr) "" [Any]))
  | None =>
      match r with
      | Err e => ret (Err (NoteMask (Some e) "" [Any]))
      | Ok a => ret (Ok a)
      end
  end.

(** [fetchModelInfo]. *)
Definition fetchModelInfo (model : Model) : M (result ControllerModelInfo) :=
  let* oerr := JEM.OpenAPI env (Controller_ model) in
  match oerr with
  | Some e => ret (Err (NoteMask (Some e) "" [IsDeadlineExceeded]))
  | None =>
      let* res :=
        (let* ri := runWithContext (api_ModelInfo env (UUID model)) in
         match ri with
         | Err e => ret (Err (NoteMask (Some e) "" [IsDeadlineExceeded]))
         | Ok infos =>
             match infos with
             | [info] =>
                 match mir_Error info with
                 | Some (code, msg) => ret (Err (EApi code msg))
                 | None => ret (Ok (mir_Result info))
                 end
             | _ => ret (Err (New "unexpected number of ModelInfo results"))
             end
         end) in
      JEM.Close ;;
      ret res
  end.

Definition with_cloud (m : Model) (cloud region : string) (cred : CredentialPath)
           (series : string) : Model :=
  {| Id := Id m; Path := Path m; Controller_ := Controller_ m; UUID := UUID m;
     Cloud__ := cloud; CloudRegion_ := region; Credential_ := cred;
     DefaultSeries := series; Type_ := Type_ m; ProviderType := ProviderType m;
     Info := Info m; Creator := Creator m; CreationTime := CreationTime m;
     UsageSenderCredentials := UsageSenderCredentials m; model_ACL := model_ACL m |}.

(** [getModel] with [authf = auth.CheckCanRead]. *)
Definition getModel (modelTag : string) : M (result Model) :=
  match ParseModelTag modelTag with
  | Err e => ret (Err (WithCausef (Some e) (ECode ErrBadRequest) "invalid model tag"))
  | Ok id =>
      let* rm := DB.ModelFromUUID env id in
      match rm with
      | Err e => ret (Err (NoteMask (Some e) "" [Is ErrNotFound]))
      | Ok model =>
          let* aerr := CheckCanRead env (ModelEntity model) in
          match aerr with
          | Some e => ret (Err (NoteMask (Some e) "" [Any]))
          | None =>
              if negb (String.eqb (Cloud__ model) "") then ret (Ok model)
              else
                (* The model does not currently store its cloud
                   information so go and fetch it from the model itself. *)
                let* ri := fetchModelInfo model in
                match ri with
                | Err e => ret (Err (NoteMask (Some e) "" []))
                | Ok info =>
                    match ParseCloudTag (cmi_CloudTag info) with
                    | Err e => ret (Err (Notef (Some e) "bad data from controller"))
                    | Ok cloud =>
                        match ParseCloudCredentialTag (cmi_CloudCredentialTag info) with
                        | Err e => ret (Err (Notef (Some e) "bad data from controller"))
                        | Ok (credCloud, credOwner, credName) =>
                            match user credOwner with
                            | Err e => ret (Err (NoteMask (Some e) "" [Is ErrBadRequest]))
                            | Ok owner =>
                                let model :=
                                  with_cloud model cloud (cmi_CloudRegion info)
                                             {| Cloud_ := credCloud;
                                                EntityPath_ := {| User_ := owner;
                                                                  Name := credName |} |}
                                             (cmi_DefaultSeries info) in
                                let* uerr := DB.UpdateLegacyModel env model in
                                match uerr with
                                | Some _ => log "warn" "cannot update model with cloud details"
                                | None => ret tt
                                end ;;
                                ret (Ok model)
                            end
                        end
                    end
                end
          end
      end
  end.

(** The map [userLevels] of [modelDocToModelInfo]: the access of every
    user of the ACL of the row, the later assignment winning, and admin
    access for the owner. *)
Definition userLevels (model : Model) : gmap string string :=
  let assign (access : string) (users : list string) (m : gmap string string) :=
    foldl (fun m user => <[user := access]> m) m users in
  <[User_ (Path model) := ModelAdminAccess]>
    (assign ModelAdminAccess (Admin (model_ACL model))
       (assign ModelWriteAccess (Write (model_ACL model))
          (assign ModelReadAccess (Read (model_ACL model)) ∅))).

(** The entry of the user list for [user]; a user without a level gets
    the zero value of the map. *)
Definition user_entry (levels : gmap string string) (user : string) : ModelUserInfo :=
  let ut := userTag user in
  {| UserName := ut_Id ut; DisplayName := ut_Name ut;
     Access := default "" (levels !! user) |}.

(** [modelVersion]; the agent version of the row is the entry of
    [Config] under [config.AgentVersionKey]. *)
Definition modelVersion (info : option ModelInfo) : M (option string) :=
  match info with
  | None => ret None
  | Some i =>
      let versionString := default "" (AgentVersion i) in
      if String.eqb versionString "" then ret None
      else
        match ParseVersion versionString with
        | Err _ => log "warn" "cannot parse agent-version" ;; ret None
        | Ok v => ret (Some v)
        end
  end.

(** [controllerRoot.modelDocToModelInfo]. *)
Definition modelDocToModelInfo (r : controllerRoot) (model : Model)
  : M (result ModelInfoReply) :=
  let* rms := DB.MachinesForModel env (UUID model) in
  match rms with
  | Err e => ret (Err (NoteMask (Some e) "" []))
  | Ok machines =>
      let* rp := (if String.eqb (ProviderType model) ""
                  then DB.ProviderType env (Cloud__ model)
                  else ret (Ok (ProviderType model))) in
      match rp with
      | Err e => ret (Err (Notef (Some e) "cannot get cloud"))
      | Ok providerType =>
          let levels := userLevels model in
          let* aerr := CheckIsAdmin env (ModelEntity model) in
          let users :=
            match aerr with
            | None => map (user_entry levels) (sort_Strings (map fst (map_to_list levels)))
            | Some _ => [user_entry levels (identity_Id r)]
            end in
          let* agentVersion := modelVersion (Info model) in
          let info (controllerUUID : string) :=
            {| r_Name := Name (Path model);
               r_UUID := UUID model;
               r_ControllerUUID := controllerUUID;
               r_ProviderType := providerType;
               r_DefaultSeries := DefaultSeries model;
               r_Cloud := Cloud__ model;
               r_CloudRegion := CloudRegion_ model;
               r_CloudCredential := Credential_ model;
               r_Owner := User_ (Path model);
               r_Life := Life model;
               r_Status := modelStatus (Info model);
               r_Users := users;
               r_Machines :=
                 map m_Id (filter (fun m => negb (String.eqb (m_Life m) "dead")) machines);
               r_AgentVersion := agentVersion;
               r_Type := Type_ model |} in
          if negb (controllerUUIDMasking r)
          then
            let* rc := DB.Controller env (Controller_ model) in
            match rc with
            | Err e => ret (Err (Notef (Some e) "failed to fetch controller"))
            | Ok c => ret (Ok (info (ctl_UUID c)))
            end
          else ret (Ok (info (cr_ControllerUUID r)))
      end
  end.

(** [controllerRoot.modelInfo]. *)
Definition modelInfo (r : controllerRoot) (tag : string) (localOnly : bool)
  : M (result ModelInfoReply) :=
  let* rm := getModel tag in
  match rm with
  | Err e => ret (Err (NoteMask (Some e) "" [Is ErrBadRequest; Is ErrUnauthorized;
                                             Is ErrNotFound]))
  | Ok model =>
      let* ri := modelDocToModelInfo r model in
      match ri with
      | Err e => ret (Err (NoteMask (Some e) "" []))
      | Ok info =>
          if localOnly then ret (Ok info)
          else
            (* Query the model itself for user information. *)
            let* rc := fetchModelInfo model in
            match rc with
            | Err err =>
                let code := ErrCode err in
                if String.eqb (Life model) "dying" && String.eqb code CodeUnauthorized
                then
                  log "info" "could not get ModelInfo for dying model, marking dead" ;;
                  (* The model was dying and now cannot be accessed,
                     assume it is now dead. *)
                  let* derr := DB.DeleteModelWithUUID env (Controller_ model) (UUID model) in
                  match derr with
                  | Some _ => log "warn" "error deleting model"
                  | None => ret tt
                  end ;;
                  ret (Err (WithCausef (Some err) (ECode ErrUnauthorized) ""))
                else
                  log "error" "failed to get ModelInfo from controller" ;;
                  ret (Ok info)
            | Ok infoFromController =>
                let* admin := isModelAdmin (cmi_Users infoFromController) in
                let* users := filterUsers (cmi_Users infoFromController) admin in
                ret (Ok (with_users info users))
            end
      end
  end.

End WithEnv.
End jujuapi.

(* ===================================================================== *)
(** * monitor: the lease sweep of the allMonitor                          *)
(* ===================================================================== *)

Module monitor.
Import params mongodoc.

(** What a sweep does besides updating the monitoring set. *)
Inductive Step : Type :=
| AllControllers
| ClockNow
| AcquireLease (path : EntityPath) (oldExpiry : Time) (oldOwner newOwner : string)
| StartControllerMonitor (path : EntityPath) (ownerId : string) (leaseExpiry : Time)
| Log (level : string) (path : EntityPath).

(** The fields of [allMonitor] a sweep reads and writes, with the number
    of calls made so far and the steps taken. *)
Record allMonitor : Type := {
  ownerId : string;
  monitoring : gmap EntityPath bool;
  mtick : nat;
  steps : list Step
}.

Definition step (s : Step) (m : allMonitor) : allMonitor :=
  {| ownerId := ownerId m; monitoring := monitoring m;
     mtick := S (mtick m); steps := steps m ++ [s] |}.

(** [m.monitoring[path] = true]. *)
Definition set_monitoring (path : EntityPath) (m : allMonitor) : allMonitor :=
  {| ownerId := ownerId m; monitoring := <[path := true]> (monitoring m);
     mtick := mtick m; steps := steps m |}.

(** [m.monitoring[path]]: false for a path that is not a key. *)
Definition is_monitoring (m : allMonitor) (path : EntityPath) : bool :=
  default false (monitoring m !! path).

(** Modelled from the spec: [isMonitoringStoppedError] is defined
    elsewhere in the monitor package, which is not part of the sources
    at hand.  The spec lists [MonitoringStopped] among the error kinds
    and says callers match on the cause. *)
Definition isMonitoringStoppedError (err : option error) : bool :=
  match err with
  | Some e => Is errMonitoringStopped (Cause e)
  | None => false
  end.

Section WithJEM.

(** [jemInterface.AllControllers], [Clock.Now] and the package function
    [acquireLease], each answered per tick.  [acquireLease] attempts
    [AcquireMonitorLease] with the old expiry and owner it is given and
    returns the new expiry. *)
Variable jem_AllControllers : nat -> result (list Controller).
Variable Clock_Now : nat -> Time.
Variable acquireLease : nat -> EntityPath -> Time -> string -> string -> result Time.

(** [Time.Before]. *)
Definition Before (t u : Time) : bool := (t <? u)%Z.

(** The loop of [startMonitors] over the controllers. *)
Fixpoint sweep (ctls : list Controller) (m : allMonitor) : option error * allMonitor :=
  match ctls with
  | [] => (None, m)
  | ctl :: rest =>
      if is_monitoring m (ctl_Path ctl)
      then
        (* We're already monitoring this controller. *)
        sweep rest (step (Log "debug" (ctl_Path ctl)) m)
      else
        let other := negb (String.eqb (MonitorLeaseOwner ctl) (ownerId m)) in
        let m1 := if other then step ClockNow m else m in
        if other && Before (Clock_Now (mtick m)) (MonitorLeaseExpiry ctl)
        then
          (* Someone else already holds the lease. *)
          sweep rest m1
        else
          let r := acquireLease (mtick m1) (ctl_Path ctl) (MonitorLeaseExpiry ctl)
                                (MonitorLeaseOwner ctl) (ownerId m) in
          let m2 := step (AcquireLease (ctl_Path ctl) (MonitorLeaseExpiry ctl)
                                       (MonitorLeaseOwner ctl) (ownerId m)) m1 in
          match r with
          | Err err =>
              if isMonitoringStoppedError (Some err)
              then
                (* Someone else got there first. *)
                sweep rest (step (Log "info" (ctl_Path ctl)) m2)
              else (Some (Notef (Some err) "cannot acquire lease"), m2)
          | Ok newExpiry =>
              (* We've acquired the lease. *)
              sweep rest
                    (step (StartControllerMonitor (ctl_Path ctl) (ownerId m) newExpiry)
                          (set_monitoring (ctl_Path ctl) m2))
          end
  end.

(** [allMonitor.startMonitors]. *)
Definition startMonitors (m : allMonitor) : option error * allMonitor :=
  match jem_AllControllers (mtick m) with
  | Err err => (Some (Notef (Some err) "cannot get controllers"), step AllControllers m)
  | Ok ctls => sweep ctls (step AllControllers m)
  end.

End WithJEM.
End monitor.

(* ===================================================================== *)
(** * jem: the pool and its reference count                               *)
(* ===================================================================== *)

Module pool.

(** The fields of [Pool] that [NewPool], [Close], [decRef], [JEM] and
    [Clone] read and write, with the number of times
    [connCache.Close()] has been called. *)
Record Pool : Type := {
  dbName : string;
  closed : bool;
  refCount : Z;
  cacheCloses : nat
}.

(** A pool and the [JEM] instances made from it; an instance is
    represented by its [closed] field and named by its position. *)
Record State : Type := {
  the_pool : Pool;
  jems : list bool
}.

(** [Pool.decRef].  [None] is the panic "negative reference count". *)
Definition decRef (p : Pool) : option Pool :=
  let n := (refCount p - 1)%Z in
  let closes := if (n =? 0)%Z then S (cacheCloses p) else cacheCloses p in
  if (n <? 0)%Z then None
  else Some {| dbName := dbName p; closed := closed p; refCount := n;
               cacheCloses := closes |}.

(** [Pool.Close]. *)
Definition Close (st : State) : option State :=
  if closed (the_pool st) then Some st
  else
    match decRef (the_pool st) with
    | None => None
    | Some p =>
        Some {| the_pool := {| dbName := dbName p; closed := true;
                               refCount := refCount p;
                               cacheCloses := cacheCloses p |};
                jems := jems st |}
    end.

(** [Pool.JEM]: the new instance and the state.  [None] is the panic
    "JEM call on closed pool". *)
Definition JEM (st : State) : option (nat * State) :=
  if closed (the_pool st) then None
  else
    Some (length (jems st),
          {| the_pool := {| dbName := dbName (the_pool st);
                            closed := closed (the_pool st);
                            refCount := (refCount (the_pool st) + 1)%Z;
                            cacheCloses := cacheCloses (the_pool st) |};
             jems := jems st ++ [false] |}).

(** [JEM.Clone] of instance [j].  The clone copies the database handle
    of the receiver, which [Close] has set to nil on a closed instance;
    what happens then is decided outside the sources at hand, so a clone
    of a closed instance has no result here, like a clone of an
    instance that was never made. *)
Definition Clone (j : nat) (st : State) : option (nat * State) :=
  match jems st !! j with
  | Some false =>
      Some (length (jems st),
            {| the_pool := {| dbName := dbName (the_pool st);
                              closed := closed (the_pool st);
                              refCount := (refCount (the_pool st) + 1)%Z;
                              cacheCloses := cacheCloses (the_pool st) |};
               jems := jems st ++ [false] |})
  | _ => None
  end.

(** [JEM.Close] of instance [j]. *)
Definition JEM_Close (j : nat) (st : State) : option State :=
  match jems st !! j with
  | Some true => Some st
  | Some false =>
      match decRef (the_pool st) with
      | None => None
      | Some p => Some {| the_pool := p; jems := <[j := true]> (jems st) |}
      end
  | None => None
  end.

(** [mgo.Database], of which [NewPool] reads the name. *)
Record Database : Type := { db_Name : string }.

(** [Params], as far as [NewPool] inspects it: the database (a pointer,
    [None] when nil), whether a session pool is given, the controller
    admin and the usage sender URL. *)
Record Params : Type := {
  DB : option Database;
  ControllerAdmin : string;
  SessionPool : bool;
  UsageSenderURL : string
}.

(** What the calls [NewPool] makes answer: [fastuuid.NewGenerator],
    [NewUsageSenderAuthorizationClient] and [ensureIndexes]. *)
Record Answers : Type := {
  newGenerator : option error;
  newUsageClient : option error;
  ensureIndexes : option error
}.

(** [NewPool].  The pool starts with a reference count of one; the
    instance used to ensure the indexes is closed again on return.
    [None] is a panic: [p.DB.Name] is read without a check that [p.DB]
    is not nil. *)
Definition NewPool (p : Params) (a : Answers) : option (result State) :=
  if String.eqb (ControllerAdmin p) ""
  then Some (Err (New "no controller admin group specified"))
  else if negb (SessionPool p)
  then Some (Err (New "no session pool provided"))
  else
    match newGenerator a with
    | Some e => Some (Err (NoteMask (Some e) "" []))
    | None =>
        match DB p with
        | None => None
        | Some db =>
            let st := {| the_pool := {| dbName := db_Name db; closed := false;
                                        refCount := 1; cacheCloses := 0 |};
                         jems := [] |} in
            match (if negb (String.eqb (UsageSenderURL p) "")
                   then newUsageClient a else None) with
            | Some e =>
                Some (Err (Notef (Some e) "cannot make omnibus authorization client"))
            | None =>
                match JEM st with
                | None => None
                | Some (jem, st) =>
                    let r := ensureIndexes a in
                    match JEM_Close jem st with
                    | None => None
                    | Some st =>
                        match r with
                        | Some e => Some (Err (Notef (Some e) "cannot ensure indexes"))
                        | None => Some (Ok st)
                        end
                    end
                end
            end
        end
    end.

(** What the holders of a pool do with it. *)
Inductive Op : Type :=
| DoClose
| DoJEM
| DoClone (j : nat)
| DoJEMClose (j : nat).

Definition step (st : State) (o : Op) : option State :=
  match o with
  | DoClose => Close st
  | DoJEM => option_map snd (JEM st)
  | DoClone j => option_map snd (Clone j st)
  | DoJEMClose j => JEM_Close j st
  end.

(** A run of operations; [None] when one of them panics. *)
Fixpoint run (ops : list Op) (st : State) : option State :=
  match ops with
  | [] => Some st
  | o :: rest =>
      match step st o with
      | None => None
      | Some st' => run rest st'
      end
  end.

End pool.

(* ===================================================================== *)
(** * jujuapi: the facade constructors                                    *)
(* ===================================================================== *)

Module controllerroot.
Import params mongodoc World Ext.

(** ** Facade constructors *)

(** [common.ErrBadId]. *)
Definition ErrBadId : error := EOther "id not found".

(** The facade objects ([admin], [controllerV3], ...).  Each version of
    the Controller facade embeds the version below it. *)
Inductive Facade : Type :=
| an_admin
| a_bundleAPIv1
| a_controllerV3
| a_controllerV4 (v3 : Facade)
| a_controllerV5 (v4 : Facade)
| a_controllerV6 (v5 : Facade)
| a_controllerV7 (v6 : Facade)
| a_controllerV8 (v7 : Facade)
| a_controllerV9 (v8 : Facade)
| a_jimmV2
| a_pinger
| a_userManager.

Definition Admin (id : string) : result Facade :=
  if negb (String.eqb id "") then Err ErrBadId else Ok an_admin.

(** [Bundle]; [newBundleAPIv1] is what [bundle.NewBundleAPIv1]
    reports. *)
Definition Bundle (newBundleAPIv1 : option error) (id : string) : result Facade :=
  if negb (String.eqb id "") then Err ErrBadId
  else
    match Mask newBundleAPIv1 [] with
    | Some e => Err e
    | None => Ok a_bundleAPIv1
    end.

Definition ControllerV3 (id : string) : result Facade :=
  if negb (String.eqb id "") then Err ErrBadId else Ok a_controllerV3.

Definition ControllerV4 (id : string) : result Facade :=
  if negb (String.eqb id "") then Err ErrBadId
  else
    match ControllerV3 id with
    | Err e => Err (NoteMask (Some e) "" [])
    | Ok v3 => Ok (a_controllerV4 v3)
    end.

Definition ControllerV5 (id : string) : result Facade :=
  if negb (String.eqb id "") then Err ErrBadId
  else
    match ControllerV4 id with
    | Err e => Err (NoteMask (Some e) "" [])
    | Ok v4 => Ok (a_controllerV5 v4)
    end.

Definition ControllerV6 (id : string) : result Facade :=
  if negb (String.eqb id "") then Err ErrBadId
  else
    match ControllerV5 id with
    | Err e => Err (NoteMask (Some e) "" [])
    | Ok v5 => Ok (a_controllerV6 v5)
    end.

Definition ControllerV7 (id : string) : result Facade :=
  if negb (String.eqb id "") then Err ErrBadId
  else
    match ControllerV6 id with
    | Err e => Err (NoteMask (Some e) "" [])
    | Ok v6 => Ok (a_controllerV7 v6)
    end.

Definition ControllerV8 (id : string) : result Facade :=
  if negb (String.eqb id "") then Err ErrBadId
  else
    match ControllerV7 id with
    | Err e => Err (NoteMask (Some e) "" [])
    | Ok v7 => Ok (a_controllerV8 v7)
    end.

(** [ControllerV9]; [newGenerator] is what [fastuuid.NewGenerator]
    reports.  Unlike the versions below it, it does not look at [id]
    itself. *)
Definition ControllerV9 (newGenerator : option error) (id : string) : result Facade :=
  match newGenerator with
  | Some e => Err (NoteMask (Some e) "" [])
  | None =>
      match ControllerV8 id with
      | Err e => Err (NoteMask (Some e) "" [])
      | Ok v8 => Ok (a_controllerV9 v8)
      end
  end.

Definition JIMMV2 (id : string) : result Facade :=
  if negb (String.eqb id "") then Err ErrBadId else Ok a_jimmV2.

Definition Pinger (id : string) : result Facade :=
  if negb (String.eqb id "") then Err ErrBadId else Ok a_pinger.

Definition UserManager (id : string) : result Facade :=
  if negb (String.eqb id "") then Err ErrBadId else Ok a_userManager.

End controllerroot.

(* ===================================================================== *)
(** * jem: pushing the outstanding credentials of a controller            *)
(* ===================================================================== *)

Module credentials.
Import params mongodoc World Ext.

Section WithEnv.
Variable env : Env.

(** The loop of [ControllerUpdateCredentials] over the credentials that
    await a push; it uses the connection of its caller, and a push that
    fails is logged and the loop goes on. *)
Fixpoint updateAll (ctlPath : EntityPath) (credPaths : list CredentialPath) : M unit :=
  match credPaths with
  | [] => ret tt
  | credPath :: rest =>
      let* err := JEM.updateControllerCredential env ctlPath credPath true None in
      match err with
      | Some _ => log "warn" "cannot update credential"
      | None => ret tt
      end ;;
      updateAll ctlPath rest
  end.

(** [JEM.ControllerUpdateCredentials]. *)
Definition ControllerUpdateCredentials (ctlPath : EntityPath) : M (option error) :=
  let* r := DB.Controller env ctlPath in
  match r with
  | Err e => ret (Mask (Some e) [Is ErrNotFound])
  | Ok ctl =>
      let* oerr := JEM.OpenAPIFromDoc env ctl in
      match oerr with
      | Some e => ret (Some (Notef (Some e) "cannot connect to controller"))
      | None =>
          updateAll (ctl_Path ctl) (UpdateCredentials ctl) ;;
          JEM.Close ;;
          ret None
      end
  end.

End WithEnv.
End credentials.

(* ===================================================================== *)
(** * monitor: the run loops                                              *)
(* ===================================================================== *)

Module supervision.
Import params mongodoc.

(** [tomb.ErrDying]. *)
Definition ErrDying : error := EOther "tomb: dying".

(** What an iteration of the [select] in [allMonitor.run] observes: a
    controller monitor reporting on [controllerRemoved] that it has
    terminated, the lease interval elapsing, or the tomb dying.  In the
    last case the loop that waits for the controller monitors receives
    the paths [removed] from the channel, one after another. *)
Inductive Select : Type :=
| ControllerRemoved (ctlId : EntityPath)
| After
| Dying (removed : list EntityPath).

(** [delete(m.monitoring, path)]. *)
Definition delete_monitoring (path : EntityPath) (m : monitor.allMonitor)
  : monitor.allMonitor :=
  {| monitor.ownerId := monitor.ownerId m;
     monitor.monitoring := delete path (monitor.monitoring m);
     monitor.mtick := monitor.mtick m;
     monitor.steps := monitor.steps m |}.

(** [for len(m.monitoring) > 0 { delete(m.monitoring, <-m.controllerRemoved) }].
    The result says whether the loop has ended by the time the paths
    are used up; it blocks on the channel otherwise. *)
Fixpoint drain (removed : list EntityPath) (m : monitor.allMonitor)
  : bool * monitor.allMonitor :=
  if (size (monitor.monitoring m) =? 0)%nat then (true, m)
  else
    match removed with
    | [] => (false, m)
    | path :: rest => drain rest (delete_monitoring path m)
    end.

Section WithJEM.

Variable jem_AllControllers : nat -> result (list Controller).
Variable Clock_Now : nat -> Time.
Variable acquireLease : nat -> EntityPath -> Time -> string -> string -> result Time.

(** The [waitLoop] of [allMonitor.run] followed by the further rounds
    of the outer loop.  The result is [None] while the function has not
    returned. *)
Fixpoint waitLoop (sched : list Select) (m : monitor.allMonitor)
  : option error * monitor.allMonitor :=
  match sched with
  | [] => (None, m)
  | ControllerRemoved ctlId :: rest => waitLoop rest (delete_monitoring ctlId m)
  | After :: rest =>
      match monitor.startMonitors jem_AllControllers Clock_Now acquireLease m with
      | (Some err, m') => (Some (Notef (Some err) "cannot start monitors"), m')
      | (None, m') => waitLoop rest m'
      end
  | Dying removed :: _ =>
      (* Wait for all the controller monitors to terminate. *)
      match drain removed m with
      | (true, m') => (Some ErrDying, m')
      | (false, m') => (None, m')
      end
  end.

(** [allMonitor.run]. *)
Definition run (sched : list Select) (m : monitor.allMonitor)
  : option error * monitor.allMonitor :=
  match monitor.startMonitors jem_AllControllers Clock_Now acquireLease m with
  | (Some err, m') => (Some (Notef (Some err) "cannot start monitors"), m')
  | (None, m') => waitLoop sched m'
  end.

End WithJEM.

(** What an iteration of the [select] in [Monitor.run] observes: the
    inner monitor being dead, or the tomb of the monitor dying. *)
Inductive Outer : Type :=
| InnerDead
| OuterDying.

(** What has become of a call of [Monitor.run]: it has panicked, it is
    still running, or it has returned. *)
Inductive Outcome : Type :=
| Panicked
| Running (st : pool.State)
| Returned (err : error) (st : pool.State).

(** [Monitor.run], as far as the pool is concerned: every round takes
    an instance from the pool for the inner monitor and closes it when
    the inner monitor is dead or the monitor is dying. *)
Fixpoint Monitor_run (sched : list Outer) (st : pool.State) : Outcome :=
  match pool.JEM st with
  | None => Panicked
  | Some (shim, st1) =>
      match sched with
      | [] => Running st1
      | InnerDead :: rest =>
          match pool.JEM_Close shim st1 with
          | None => Panicked
          | Some st2 => Monitor_run rest st2
          end
      | OuterDying :: _ =>
          match pool.JEM_Close shim st1 with
          | None => Panicked
          | Some st2 => Returned ErrDying st2
          end
      end
  end.

End supervision.

(* ===================================================================== *)
(** * Example environments and stores                                     *)
(* ===================================================================== *)

Module Examples.
Import params mongodoc World.

(** An environment in which every call succeeds. *)
Definition calm : Env :=
  {| db_fault := fun _ => None;
     acl_check := fun _ => None;
     username := "alice";
     usage_client := None;
     clock_now := fun t => Z.of_nat t;
     uuid_next := fun _ => [Byte.xab; Byte.xcd; Byte.x07];
     rand_int := fun t => S t;
     api_fault := fun _ => None;
     api_created := fun _ =>
       {| mi_UUID := "0f5a"; mi_Cloud := "aws"; mi_CloudRegion := "eu-west-1";
          mi_DefaultSeries := "focal"; mi_Type := "iaas"; mi_ProviderType := "ec2";
          mi_Life := "alive"; mi_Status := "available"; mi_StatusInfo := "";
          mi_StatusSince := None; mi_AgentVersion := Some "2.9.0" |};
     api_model_infos := fun _ => [];
     ctx_done := fun _ => None |}.

(** [calm], except that the store fails the calls [fault] names. *)
Definition with_db_fault (fault : nat -> option error) (env : Env) : Env :=
  {| db_fault := fault; acl_check := acl_check env; username := username env;
     usage_client := usage_client env; clock_now := clock_now env;
     uuid_next := uuid_next env; rand_int := rand_int env;
     api_fault := api_fault env; api_created := api_created env;
     api_model_infos := api_model_infos env; ctx_done := ctx_done env |}.

Definition with_acl_check (verdict : nat -> option error) (env : Env) : Env :=
  {| db_fault := db_fault env; acl_check := verdict; username := username env;
     usage_client := usage_client env; clock_now := clock_now env;
     uuid_next := uuid_next env; rand_int := rand_int env;
     api_fault := api_fault env; api_created := api_created env;
     api_model_infos := api_model_infos env; ctx_done := ctx_done env |}.

Definition with_api_fault (fault : nat -> option error) (env : Env) : Env :=
  {| db_fault := db_fault env; acl_check := acl_check env; username := username env;
     usage_client := usage_client env; clock_now := clock_now env;
     uuid_next := uuid_next env; rand_int := rand_int env;
     api_fault := fault; api_created := api_created env;
     api_model_infos := api_model_infos env; ctx_done := ctx_done env |}.

Definition with_model_infos (infos : list ModelInfoResult) (env : Env) : Env :=
  {| db_fault := db_fault env; acl_check := acl_check env; username := username env;
     usage_client := usage_client env; clock_now := clock_now env;
     uuid_next := uuid_next env; rand_int := rand_int env;
     api_fault := api_fault env; api_created := api_created env;
     api_model_infos := fun _ => infos; ctx_done := ctx_done env |}.

(** The answer [e] at tick [t], success at every other tick. *)
Definition only_at (t : nat) (e : error) : nat -> option error :=
  fun t' => if (t' =? t)%nat then Some e else None.

(** The answer [e] from tick [t] on. *)
Definition from_tick (t : nat) (e : error) : nat -> option error :=
  fun t' => if (t <=? t')%nat then Some e else None.

Definition alice_aws : CredentialPath :=
  {| Cloud_ := "aws"; EntityPath_ := {| User_ := "alice"; Name := "main" |} |}.

Definition bob_aws : CredentialPath :=
  {| Cloud_ := "aws"; EntityPath_ := {| User_ := "bob"; Name := "main" |} |}.

Definition ctl1 : EntityPath := {| User_ := "admin"; Name := "ctl1" |}.
Definition ctl2 : EntityPath := {| User_ := "admin"; Name := "ctl2" |}.

Definition credential (path : CredentialPath) (ctls : list EntityPath) : Credential :=
  {| cred_Path := path; cred_ACL := {| Read := []; Write := []; Admin := [] |};
     cred_Type := "access-key";
     cred_Attributes := [("access-key", "k"); ("secret-key", "s")];
     cred_Controllers := ctls; cred_Revoked := false |}.

Definition controller (path : EntityPath) (uuid owner : string) (expiry : Time)
  : Controller :=
  {| ctl_Path := path; ctl_UUID := uuid; AdminUser := "admin";
     ctl_ACL := {| Read := ["everyone"]; Write := []; Admin := [] |};
     Deprecated := false;
     MonitorLeaseOwner := owner; MonitorLeaseExpiry := expiry;
     UpdateCredentials := [] |}.

(** Four controllers as a sweep of replica [jimm-1] at time 100 finds
    them: one it already monitors, one leased to another replica until
    200, one whose lease has lapsed but which another replica takes
    first, and one that is free. *)
Definition ctl3 : EntityPath := {| User_ := "admin"; Name := "ctl3" |}.
Definition ctl4 : EntityPath := {| User_ := "admin"; Name := "ctl4" |}.




Definition empty_store : Store :=
  {| models := []; credentials := []; controllers := []; cloudregions := [];
     machines := []; audits := [] |}.

Definition alice_aws_alt : CredentialPath :=
  {| Cloud_ := "aws"; EntityPath_ := {| User_ := "alice"; Name := "alt" |} |}.

(** Alice has two credentials for aws, Bob has one. *)
Definition three_credentials : Store :=
  {| models := [];
     credentials := [credential alice_aws [ctl1]; credential bob_aws [];
                     credential alice_aws_alt []];
     controllers := [controller ctl1 "uuid-1" "" 0%Z; controller ctl2 "uuid-2" "" 0%Z];
     cloudregions := []; machines := []; audits := [] |}.

(** A region with three primary controllers and one secondary one. *)
Definition one_region : Store :=
  {| models := []; credentials := [];
     controllers := [];
     cloudregions := [{| cr_Cloud := "aws"; cr_Region := "eu-west-1";
                         cr_ProviderType := "ec2";
                         cr_ACL := {| Read := ["everyone"]; Write := []; Admin := [] |};
                         PrimaryControllers := [ctl1; ctl2; ctl3];
                         SecondaryControllers := [ctl4] |}];
     machines := []; audits := [] |}.

Definition start (s : Store) : World := {| tick := 0; store := s; trace := [] |}.

Definition root : jujuapi.controllerRoot :=
  {| jujuapi.cr_ControllerUUID := "914487b5"; jujuapi.controllerUUIDMasking := true;
     jujuapi.identity_Id := "alice" |}.

(** A tag parser in the manner of the [names] package: [kind-id]. *)
Definition parse_tag (kind : string) (s : string) : result string :=
  if String.prefix (kind +:+ "-") s
  then Ok (String.substring (String.length kind + 1)
                            (String.length s - (String.length kind + 1)) s)
  else Err (EOther "not a valid tag").

Definition no_credential_tags (s : string) : result (string * jujuapi.UserTag * string) :=
  Err (EOther "not a valid cloud credential tag").

(** A model of Alice on [ctl1] with the given UUID and life. *)
Definition model (name uuid life : string) : Model :=
  {| Id := "alice/" +:+ name; Path := {| User_ := "alice"; Name := name |};
     Controller_ := ctl1; UUID := uuid; Cloud__ := "aws"; CloudRegion_ := "eu-west-1";
     Credential_ := alice_aws; DefaultSeries := "focal"; Type_ := "iaas";
     ProviderType := "ec2";
     Info := Some {| Life_ := life; Status := "available"; StatusMessage := "";
                     StatusSince := None; AgentVersion := Some "2.9.0" |};
     Creator := "alice"; CreationTime := 0%Z; UsageSenderCredentials := [];
     model_ACL := {| Read := []; Write := []; Admin := [] |} |}.

(** A store with one controller and two models, one of them dying. *)
Definition two_models : Store :=
  {| models := [model "old" "0f5a" "dying"; model "new" "77c1" "alive"];
     credentials := [credential alice_aws [ctl1]];
     controllers := [controller ctl1 "uuid-1" "" 0%Z];
     cloudregions := []; machines := []; audits := [] |}.

(** The single entry of an upstream [ModelInfo] reply that refuses access. *)
Definition refused : ModelInfoResult :=
  {| mir_Error := Some ("unauthorized access", "permission denied");
     mir_Result := {| cmi_CloudTag := ""; cmi_CloudRegion := "";
                      cmi_CloudCredentialTag := ""; cmi_DefaultSeries := "";
                      cmi_Users := [] |} |}.

(** Alice asks for a model on a controller the store does not know. *)
Definition request : JEM.CreateModelParams :=
  {| JEM.p_Path := {| User_ := "alice"; Name := "m1" |};
     JEM.p_ControllerPath := {| User_ := "admin"; Name := "nowhere" |};
     JEM.p_Credential := alice_aws;
     JEM.p_Cloud := "aws";
     JEM.p_Region := "";
     JEM.p_Attributes := [] |}.

(** Alice asks for a model on [ctl1]. *)
Definition request_ctl1 : JEM.CreateModelParams :=
  {| JEM.p_Path := {| User_ := "alice"; Name := "m1" |};
     JEM.p_ControllerPath := ctl1;
     JEM.p_Credential := alice_aws;
     JEM.p_Cloud := "aws";
     JEM.p_Region := "";
     JEM.p_Attributes := [] |}.

Definition value {A} (d : A) (r : result A) : A :=
  match r with
  | Ok a => a
  | Err _ => d
  end.

Definition failure {A} (r : result A) : error :=
  match r with
  | Ok _ => EOther ""
  | Err e => e
  end.

End Examples.

(* ===================================================================== *)
(** * Further example stores                                              *)
(* ===================================================================== *)

Module MoreExamples.
Import params mongodoc World.

(** [ctl1] with two credentials that await a push. *)
Definition behind : Controller :=
  {| ctl_Path := Examples.ctl1; ctl_UUID := "uuid-1"; AdminUser := "admin";
     ctl_ACL := {| Read := ["everyone"]; Write := []; Admin := [] |};
     Deprecated := false;
     MonitorLeaseOwner := ""; MonitorLeaseExpiry := 0%Z;
     UpdateCredentials := [Examples.alice_aws; Examples.bob_aws] |}.

Definition pending : Store :=
  {| models := [];
     credentials := [Examples.credential Examples.alice_aws [Examples.ctl1];
                     Examples.credential Examples.bob_aws [Examples.ctl1]];
     controllers := [behind];
     cloudregions := []; machines := []; audits := [] |}.

(** The error of an upstream call that is refused with the code
    [unauthorized access]. *)
Definition denied : error := EApi jujuapi.CodeUnauthorized "permission denied".

(** [calm], except that the upstream call made at tick [t] fails with
    [denied]. *)
Definition call_denied (t : nat) : Env :=
  Examples.with_api_fault (Examples.only_at t denied) Examples.calm.

(** The dying model of [two_models] as a JIMM version older than 0.9.5
    stored it: without its cloud details. *)
Definition legacy : Model :=
  jujuapi.with_cloud (Examples.model "old" "0f5a" "dying") "" ""
                     {| Cloud_ := ""; EntityPath_ := {| User_ := ""; Name := "" |} |} "".

Definition legacy_models : Store :=
  {| models := [legacy; Examples.model "new" "77c1" "alive"];
     credentials := credentials Examples.two_models;
     controllers := controllers Examples.two_models;
     cloudregions := []; machines := []; audits := [] |}.

(** Stand-ins for [names.IsValidUser] and [names.NewUserTag]: every
    name is valid and has no domain. *)
Definition any_user (s : string) : bool := true.

Definition plain_tag (s : string) : jujuapi.UserTag :=
  {| jujuapi.ut_Name := s; jujuapi.ut_Domain := "" |}.

(** A stand-in for [version.Parse] that accepts every string. *)
Definition any_version (s : string) : result string := Ok s.

(** A [modelInfo] request of Alice for the model with UUID 0f5a, not
    local-only, in environment [env] on store [s]. *)
Definition ask (env : Env) (s : Store) : result jujuapi.ModelInfoReply * World :=
  jujuapi.modelInfo env (Examples.parse_tag "model") (Examples.parse_tag "cloud")
                    Examples.no_credential_tags any_user plain_tag any_version
                    Examples.root "model-0f5a" false (Examples.start s).

End MoreExamples.

(* ===================================================================== *)
(** * Vocabulary of the statements                                        *)
(* ===================================================================== *)

Import params mongodoc World.

(** The events a run adds to the trace. *)
Definition added (w w' : World) (evs : list Event) : Prop :=
  trace w' = trace w ++ evs.

(** The log entry written for a failed call, none for a successful one. *)
Definition logged (level msg : string) (err : option error) : list Event :=
  match err with
  | Some _ => [(LogMsg level msg, None)]
  | None => []
  end.

(** The identity service denies: its verdict is an error whose cause is
    [params.ErrUnauthorized]. *)
Definition denied (verdict : option error) : Prop :=
  exists e, verdict = Some e /\ Cause e = ECode ErrUnauthorized.

(** The controllers of a region row that are candidates: the primary
    ones, the secondary ones only when there is no primary one. *)
Definition preferred (r : CloudRegion) : list EntityPath :=
  match PrimaryControllers r with
  | [] => SecondaryControllers r
  | _ :: _ => PrimaryControllers r
  end.

(** The row [DB.CloudRegion] serves for (cloud, region). *)
Definition region_row (s : Store) (cloud : Cloud) (region : string) : option CloudRegion :=
  find (fun r => bool_decide (cr_Cloud r = cloud) && bool_decide (cr_Region r = region))
       (cloudregions s).

(** What a sweep leaves behind: the owner is unchanged, the monitoring
    set only grows, every lease attempt is for a listed controller that
    was not in the monitoring set and carries the expiry and the owner
    observed in the list, and every monitor started is for a controller
    that is now in the monitoring set and whose lease was attempted. *)
Definition sweep_post (ctls : list Controller) (m m' : monitor.allMonitor) : Prop :=
  monitor.ownerId m' = monitor.ownerId m
  /\ (forall p, monitor.is_monitoring m p = true -> monitor.is_monitoring m' p = true)
  /\ exists new,
      monitor.steps m' = monitor.steps m ++ new
      /\ (forall p e o n,
             In (monitor.AcquireLease p e o n) new ->
             monitor.is_monitoring m p = false
             /\ n = monitor.ownerId m
             /\ exists ctl, In ctl ctls /\ p = ctl_Path ctl
                            /\ e = MonitorLeaseExpiry ctl /\ o = MonitorLeaseOwner ctl)
      /\ (forall p o x,
             In (monitor.StartControllerMonitor p o x) new ->
             monitor.is_monitoring m' p = true
             /\ exists e o', In (monitor.AcquireLease p e o' o) new).

(** The number of reports a schedule of the [select] delivers. *)
Fixpoint reports (sched : list JEM.Select) : nat :=
  match sched with
  | [] => 0
  | JEM.RecvCh :: rest => S (reports rest)
  | JEM.CtxDone :: rest => reports rest
  end.

(** The number of instances of a pool that have not been closed. *)
Definition open_jems (st : pool.State) : nat :=
  length (filter (fun c => negb c) (pool.jems st)).

(** The reference count is one for the pool itself while it is not
    closed, plus one for every open instance; the connection cache has
    been closed once if the count is zero and never otherwise. *)
Definition pool_balanced (st : pool.State) : Prop :=
  pool.refCount (pool.the_pool st)
  = ((if pool.closed (pool.the_pool st) then 0 else 1) + Z.of_nat (open_jems st))%Z
  /\ pool.cacheCloses (pool.the_pool st)
     = (if (pool.refCount (pool.the_pool st) =? 0)%Z then 1 else 0).

(** The elements a run of builder operations asks to add to a set and
    to pull, in call order, and the value it last set a field to. *)
Definition adds {V} (ops : list (jimmdb.Op V)) : list (jimmdb.DocElem V) :=
  flat_map (fun o => match o with
                     | jimmdb.OpAddToSet f v => [{| jimmdb.Name := f; jimmdb.Value_ := v |}]
                     | _ => []
                     end) ops.

Definition pulls {V} (ops : list (jimmdb.Op V)) : list (jimmdb.DocElem V) :=
  flat_map (fun o => match o with
                     | jimmdb.OpPull f v => [{| jimmdb.Name := f; jimmdb.Value_ := v |}]
                     | _ => []
                     end) ops.

Fixpoint last_set {V} (field : string) (ops : list (jimmdb.Op V)) : option V :=
  match ops with
  | [] => None
  | o :: rest =>
      match last_set field rest with
      | Some v => Some v
      | None =>
          match o with
          | jimmdb.OpSet f v => if String.eqb f field then Some v else None
          | _ => None
          end
      end
  end.

Definition sets {V} (ops : list (jimmdb.Op V)) : bool :=
  existsb (fun o => match o with jimmdb.OpSet _ _ => true | _ => false end) ops.

(** The value an update document sets a field to. *)
Definition set_to {V} (u : jimmdb.Update V) (field : string) : option V :=
  match jimmdb.Set_ u with
  | Some m => m !! field
  | None => None
  end.

(** Whether a dispatch got as far as resolving a method of the root. *)
Definition reaches_root (steps : list jujuapi.Step) : bool :=
  existsb (fun s => match s with jujuapi.FindRootMethod _ _ _ => true | _ => false end)
          steps.

(** The user an entry of a model's user list stands for, when its name
    is valid and not local to the controller: the entries [iterUsers]
    hands to its callback. *)
Definition external_user (IsValidUser : string -> bool)
           (NewUserTag : string -> jujuapi.UserTag)
           (ui : ModelUserInfo) : option User :=
  if IsValidUser (UserName ui)
  then match jujuapi.user (NewUserTag (UserName ui)) with
       | Ok u => Some u
       | Err _ => None
       end
  else None.

Definition is_external (IsValidUser : string -> bool)
           (NewUserTag : string -> jujuapi.UserTag)
           (ui : ModelUserInfo) : bool :=
  match external_user IsValidUser NewUserTag ui with
  | Some _ => true
  | None => false
  end.

(** An event that is an identity check, and one that is a log entry. *)
Definition is_check (ev : Event) : bool :=
  match fst ev with
  | AuthCheckIsUser _ | AuthCheckCanRead _ | AuthCheckIsAdmin _
  | AuthCheckReadACL _ => true
  | _ => false
  end.

Definition is_log (ev : Event) : bool :=
  match fst ev with
  | LogMsg _ _ => true
  | _ => false
  end.

(** Every run of a computation only appends to the trace, and what it
    appends satisfies [Q] together with the result. *)
Definition emits {A} (c : M A) (Q : A -> list Event -> Prop) : Prop :=
  forall w, exists evs, added w (snd (c w)) evs /\ Q (fst (c w)) evs.

(** Calls made over a connection to a controller. *)
Definition is_upstream (c : Call) : bool :=
  match c with
  | APICreateModel _ _ _ _ _ | APIGrantModel _ _ _ | APIUpdateCredential _ _
  | APIRevokeCredential _ | APIDestroyModel _ _ | APIModelInfo _ => true
  | _ => false
  end.

(** The calls that push a credential to a controller. *)
Definition is_push (c : Call) : bool :=
  match c with
  | APIUpdateCredential _ _ | APIRevokeCredential _ => true
  | _ => false
  end.

(** The connection discipline.  Starting with [depth] connections open,
    the events are scanned in order: a successful [OpenAPI] opens a
    connection, [ConnClose] closes one and needs one to be open, and an
    upstream call needs one to be open.  The result is the number of
    connections open at the end, if the discipline was kept. *)
Fixpoint bracketed (depth : nat) (evs : list Event) : option nat :=
  match evs with
  | [] => Some depth
  | (OpenAPI _, None) :: rest => bracketed (S depth) rest
  | (ConnClose, _) :: rest =>
      match depth with
      | 0 => None
      | S d => bracketed d rest
      end
  | (c, _) :: rest =>
      if is_upstream c && (depth =? 0)%nat then None else bracketed depth rest
  end.

(** The events keep the discipline and leave as many connections open
    as they found, whatever that number is: every connection they open
    they close, and they use none but their own. *)
Definition steady (evs : list Event) : Prop :=
  forall d, bracketed d evs = Some d.

(** The same for events that use a connection their caller holds. *)
Definition steady_inside (evs : list Event) : Prop :=
  forall d, bracketed (S d) evs = Some (S d).

(** Opening and closing a connection. *)
Definition is_conn (c : Call) : bool :=
  match c with
  | OpenAPI _ | ConnClose => true
  | _ => false
  end.

(** A push that has succeeded. *)
Definition pushed (ev : Event) : Prop :=
  is_push (fst ev) = true /\ snd ev = None.

(** What [updateControllerCredential] may do on a controller for a
    credential path: a push is for this path, and it is the one the
    credential asks for when the caller supplied the credential
    (a revocation for a revoked credential, an update with its type
    otherwise); the pending flag is cleared for this controller and
    this path only. *)
Definition push_for (ctlPath : EntityPath) (credPath : CredentialPath)
           (cred : option Credential) (c : Call) : Prop :=
  match c with
  | APIRevokeCredential p =>
      p = credPath /\ forall cr, cred = Some cr -> cred_Revoked cr = true
  | APIUpdateCredential p t =>
      p = credPath /\ forall cr, cred = Some cr -> cred_Revoked cr = false /\ t = cred_Type cr
  | DBclearCredentialUpdate c p => c = ctlPath /\ p = credPath
  | _ => True
  end.

Definition is_clear (c : Call) : bool :=
  match c with
  | DBclearCredentialUpdate _ _ => true
  | _ => false
  end.

(** A connection has been opened. *)
Definition opened (ev : Event) : Prop :=
  exists u, ev = (OpenAPI u, None).

(** The push of a credential path has been attempted: with no
    credential at hand, [updateControllerCredential] starts by reading
    it. *)
Definition attempted (evs : list Event) (credPath : CredentialPath) : Prop :=
  Exists (fun ev => fst ev = DBCredential credPath) evs.

(** The kinds of calls: lookups in the store, the reservation of a
    model row, removals, other writes, identity checks, the
    process-wide sources, opening and closing a connection, the
    upstream calls, and the log. *)
Inductive Kind : Type :=
| KLookup | KReserve | KRemove | KUpdate | KCheck | KSource
| KOpen | KClose | KCreate | KGrant | KPush | KDestroy | KInfo | KLog.

Definition kind (c : Call) : Kind :=
  match c with
  | DBCredential _ | DBFindCredentials _ | DBCloudRegion _ _ | DBController _
  | DBModelFromUUID _ | DBMachinesForModel _ | DBProviderType _ => KLookup
  | DBAddModel _ => KReserve
  | DBDeleteModel _ | DBDeleteModelWithUUID _ _ => KRemove
  | DBApplyModel _ _ | DBSetModelLife _ _ _ | DBUpdateLegacyModel _ | DBAppendAudit _
  | DBupdateCredential _ | DBsetCredentialUpdates _ _ | DBcredentialAddController _ _
  | DBclearCredentialUpdate _ _ => KUpdate
  | AuthCheckIsUser _ | AuthCheckCanRead _ | AuthCheckIsAdmin _
  | AuthCheckReadACL _ => KCheck
  | UsageGetCredentials _ | ClockNow | UUIDNext | RandIntn _ => KSource
  | OpenAPI _ => KOpen
  | ConnClose => KClose
  | APICreateModel _ _ _ _ _ => KCreate
  | APIGrantModel _ _ _ => KGrant
  | APIUpdateCredential _ _ | APIRevokeCredential _ => KPush
  | APIDestroyModel _ _ => KDestroy
  | APIModelInfo _ => KInfo
  | LogMsg _ _ => KLog
  end.

(** Every call among the events is of one of the kinds listed. *)
Definition touches (kinds : list Kind) (evs : list Event) : Prop :=
  Forall (fun ev => In (kind (fst ev)) kinds) evs.

(** The controllers whose document a run has asked for with an access
    check, in order: the controllers [CreateModel] has tried. *)
Definition dialled (evs : list Event) : list EntityPath :=
  flat_map (fun ev => match fst ev with
                      | AuthCheckReadACL p => [p]
                      | _ => []
                      end) evs.

(** A model has been created on a controller, and admin access to the
    model with this UUID has been granted. *)
Definition created (ev : Event) : Prop :=
  kind (fst ev) = KCreate /\ snd ev = None.

Definition granted (uuid : string) (ev : Event) : Prop :=
  exists user, ev = (APIGrantModel user "admin" uuid, None).

(** A computation makes calls of the kinds listed only. *)
Definition calls {A} (kinds : list Kind) (c : M A) : Prop :=
  emits c (fun _ evs => touches kinds evs).

(** What a sweep that returns nil has done about a controller of the
    list: the controller is monitored now, or another owner held an
    unexpired lease on it when the clock was read, or the attempt to
    take its lease found that another replica got there first. *)
Definition covered (Clock_Now : nat -> Time)
           (acquireLease : nat -> EntityPath -> Time -> string -> string -> result Time)
           (m' : monitor.allMonitor) (owner : string) (ctl : Controller) : Prop :=
  monitor.is_monitoring m' (ctl_Path ctl) = true
  \/ (MonitorLeaseOwner ctl <> owner
      /\ exists t, monitor.Before (Clock_Now t) (MonitorLeaseExpiry ctl) = true)
  \/ (exists t e, acquireLease t (ctl_Path ctl) (MonitorLeaseExpiry ctl)
                               (MonitorLeaseOwner ctl) owner = Err e
                  /\ monitor.isMonitoringStoppedError (Some e) = true).

(* ===================================================================== *)
(** * Properties                                                          *)
(* ===================================================================== *)

(** ** errgo *)

Lemma Cause_NoteMask_pass u msg pass :
  matches pass (Cause u) = true ->
  Cause (NoteMask (Some u) msg pass) = Cause u.
Proof. intros H. unfold NoteMask. rewrite H. reflexivity. Qed.

Lemma Mask_nil_iff u pass : Mask u pass = None <-> u = None.
Proof. destruct u; simpl; split; congruence. Qed.

(** ** Concrete runs *)

Example hex_of_three_bytes : Ext.hex [Byte.xab; Byte.xcd; Byte.x07] = "abcd07".
Proof. reflexivity. Qed.

Example Mask_keeps_a_passed_cause :
  option_map Cause (Mask (Some (DB.not_found "model")) [Is ErrNotFound])
  = Some (ECode ErrNotFound).
Proof. reflexivity. Qed.

Example Mask_hides_other_causes :
  option_map (fun e => Is ErrNotFound (Cause e))
             (Mask (Some (DB.not_found "model")) [Is ErrUnauthorized])
  = Some false.
Proof. reflexivity. Qed.

Example FindMethod_Admin_v3_before_login :
  jujuapi.FindMethod unit (fun _ _ _ => Ok tt) jujuapi.Unauthenticated "Admin" 3 "Login"
  = (Ok tt, [jujuapi.Heartbeat; jujuapi.FacadeLookup "Admin" 3;
             jujuapi.FindRootMethod "Admin" 0 "Login"]).
Proof. vm_compute. reflexivity. Qed.

Example FindMethod_Cloud_before_login :
  jujuapi.FindMethod unit (fun _ _ _ => Ok tt) jujuapi.Unauthenticated "Cloud" 5 "Clouds"
  = (Err (ECallNotImplemented "Cloud" 5),
     [jujuapi.Heartbeat; jujuapi.FacadeLookup "Cloud" 5]).
Proof. vm_compute. reflexivity. Qed.

Example FindMethod_JIMM_v1_after_login :
  snd (jujuapi.FindMethod unit (fun _ _ _ => Ok tt) jujuapi.Authenticated
                          "JIMM" 1 "ListControllers")
  = [jujuapi.Heartbeat; jujuapi.FacadeLookup "JIMM" 1;
     jujuapi.FindRootMethod "JIMMV2" 0 "ListControllers"].
Proof. vm_compute. reflexivity. Qed.

Example selectCredential_explicit_and_missing :
  cause_of (fst (JEM.selectCredential Examples.calm Examples.bob_aws "alice" "aws"
                                      (Examples.start Examples.empty_store)))
  = Some (ECode ErrNotFound).
Proof. vm_compute. reflexivity. Qed.

Example selectCredential_none_given_none_found :
  fst (JEM.selectCredential Examples.calm JEM.CredentialPath_zero "alice" "aws"
                            (Examples.start Examples.empty_store))
  = Ok None.
Proof. vm_compute. reflexivity. Qed.

Example selectCredential_single_match :
  fst (JEM.selectCredential Examples.calm JEM.CredentialPath_zero "bob" "aws"
                            (Examples.start Examples.three_credentials))
  = Ok (Some (Examples.credential Examples.bob_aws [])).
Proof. vm_compute. reflexivity. Qed.

(** A creation that succeeds on the named controller: the reserved row
    ends with the UUID the controller reported, and is audited. *)
Example CreateModel_on_named_controller :
  let r := JEM.CreateModel Examples.calm Examples.request_ctl1
                           (Examples.start Examples.three_credentials) in
  match fst r with
  | Ok m => UUID m = "0f5a" /\ Controller_ m = Examples.ctl1
  | Err _ => False
  end
  /\ map UUID (models (store (snd r))) = ["0f5a"]
  /\ audits (store (snd r))
     = [AuditModelCreated "alice/m1" "0f5a" "alice" "alice" "admin/ctl1" "aws" "eu-west-1"].
Proof. vm_compute. repeat split; reflexivity. Qed.

(** ** jimmdb.Update *)

Section UpdateFacts.
Context {Value : Type}.
Implicit Types u : jimmdb.Update Value.

Lemma IsZero_recorded u : jimmdb.IsZero u = true <-> jimmdb.recorded u = 0.
Proof.
  unfold jimmdb.IsZero, jimmdb.recorded.
  rewrite !andb_true_iff, !Nat.eqb_eq. lia.
Qed.

Lemma IsZero_AddToSet u field value :
  jimmdb.IsZero (jimmdb.AddToSet u field value) = false.
Proof.
  unfold jimmdb.IsZero; simpl. rewrite length_app; simpl.
  replace (length (jimmdb.AddToSet_ u) + 1 =? 0)%nat with false; [reflexivity |].
  symmetry. apply Nat.eqb_neq. lia.
Qed.

Lemma IsZero_Pull u field value :
  jimmdb.IsZero (jimmdb.Pull u field value) = false.
Proof.
  unfold jimmdb.IsZero; simpl. rewrite length_app; simpl.
  replace (length (jimmdb.Pull_ u) + 1 =? 0)%nat with false;
    [apply andb_false_intro1, andb_false_r |].
  symmetry. apply Nat.eqb_neq. lia.
Qed.

Lemma IsZero_Set u field value :
  jimmdb.IsZero (jimmdb.Set' u field value) = false.
Proof.
  unfold jimmdb.IsZero; simpl.
  match goal with |- context [(size ?m =? 0)%nat] => assert (Hs : size m <> 0) end.
  { apply map_size_non_empty_iff, insert_non_empty. }
  apply Nat.eqb_neq in Hs. rewrite Hs. apply andb_false_r.
Qed.

Lemma IsZero_apply u o : jimmdb.IsZero (jimmdb.apply u o) = false.
Proof.
  destruct o; simpl; auto using IsZero_AddToSet, IsZero_Pull, IsZero_Set.
Qed.

Lemma IsZero_record ops u :
  ops <> [] -> jimmdb.IsZero (jimmdb.record ops u) = false.
Proof.
  destruct ops as [| o ops] using rev_ind; [congruence | intros _].
  unfold jimmdb.record. rewrite fold_left_app. simpl. apply IsZero_apply.
Qed.

End UpdateFacts.

(** C10.  An update is zero exactly when nothing is recorded on it: the
    zero value is zero, an update is zero if and only if its three
    operation documents are empty, any single AddToSet, Pull or Set
    makes any update non-zero, and an update built from the zero value
    by a run of operations is zero if and only if the run is empty. *)
Theorem Update_IsZero_exactly_when_nothing_recorded (Value : Type) :
  jimmdb.IsZero (jimmdb.zero (Value := Value)) = true
  /\ (forall u : jimmdb.Update Value,
         jimmdb.IsZero u = true <-> jimmdb.recorded u = 0)
  /\ (forall (u : jimmdb.Update Value) field value,
         jimmdb.IsZero (jimmdb.AddToSet u field value) = false
         /\ jimmdb.IsZero (jimmdb.Pull u field value) = false
         /\ jimmdb.IsZero (jimmdb.Set' u field value) = false)
  /\ (forall ops : list (jimmdb.Op Value),
         jimmdb.IsZero (jimmdb.record ops jimmdb.zero) = true <-> ops = []).
Proof.
  split; [reflexivity |].
  split; [apply IsZero_recorded |].
  split.
  - intros u field value.
    auto using IsZero_AddToSet, IsZero_Pull, IsZero_Set.
  - intros ops. split.
    + intros Hz. destruct ops as [| o ops]; [reflexivity |].
      rewrite IsZero_record in Hz; [discriminate | congruence].
    + intros ->. reflexivity.
Qed.

(** ** Dispatch *)

(** C5.  Whatever the method name, the reflective finder and the state
    of the connection, a call to root [Admin] at a version below 3 gets
    the [not supported] error after the heartbeat alone: neither the
    facade table is consulted nor a root method (the login handling
    among them) looked up. *)
Theorem FindMethod_old_Admin_not_supported
        (MethodCaller : Type) (findMethod : string -> Z -> string -> result MethodCaller)
        (st : jujuapi.ConnState) (version : Z) (methodName : string) :
  (version < 3)%Z ->
  jujuapi.FindMethod MethodCaller findMethod st "Admin" version methodName
  = (Err (EApi jujuapi.CodeNotSupported "JIMM does not support login from old clients"),
     [jujuapi.Heartbeat]).
Proof.
  intros Hv. unfold jujuapi.FindMethod.
  apply Z.ltb_lt in Hv. rewrite Hv. reflexivity.
Qed.

Lemma FindMethod_old_Admin_witness :
  (2 < 3)%Z
  /\ jujuapi.FindMethod unit (fun _ _ _ => Ok tt) jujuapi.Authenticated "Admin" 2 "Login"
     = (Err (EApi "not supported" "JIMM does not support login from old clients"),
        [jujuapi.Heartbeat])
  /\ jujuapi.FindMethod unit (fun _ _ _ => Ok tt) jujuapi.Unauthenticated "Admin" 3 "Login"
     = (Ok tt, [jujuapi.Heartbeat; jujuapi.FacadeLookup "Admin" 3;
                jujuapi.FindRootMethod "Admin" 0 "Login"]).
Proof.
  split; [lia |]. split.
  - apply (FindMethod_old_Admin_not_supported unit (fun _ _ _ => Ok tt)
             jujuapi.Authenticated 2 "Login"). lia.
  - vm_compute. reflexivity.
Defined.

(** ** The world *)


Ltac run :=
  repeat (cbv beta iota delta
              [bind ret emit get_tick
               Ext.check Ext.api Ext.log Ext.Now Ext.Next Ext.randIntn
               Ext.CheckIsUser Ext.CheckCanRead Ext.CheckReadACL
               Ext.api_CreateModel Ext.api_ModelInfo Ext.GetCredentials
               DB.call DB.err_of added logged]; simpl).

(** ** DestroyModel *)

(** C9.  When the upstream destroy fails, [DestroyModel] returns the
    error (masked, so never nil) after that single call: the store is
    untouched, so the life is not set and no audit entry is appended.
    When the upstream destroy succeeds, [DestroyModel] returns nil
    whatever the store answers to the life update and to the audit
    append; both are attempted, with life "dying" on the row
    (controller, UUID), and a failure of either is only logged. *)
Theorem DestroyModel_upstream_first (env : Env) (model : Model)
        (destroyStorage : option bool) (w : World) :
  let call := APIDestroyModel (UUID model) destroyStorage in
  (forall e, api_fault env (tick w) = Some e ->
     JEM.DestroyModel env model destroyStorage w
     = (Some (NoteMask (Some e) "" [JEM.IsCodeHasPersistentStorage]),
        {| tick := S (tick w); store := store w;
           trace := trace w ++ [(call, Some e)] |}))
  /\ (api_fault env (tick w) = None ->
      exists w' lerr aerr,
        JEM.DestroyModel env model destroyStorage w = (None, w')
        /\ added w w'
             ((call, None)
                :: (DBSetModelLife (Controller_ model) (UUID model) "dying", lerr)
                :: logged "warn" "error updating model life" lerr
                ++ (DBAppendAudit (AuditModelDestroyed (Id model) (UUID model)), aerr)
                :: logged "error" "cannot add audit log for model destruction" aerr)).
Proof.
  split.
  - intros e He. unfold JEM.DestroyModel. run. rewrite He. reflexivity.
  - intros Hok. unfold JEM.DestroyModel, DB.SetModelLife, DB.AppendAudit. run.
    rewrite Hok. run.
    destruct (db_fault env (S (tick w))) as [e1 |] eqn:H1; run.
    + destruct (db_fault env (S (S (S (tick w))))) as [e2 |] eqn:H2; run;
        [eexists _, (Some e1), (Some e2) | eexists _, (Some e1), None];
        (split; [reflexivity |]); simpl; rewrite <- !app_assoc; reflexivity.
    + destruct (db_fault env (S (S (tick w)))) as [e2 |] eqn:H2; run;
        [eexists _, None, (Some e2) | eexists _, None, None];
        (split; [reflexivity |]); simpl; rewrite <- !app_assoc; reflexivity.
Qed.

Lemma DestroyModel_witness :
  let model := Examples.model "old" "0f5a" "alive" in
  let w := Examples.start Examples.two_models in
  let refusal := EApi "model/controller has persistent storage" "has storage" in
  (* the controller refuses: the error comes back, the store is as it was *)
  (exists e w',
      JEM.DestroyModel (Examples.with_api_fault (Examples.only_at 0 refusal) Examples.calm)
                       model None w = (Some e, w')
      /\ Cause e = refusal
      /\ store w' = store w)
  (* the controller destroys the model and the store is down: nil *)
  /\ (exists w',
         JEM.DestroyModel (Examples.with_db_fault (Examples.from_tick 0 (EOther "EOF"))
                                                  Examples.calm)
                          model None w = (None, w')).
Proof.
  intros model w refusal. split.
  - destruct (DestroyModel_upstream_first
                (Examples.with_api_fault (Examples.only_at 0 refusal) Examples.calm)
                model None w) as [Hfail _].
    specialize (Hfail refusal eq_refl).
    eexists _, _. split; [exact Hfail |]. split; reflexivity.
  - destruct (DestroyModel_upstream_first
                (Examples.with_db_fault (Examples.from_tick 0 (EOther "EOF")) Examples.calm)
                model None w) as [_ Hok].
    destruct (Hok eq_refl) as (w' & lerr & aerr & Hrun & _).
    exists w'. exact Hrun.
Defined.

(** ** Credential *)


Lemma find_absent {A} (f : A -> bool) (l : list A) :
  Forall (fun a => f a = false) l -> find f l = None.
Proof.
  induction 1 as [| a l Ha _ IH]; simpl; [reflexivity |].
  rewrite Ha. exact IH.
Qed.

Lemma lookup_absent {A} what (f : A -> bool) (l : list A) :
  Forall (fun a => f a = false) l -> DB.lookup what f l = Err (DB.not_found what).
Proof. intros H. unfold DB.lookup. rewrite (find_absent f l H). reflexivity. Qed.

(** C6.  When no credential row has the path, the store serves the
    lookup, and the identity check for the path's user denies, then
    [JEM.Credential] returns an error whose cause is Unauthorized, hence
    not NotFound. *)
Theorem Credential_absent_is_Unauthorized (env : Env) (path : CredentialPath) (w : World) :
  Forall (fun c => cred_Path c <> path) (credentials (store w)) ->
  db_fault env (tick w) = None ->
  denied (acl_check env (S (tick w))) ->
  exists e w',
    JEM.Credential env path w = (Err e, w')
    /\ Cause e = ECode ErrUnauthorized
    /\ Cause e <> ECode ErrNotFound.
Proof.
  intros Habsent Hdb (aerr & Hacl & Hcause).
  unfold JEM.Credential, DB.Credential. run. rewrite Hdb.
  rewrite lookup_absent.
  2:{ eapply Forall_impl; [exact Habsent |]. intros c Hc.
      apply bool_decide_eq_false. exact Hc. }
  run. rewrite Hacl. run.
  eexists _, _. split; [reflexivity |].
  assert (Hc : Cause (NoteMask (Some aerr) "" [Is ErrNotFound; Is ErrUnauthorized])
               = ECode ErrUnauthorized).
  { rewrite Cause_NoteMask_pass; [exact Hcause |]. rewrite Hcause. reflexivity. }
  rewrite Hc. split; [reflexivity | discriminate].
Qed.

(** An existing credential the caller may not read is refused with the
    same cause, so the two cases look alike to the caller. *)
Lemma Credential_unreadable_is_Unauthorized (env : Env) (path : CredentialPath)
      (w : World) (row : Credential) :
  find (fun c => bool_decide (cred_Path c = path)) (credentials (store w)) = Some row ->
  db_fault env (tick w) = None ->
  denied (acl_check env (S (tick w))) ->
  exists e w',
    JEM.Credential env path w = (Err e, w')
    /\ Cause e = ECode ErrUnauthorized.
Proof.
  intros Hrow Hdb (aerr & Hacl & Hcause).
  unfold JEM.Credential, DB.Credential, DB.lookup. run.
  rewrite Hdb, Hrow. run. rewrite Hacl. run.
  eexists _, _. split; [reflexivity |].
  rewrite Cause_NoteMask_pass; [exact Hcause |]. rewrite Hcause. reflexivity.
Qed.

Lemma Credential_absent_witness :
  exists e w',
    JEM.Credential (Examples.with_acl_check
                      (Examples.only_at 1 (ECode ErrUnauthorized)) Examples.calm)
                   Examples.bob_aws
                   (Examples.start Examples.empty_store)
    = (Err e, w')
    /\ Cause e = ECode ErrUnauthorized
    /\ Cause e <> ECode ErrNotFound.
Proof.
  apply (Credential_absent_is_Unauthorized
           (Examples.with_acl_check (Examples.only_at 1 (ECode ErrUnauthorized))
                                    Examples.calm)
           Examples.bob_aws (Examples.start Examples.empty_store)).
  - constructor.
  - reflexivity.
  - exists (ECode ErrUnauthorized). split; reflexivity.
Defined.

(** ** selectCredential *)





(** ** possibleControllers *)

Lemma swap_Permutation {A} (l : list A) i j : Ext.swap l i j ≡ₚ l.
Proof.
  unfold Ext.swap.
  destruct (l !! i) as [a |] eqn:Hi; [| reflexivity].
  destruct (l !! j) as [b |] eqn:Hj; [| reflexivity].
  eapply Permutation_insert_swap; eassumption.
Qed.

Lemma shuffle_from_Permutation {A} env i :
  forall (l : list A) w, fst (Ext.shuffle_from env i l w) ≡ₚ l.
Proof.
  induction i as [| i IH]; intros l w; simpl; [reflexivity |].
  run. rewrite IH. apply swap_Permutation.
Qed.

Lemma shuffle_Permutation {A} env (l : list A) w : fst (Ext.shuffle env l w) ≡ₚ l.
Proof. apply shuffle_from_Permutation. Qed.


(** C3.  With a controller path set (a non-empty name), the candidates
    are exactly that controller and nothing is asked of the store.
    Otherwise a list is returned only if the store served the (cloud,
    region) row and the caller's read check on that row passed, and the
    list is then a permutation of the row's primary controllers, or of
    its secondary controllers when it has no primary one; and whenever
    the row is served and the check passes, such a list is returned. *)
Theorem possibleControllers_candidates (env : Env) (ctlPath : EntityPath)
        (cloud : Cloud) (region : string) (w : World) :
  (Name ctlPath <> "" ->
   JEM.possibleControllers env ctlPath cloud region w = (Ok [ctlPath], w))
  /\ (Name ctlPath = "" ->
      forall l w',
        JEM.possibleControllers env ctlPath cloud region w = (Ok l, w') ->
        exists row,
          db_fault env (tick w) = None
          /\ region_row (store w) cloud region = Some row
          /\ acl_check env (S (tick w)) = None
          /\ l ≡ₚ preferred row)
  /\ (Name ctlPath = "" ->
      forall row,
        db_fault env (tick w) = None ->
        region_row (store w) cloud region = Some row ->
        acl_check env (S (tick w)) = None ->
        exists l w',
          JEM.possibleControllers env ctlPath cloud region w = (Ok l, w')
          /\ l ≡ₚ preferred row).
Proof.
  assert (Hpref : forall row,
             (if (length (PrimaryControllers row) =? 0)%nat
              then SecondaryControllers row else PrimaryControllers row)
             = preferred row).
  { intros row. unfold preferred. destruct (PrimaryControllers row); reflexivity. }
  split; [| split].
  - intros Hset. unfold JEM.possibleControllers.
    apply String.eqb_neq in Hset. rewrite Hset. reflexivity.
  - intros Hunset l w'. unfold JEM.possibleControllers, DB.CloudRegion, DB.lookup, region_row.
    rewrite Hunset. run.
    destruct (db_fault env (tick w)) as [e |]; run; [discriminate |].
    destruct (find _ (cloudregions (store w))) as [row |]; run; [| discriminate].
    destruct (acl_check env (S (tick w))) as [e |]; run; [discriminate |].
    rewrite Hpref.
    match goal with |- context [Ext.shuffle env ?c ?w0] =>
      pose proof (shuffle_Permutation env c w0) as Hperm;
      destruct (Ext.shuffle env c w0) as [l' w'']
    end.
    intros H; inversion H; subst.
    exists row. repeat split; try reflexivity. exact Hperm.
  - intros Hunset row Hdb Hrow Hacl.
    unfold JEM.possibleControllers, DB.CloudRegion, DB.lookup.
    unfold region_row in Hrow.
    rewrite Hunset. run. rewrite Hdb. run. rewrite Hrow. run. rewrite Hacl. run.
    rewrite Hpref.
    match goal with |- context [Ext.shuffle env ?c ?w0] =>
      pose proof (shuffle_Permutation env c w0) as Hperm;
      destruct (Ext.shuffle env c w0) as [l' w'']
    end.
    exists l', w''. split; [reflexivity | exact Hperm].
Qed.

Lemma possibleControllers_witness :
  exists l w',
    JEM.possibleControllers Examples.calm JEM.EntityPath_zero "aws" "eu-west-1"
                            (Examples.start Examples.one_region) = (Ok l, w')
    /\ l ≡ₚ [Examples.ctl1; Examples.ctl2; Examples.ctl3]
    /\ l = [Examples.ctl2; Examples.ctl3; Examples.ctl1].
Proof.
  destruct (possibleControllers_candidates
              Examples.calm JEM.EntityPath_zero "aws" "eu-west-1"
              (Examples.start Examples.one_region)) as (_ & _ & Hlist).
  destruct (Hlist eq_refl
                  (Examples.value
                     {| cr_Cloud := ""; cr_Region := ""; cr_ProviderType := "";
                        cr_ACL := {| Read := []; Write := []; Admin := [] |};
                        PrimaryControllers := [];
                        SecondaryControllers := [] |}
                     (DB.lookup "cloudregion"
                                (fun r => bool_decide (cr_Cloud r = "aws")
                                          && bool_decide (cr_Region r = "eu-west-1"))
                                (cloudregions Examples.one_region)))
                  eq_refl) as (l & w' & Hrun & Hperm).
  - vm_compute. reflexivity.
  - reflexivity.
  - exists l, w'. split; [exact Hrun |]. split; [exact Hperm |].
    vm_compute in Hrun. inversion Hrun. reflexivity.
Defined.

(** ** CreateModel *)

Lemma prefix_append (s x : string) : String.prefix s (s +:+ x) = true.
Proof.
  induction s as [| a s IH]; simpl; [destruct x; reflexivity |].
  destruct (Ascii.ascii_dec a a); [exact IH | congruence].
Qed.

Lemma prepare_reserved_doc env p w cred controllers doc0 w1 :
  JEM.prepare env p w = (Ok (cred, controllers, doc0), w1) ->
  exists now usage t,
    doc0 = JEM.reserved_doc p now (username env) usage (uuid_next env t) cred.
Proof.
  unfold JEM.prepare. run. intros H.
  repeat (case_match; try discriminate); simplify_eq; eauto.
Qed.

Lemma AddModel_inserted env doc0 w1 doc w2 :
  DB.AddModel env doc0 w1 = (Ok doc, w2) ->
  doc = DB.with_Id doc0 /\ doc ∈ models (store w2).
Proof.
  unfold DB.AddModel. run. intros H.
  repeat (case_match; try discriminate); simplify_eq.
  split; [reflexivity |]. simpl. apply elem_of_app. right. constructor.
Qed.

Lemma DeleteModel_removes env path w derr w' :
  DB.DeleteModel env path w = (derr, w') ->
  trace w' = trace w ++ [(DBDeleteModel path, derr)]
  /\ (derr = None -> Forall (fun m => Path m <> path) (models (store w'))).
Proof.
  unfold DB.DeleteModel. run. intros H.
  repeat (case_match; try discriminate); simplify_eq; simpl;
    (split; [reflexivity |]); try discriminate.
  intros _. apply Forall_forall. intros m Hm.
  apply list_elem_of_filter in Hm. destruct Hm as [Hm _].
  intros Hp. unfold DB.has_path in Hm.
  rewrite bool_decide_eq_true_2 in Hm by assumption. exact Hm.
Qed.

(** C1.  Take a run of [CreateModel] in which the preparation succeeds
    and the store inserts the reserved row.  The row has the path of the
    request and the UUID [creating-] followed by the hexadecimal form of
    what the generator produced, and it is in the store.  If the run
    then returns an error, the last call to the store before the return
    is [DeleteModel] on the path of the row; a failure of that call only
    adds a log entry, and when it succeeds no row with that path is left
    in the store.  The error returned is the one the steps after the
    reservation ended with, whatever the store answers to the delete,
    and a run that ends without an error makes no further call. *)
Theorem CreateModel_error_removes_reserved_row
        (env : Env) (p : JEM.CreateModelParams) (cred : option Credential)
        (controllers : list EntityPath) (doc0 doc : Model) (w w1 w2 : World) :
  JEM.prepare env p w = (Ok (cred, controllers, doc0), w1) ->
  DB.AddModel env doc0 w1 = (Ok doc, w2) ->
  (Path doc = JEM.p_Path p
   /\ (exists t, UUID doc = "creating-" +:+ Ext.hex (uuid_next env t))
   /\ String.prefix "creating-" (UUID doc) = true
   /\ doc ∈ models (store w2))
  /\ (forall e w',
         JEM.CreateModel env p w = (Err e, w') ->
         exists before derr,
           trace w'
           = before ++ (DBDeleteModel (Path doc), derr)
                    :: logged "error"
                              "cannot remove model from database after error; leaked model"
                              derr
           /\ (derr = None -> Forall (fun m => Path m <> Path doc) (models (store w'))))
  /\ (forall r w3,
         JEM.createReserved env p cred controllers doc w2 = (r, w3) ->
         match r with
         | Ok m => JEM.CreateModel env p w = (Ok m, w3)
         | Err e => exists w', JEM.CreateModel env p w = (Err e, w')
         end).
Proof.
  intros Hprep Hadd.
  destruct (prepare_reserved_doc _ _ _ _ _ _ _ Hprep) as (now & usage & t & ->).
  destruct (AddModel_inserted _ _ _ _ _ Hadd) as [-> Hin].
  split; [| split].
  - split; [reflexivity |]. split; [exists t; reflexivity |].
    split; [apply prefix_append | exact Hin].
  - intros e w'. unfold JEM.CreateModel, bind. rewrite Hprep, Hadd.
    generalize dependent (DB.with_Id
                            (JEM.reserved_doc p now (username env) usage
                                              (uuid_next env t) cred)).
    intros doc _ _.
    destruct (JEM.createReserved env p cred controllers doc w2) as [r w3].
    destruct r as [m | e']; unfold JEM.removeOnError, bind, ret; [discriminate |].
    destruct (DB.DeleteModel env (Path doc) w3) as [derr w4] eqn:Hdel.
    apply DeleteModel_removes in Hdel. destruct Hdel as [Htrace Hgone].
    destruct derr as [de |]; run; intros H; inversion H; subst; simpl.
    + exists (trace w3), (Some de). split; [| discriminate].
      rewrite Htrace, <- app_assoc. reflexivity.
    + exists (trace w3), None. split; [| exact Hgone].
      rewrite Htrace. reflexivity.
  - intros r w3 Hbody. unfold JEM.CreateModel, bind.
    rewrite Hprep, Hadd, Hbody.
    destruct r as [m | e]; unfold JEM.removeOnError, bind, ret; [reflexivity |].
    destruct (DB.DeleteModel env _ w3) as [[de |] w4]; run; eexists; reflexivity.
Qed.

Lemma CreateModel_error_witness :
  exists e w',
    JEM.CreateModel Examples.calm Examples.request
                    (Examples.start Examples.three_credentials) = (Err e, w')
    /\ (exists before,
           trace w' = before ++ [(DBDeleteModel (JEM.p_Path Examples.request), None)])
    /\ models (store w') = [].
Proof.
  set (w := Examples.start Examples.three_credentials).
  set (prep := JEM.prepare Examples.calm Examples.request w).
  set (doc0 := snd (Examples.value (None, [], Examples.model "" "" "") (fst prep))).
  set (add := DB.AddModel Examples.calm doc0 (snd prep)).
  set (doc := Examples.value doc0 (fst add)).
  destruct (CreateModel_error_removes_reserved_row
              Examples.calm Examples.request
              (Some (Examples.credential Examples.alice_aws [Examples.ctl1]))
              [JEM.p_ControllerPath Examples.request]
              doc0 doc w (snd prep) (snd add)) as (_ & Herr & _).
  - vm_compute. reflexivity.
  - vm_compute. reflexivity.
  - set (run := JEM.CreateModel Examples.calm Examples.request w).
    destruct (Herr (Examples.failure (fst run)) (snd run)) as (before & derr & Ht & Hgone).
    + vm_compute. reflexivity.
    + exists (Examples.failure (fst run)), (snd run).
      split; [vm_compute; reflexivity |].
      split; [| vm_compute; reflexivity].
      assert (Hd : derr = None).
      { vm_compute in Ht.
        apply (f_equal (@rev _)) in Ht. rewrite rev_app_distr in Ht.
        destruct derr; simpl in Ht; inversion Ht; reflexivity. }
      subst derr. exists before. exact Ht.
Defined.

(** ** The lease sweep *)

Section SweepFacts.
Variable Clock_Now : nat -> Time.
Variable acquireLease : nat -> EntityPath -> Time -> string -> string -> result Time.

Local Abbreviation sweep := (monitor.sweep Clock_Now acquireLease).

Lemma is_monitoring_step s m p :
  monitor.is_monitoring (monitor.step s m) p = monitor.is_monitoring m p.
Proof. reflexivity. Qed.

Lemma is_monitoring_set m p q :
  monitor.is_monitoring (monitor.set_monitoring p m) q
  = if decide (p = q) then true else monitor.is_monitoring m q.
Proof.
  unfold monitor.is_monitoring, monitor.set_monitoring; simpl.
  rewrite lookup_insert. destruct (decide (p = q)); reflexivity.
Qed.


Lemma sweep_post_refl ctls m : sweep_post ctls m m.
Proof.
  split; [reflexivity |]. split; [auto |].
  exists []. rewrite app_nil_r. split; [reflexivity |].
  split; intros; contradiction.
Qed.

(** One controller handled with the steps [evs], then the rest. *)
Lemma sweep_post_cons ctl rest m m1 m' evs :
  monitor.ownerId m1 = monitor.ownerId m ->
  (forall p, monitor.is_monitoring m p = true -> monitor.is_monitoring m1 p = true) ->
  monitor.steps m1 = monitor.steps m ++ evs ->
  (forall p e o n,
      In (monitor.AcquireLease p e o n) evs ->
      monitor.is_monitoring m p = false
      /\ n = monitor.ownerId m /\ p = ctl_Path ctl
      /\ e = MonitorLeaseExpiry ctl /\ o = MonitorLeaseOwner ctl) ->
  (forall p o x,
      In (monitor.StartControllerMonitor p o x) evs ->
      monitor.is_monitoring m1 p = true
      /\ exists e o', In (monitor.AcquireLease p e o' o) evs) ->
  sweep_post rest m1 m' ->
  sweep_post (ctl :: rest) m m'.
Proof.
  intros Hown Hmono Hsteps Hacq Hstart (Hown' & Hmono' & new & Hnew & Hacq' & Hstart').
  split; [congruence |]. split; [auto |].
  exists (evs ++ new). split; [rewrite Hnew, Hsteps, app_assoc; reflexivity |].
  split.
  - intros p e o n Hin. apply in_app_or in Hin. destruct Hin as [Hin | Hin].
    + destruct (Hacq _ _ _ _ Hin) as (Hnot & -> & -> & -> & ->).
      split; [exact Hnot |]. split; [reflexivity |].
      exists ctl. split; [left; reflexivity | auto].
    + destruct (Hacq' _ _ _ _ Hin) as (Hnot & -> & c & Hc & Hrest).
      split.
      { destruct (monitor.is_monitoring m p) eqn:Hp; [| reflexivity].
        rewrite (Hmono _ Hp) in Hnot. discriminate. }
      split; [exact Hown |]. exists c. split; [right; exact Hc | exact Hrest].
  - intros p o x Hin. apply in_app_or in Hin. destruct Hin as [Hin | Hin].
    + destruct (Hstart _ _ _ Hin) as (Hmon & e & o' & He).
      split; [auto |]. exists e, o'. apply in_or_app. left. exact He.
    + destruct (Hstart' _ _ _ Hin) as (Hmon & e & o' & He).
      split; [exact Hmon |]. exists e, o'. apply in_or_app. right. exact He.
Qed.

Lemma sweep_sound ctls :
  forall m err m', sweep ctls m = (err, m') -> sweep_post ctls m m'.
Proof.
  induction ctls as [| ctl rest IH]; intros m err m' H; simpl in H.
  - inversion H; subst. apply sweep_post_refl.
  - destruct (monitor.is_monitoring m (ctl_Path ctl)) eqn:Hmon.
    { apply IH in H.
      eapply (sweep_post_cons ctl rest m _ m' [monitor.Log "debug" (ctl_Path ctl)]);
        try exact H; try reflexivity; auto.
      - intros p e o n [Hin | []]; discriminate.
      - intros p o x [Hin | []]; discriminate. }
    set (other := negb (String.eqb (MonitorLeaseOwner ctl) (monitor.ownerId m))) in *.
    set (m1 := if other then monitor.step monitor.ClockNow m else m) in *.
    assert (Hm1 : monitor.ownerId m1 = monitor.ownerId m
                  /\ monitor.monitoring m1 = monitor.monitoring m
                  /\ monitor.steps m1
                     = monitor.steps m ++ (if other then [monitor.ClockNow] else [])).
    { subst m1. destruct other; simpl; rewrite ?app_nil_r; auto. }
    destruct Hm1 as (Hown1 & Hmon1 & Hsteps1).
    destruct (other && monitor.Before (Clock_Now (monitor.mtick m)) (MonitorLeaseExpiry ctl)).
    { apply IH in H.
      eapply (sweep_post_cons ctl rest m m1 m'); try exact H; try exact Hsteps1; auto.
      - intros p. unfold monitor.is_monitoring. rewrite Hmon1. auto.
      - intros p e o n Hin. destruct other; simpl in Hin; intuition discriminate.
      - intros p o x Hin. destruct other; simpl in Hin; intuition discriminate. }
    set (attempt := monitor.AcquireLease (ctl_Path ctl) (MonitorLeaseExpiry ctl)
                                         (MonitorLeaseOwner ctl) (monitor.ownerId m)) in *.
    destruct (acquireLease (monitor.mtick m1) (ctl_Path ctl) (MonitorLeaseExpiry ctl)
                           (MonitorLeaseOwner ctl) (monitor.ownerId m)) as [newExpiry | e].
    + apply IH in H.
      eapply (sweep_post_cons ctl rest m _ m'
                ((if other then [monitor.ClockNow] else [])
                   ++ [attempt;
                       monitor.StartControllerMonitor (ctl_Path ctl) (monitor.ownerId m)
                                                      newExpiry]));
        try exact H.
      * simpl. exact Hown1.
      * intros p Hp. rewrite is_monitoring_step, is_monitoring_set.
        destruct (decide (ctl_Path ctl = p)); [reflexivity |].
        rewrite is_monitoring_step. unfold monitor.is_monitoring.
        rewrite Hmon1. exact Hp.
      * simpl. rewrite Hsteps1, <- !app_assoc. reflexivity.
      * intros p e o n Hin. apply in_app_or in Hin. destruct Hin as [Hin | Hin].
        { destruct other; simpl in Hin; intuition discriminate. }
        destruct Hin as [Hin | [Hin | []]]; [| discriminate].
        inversion Hin; subst. auto.
      * intros p o x Hin. apply in_app_or in Hin. destruct Hin as [Hin | Hin].
        { destruct other; simpl in Hin; intuition discriminate. }
        destruct Hin as [Hin | [Hin | []]]; [discriminate |].
        inversion Hin; subst. split.
        { rewrite is_monitoring_step, is_monitoring_set.
          destruct (decide (ctl_Path ctl = ctl_Path ctl)); [reflexivity | congruence]. }
        exists (MonitorLeaseExpiry ctl), (MonitorLeaseOwner ctl).
        apply in_or_app. right. left. reflexivity.
    + match type of H with (if ?c then _ else _) = _ => destruct c end.
      * apply IH in H.
        eapply (sweep_post_cons ctl rest m _ m'
                  ((if other then [monitor.ClockNow] else [])
                     ++ [attempt; monitor.Log "info" (ctl_Path ctl)]));
          try exact H.
        -- simpl. exact Hown1.
        -- intros p Hp. rewrite !is_monitoring_step. unfold monitor.is_monitoring.
           rewrite Hmon1. exact Hp.
        -- simpl. rewrite Hsteps1, <- !app_assoc. reflexivity.
        -- intros p e0 o n Hin. apply in_app_or in Hin. destruct Hin as [Hin | Hin].
           { destruct other; simpl in Hin; intuition discriminate. }
           destruct Hin as [Hin | [Hin | []]]; [| discriminate].
           inversion Hin; subst. auto.
        -- intros p o x Hin. apply in_app_or in Hin. destruct Hin as [Hin | Hin].
           { destruct other; simpl in Hin; intuition discriminate. }
           destruct Hin as [Hin | [Hin | []]]; discriminate.
      * inversion H; subst.
        eapply (sweep_post_cons ctl rest m _ _
                  ((if other then [monitor.ClockNow] else []) ++ [attempt]));
          [| | | | | apply sweep_post_refl].
        -- simpl. exact Hown1.
        -- intros p Hp. rewrite is_monitoring_step. unfold monitor.is_monitoring.
           rewrite Hmon1. exact Hp.
        -- simpl. rewrite Hsteps1, <- !app_assoc. reflexivity.
        -- intros p e0 o n Hin. apply in_app_or in Hin. destruct Hin as [Hin | Hin].
           { destruct other; simpl in Hin; intuition discriminate. }
           destruct Hin as [Hin | []]. inversion Hin; subst. auto.
        -- intros p o x Hin. apply in_app_or in Hin. destruct Hin as [Hin | Hin].
           { destruct other; simpl in Hin; intuition discriminate. }
           destruct Hin as [Hin | []]. discriminate.
Qed.

End SweepFacts.



(** ** UpdateCredential *)

(** An iteration of the [select] that observes the context being done
    changes nothing: the loop goes round again. *)
Lemma waitPushes_ignores_CtxDone env c path k sched n running w :
  JEM.waitPushes env c path (repeat JEM.CtxDone k ++ sched) n running w
  = JEM.waitPushes env c path sched n running w.
Proof.
  induction k as [| k IH]; simpl; [reflexivity |].
  destruct n as [| n]; [| exact IH].
  destruct sched; reflexivity.
Qed.

(** The loop ends only when every goroutine has reported: a schedule
    that lets it end delivers at least [n] reports. *)
Lemma waitPushes_needs_every_report env c path sched :
  forall n running w w',
    JEM.waitPushes env c path sched n running w = (Some tt, w') ->
    n <= reports sched.
Proof.
  induction sched as [| s sched IH]; intros n running w w' H.
  - destruct n; simpl in *; [lia | discriminate].
  - destruct n as [| n]; [simpl; lia |].
    destruct s; simpl in H |- *.
    + unfold bind in H.
      destruct (match running with
                | ctlPath :: _ => JEM.push env c path ctlPath
                | [] => ret tt
                end w) as [[] w1].
      apply IH in H. lia.
    + apply IH in H. exact H.
Qed.

(** Failures of the pushes are not surfaced: when the local update and
    the re-read of the credential succeed, a call that returns returns
    nil. *)
Lemma UpdateCredential_push_failures_not_surfaced env sched cred w w1 c w2 r w' :
  DB.updateCredential env cred w = (None, w1) ->
  DB.Credential env (cred_Path cred) w1 = (Ok c, w2) ->
  JEM.UpdateCredential env sched cred w = (Some r, w') ->
  r = None.
Proof.
  intros Hupd Hget. unfold JEM.UpdateCredential, bind. rewrite Hupd, Hget.
  intros Hr.
  repeat (case_match; try discriminate); unfold ret in Hr; inversion Hr; reflexivity.
Qed.

(** Once the local update and the re-read have succeeded, whether the
    call has returned is decided by the loop alone. *)
Lemma UpdateCredential_returns_with_loop env sched cred w w1 c w2 :
  DB.updateCredential env cred w = (None, w1) ->
  DB.Credential env (cred_Path cred) w1 = (Ok c, w2) ->
  exists w3,
    fst (JEM.UpdateCredential env sched cred w)
    = match fst (JEM.waitPushes env c (cred_Path cred) sched
                                (length (cred_Controllers c)) (cred_Controllers c) w3) with
      | Some _ => Some None
      | None => None
      end.
Proof.
  intros Hupd Hget. unfold JEM.UpdateCredential, bind. rewrite Hupd, Hget.
  destruct (DB.setCredentialUpdates env (cred_Controllers cred) (cred_Path cred) w2)
    as [serr w3].
  destruct serr as [e |].
  - destruct (Ext.log "error" "cannot update controllers with updated credential" w3)
      as [[] w4].
    exists w4. simpl.
    destruct (JEM.waitPushes env c (cred_Path cred) sched _ (cred_Controllers c) w4)
      as [[[] |] w5]; reflexivity.
  - unfold ret. exists w3. simpl.
    destruct (JEM.waitPushes env c (cred_Path cred) sched _ (cred_Controllers c) w3)
      as [[[] |] w5]; reflexivity.
Qed.

(** A call that returns after the local update and the re-read have
    succeeded has received a report from every goroutine: observing the
    cancelled context, however often, does not make it return. *)
Lemma UpdateCredential_returns_after_every_report env sched cred w w1 c w2 r w' :
  DB.updateCredential env cred w = (None, w1) ->
  DB.Credential env (cred_Path cred) w1 = (Ok c, w2) ->
  JEM.UpdateCredential env sched cred w = (Some r, w') ->
  length (cred_Controllers c) <= reports sched.
Proof.
  intros Hupd Hget. unfold JEM.UpdateCredential, bind. rewrite Hupd, Hget.
  destruct (DB.setCredentialUpdates env (cred_Controllers cred) (cred_Path cred) w2)
    as [serr w3].
  match goal with
  | |- context [JEM.waitPushes env c ?p sched ?n ?run] =>
      assert (Hwait : forall w0 w0',
                 JEM.waitPushes env c p sched n run w0 = (Some tt, w0') ->
                 n <= reports sched)
        by (intros w0 w0'; apply waitPushes_needs_every_report)
  end.
  destruct serr as [e |].
  - destruct (Ext.log "error" "cannot update controllers with updated credential" w3)
      as [[] w4].
    destruct (JEM.waitPushes env c _ sched _ _ w4) as [[[] |] w5] eqn:Hw;
      [intros _; exact (Hwait _ _ Hw) | discriminate].
  - unfold ret.
    destruct (JEM.waitPushes env c _ sched _ _ w3) as [[[] |] w5] eqn:Hw;
      [intros _; exact (Hwait _ _ Hw) | discriminate].
Qed.

(** C4.  A credential deployed to one controller is updated; the local
    update and the re-read succeed.  While the push to the controller
    has not reported, the [select] observes the cancelled context again
    and again, and the call has still not returned, however often that
    is; it returns, with nil, once the push reports.  The call therefore
    does not return when the context is cancelled. *)
Theorem UpdateCredential_does_not_return_on_cancel (k : nat) :
  let cred := Examples.credential Examples.alice_aws [Examples.ctl1] in
  let w := Examples.start Examples.three_credentials in
  fst (JEM.UpdateCredential Examples.calm (repeat JEM.CtxDone k) cred w) = None
  /\ fst (JEM.UpdateCredential Examples.calm (repeat JEM.CtxDone k ++ [JEM.RecvCh]) cred w)
     = Some None.
Proof.
  intros cred w.
  set (upd := DB.updateCredential Examples.calm cred w).
  set (get := DB.Credential Examples.calm (cred_Path cred) (snd upd)).
  assert (Hupd : upd = (None, snd upd)) by (vm_compute; reflexivity).
  assert (Hget : get = (Ok cred, snd get)) by (vm_compute; reflexivity).
  split.
  - destruct (UpdateCredential_returns_with_loop
                Examples.calm (repeat JEM.CtxDone k) cred w _ _ _ Hupd Hget) as [w3 ->].
    rewrite <- (app_nil_r (repeat JEM.CtxDone k)), waitPushes_ignores_CtxDone.
    reflexivity.
  - destruct (UpdateCredential_returns_with_loop
                Examples.calm (repeat JEM.CtxDone k ++ [JEM.RecvCh]) cred w _ _ _ Hupd Hget)
      as [w3 ->].
    rewrite waitPushes_ignores_CtxDone. simpl. unfold bind.
    destruct (JEM.push _ _ _ _ w3) as [[] w4]. reflexivity.
Qed.

(* ===================================================================== *)
(** * Further properties: the pool                                        *)
(* ===================================================================== *)

Lemma open_jems_app (l : list bool) b :
  length (filter (fun c => negb c) (l ++ [b]))
  = length (filter (fun c => negb c) l) + (if b then 0 else 1).
Proof.
  rewrite filter_app, length_app. destruct b; reflexivity.
Qed.

Lemma open_filter_close (l : list bool) j :
  l !! j = Some false ->
  S (length (filter (fun c => negb c) (<[j := true]> l)))
  = length (filter (fun c => negb c) l).
Proof.
  revert j. induction l as [| b l IH]; intros [| j] H; simpl in *; try discriminate.
  - injection H as ->. rewrite filter_cons_False by (simpl; tauto).
    rewrite filter_cons_True by (simpl; exact I). reflexivity.
  - specialize (IH _ H). destruct b.
    + rewrite !filter_cons_False by (simpl; tauto). exact IH.
    + rewrite !filter_cons_True by (simpl; exact I). simpl. now rewrite IH.
Qed.

Lemma open_filter_pos (l : list bool) j :
  l !! j = Some false -> 0 < length (filter (fun c => negb c) l).
Proof.
  intros H. rewrite <- (open_filter_close l j H). lia.
Qed.

Lemma pool_balanced_step st o st' :
  pool_balanced st -> pool.step st o = Some st' -> pool_balanced st'.
Proof.
  unfold pool_balanced, open_jems.
  destruct st as [[db c n k] l]. simpl. intros [Hn Hk] Hs.
  destruct o as [| | j | j]; simpl in Hs.
  - unfold pool.Close, pool.decRef in Hs. simpl in Hs.
    destruct c; [injection Hs as <-; simpl; auto |].
    destruct (n - 1 <? 0)%Z eqn:Hneg; [discriminate |].
    injection Hs as <-. simpl.
    apply Z.ltb_ge in Hneg.
    destruct (n =? 0)%Z eqn:H0; [apply Z.eqb_eq in H0; lia |].
    split; [lia |]. repeat case_match; lia.
  - unfold pool.JEM in Hs. simpl in Hs.
    destruct c; [discriminate |]. injection Hs as <-. simpl.
    rewrite open_jems_app.
    split; [lia |]. repeat case_match; lia.
  - unfold pool.Clone in Hs. simpl in Hs.
    destruct (l !! j) as [[|] |] eqn:Hj; try discriminate.
    injection Hs as <-. simpl. rewrite open_jems_app.
    pose proof (open_filter_pos l j Hj).
    split; [lia |]. repeat case_match; lia.
  - unfold pool.JEM_Close, pool.decRef in Hs. simpl in Hs.
    destruct (l !! j) as [[|] |] eqn:Hj; try discriminate.
    + injection Hs as <-. simpl. auto.
    + destruct (n - 1 <? 0)%Z eqn:Hneg; [discriminate |].
      injection Hs as <-. simpl.
      pose proof (open_filter_close l j Hj).
      split; [lia |]. repeat case_match; lia.
Qed.

Lemma pool_balanced_run ops : forall st st',
  pool_balanced st -> pool.run ops st = Some st' -> pool_balanced st'.
Proof.
  induction ops as [| o ops IH]; simpl; intros st st' Hb Hr.
  - now injection Hr as <-.
  - destruct (pool.step st o) as [st1 |] eqn:Hs; [| discriminate].
    eapply IH; [| exact Hr]. eapply pool_balanced_step; eauto.
Qed.

Lemma NewPool_balanced p a st :
  pool.NewPool p a = Some (Ok st) -> pool_balanced st.
Proof.
  unfold pool.NewPool. intros H.
  repeat (case_match; try discriminate); simplify_eq;
    vm_compute in *; simplify_eq; vm_compute; auto.
Qed.

(** X1.  Whatever the holders of a pool made by [NewPool] do with it,
    as long as none of it panics: the reference count is one for the
    pool while it is open plus one for every open instance, and the
    connection cache has been closed at most once, namely exactly when
    the pool and all its instances are closed. *)
Theorem pool_reference_count p a st0 ops st :
  pool.NewPool p a = Some (Ok st0) ->
  pool.run ops st0 = Some st ->
  pool.refCount (pool.the_pool st)
  = ((if pool.closed (pool.the_pool st) then 0 else 1) + Z.of_nat (open_jems st))%Z
  /\ pool.cacheCloses (pool.the_pool st) <= 1
  /\ (pool.cacheCloses (pool.the_pool st) = 1
      <-> pool.closed (pool.the_pool st) = true /\ open_jems st = 0).
Proof.
  intros H0 Hr.
  destruct (pool_balanced_run ops st0 st (NewPool_balanced _ _ _ H0) Hr) as [Hn Hk].
  split; [exact Hn |]. rewrite Hk.
  destruct (pool.closed (pool.the_pool st));
    destruct (pool.refCount (pool.the_pool st) =? 0)%Z eqn:Hz;
    [apply Z.eqb_eq in Hz | apply Z.eqb_neq in Hz
    | apply Z.eqb_eq in Hz | apply Z.eqb_neq in Hz];
    repeat split; try lia; try tauto; try (intros [? ?]; try discriminate; lia).
Qed.

Lemma pool_reference_count_witness :
  let p := {| pool.DB := Some {| pool.db_Name := "jem" |};
              pool.ControllerAdmin := "admin"; pool.SessionPool := true;
              pool.UsageSenderURL := "" |} in
  let a := {| pool.newGenerator := None; pool.newUsageClient := None;
              pool.ensureIndexes := None |} in
  let ops := [pool.DoJEM; pool.DoClone 1; pool.DoClose; pool.DoJEMClose 1;
              pool.DoJEMClose 2; pool.DoJEMClose 1] in
  let st0 := {| pool.the_pool := {| pool.dbName := "jem"; pool.closed := false;
                                    pool.refCount := 1;
                                    pool.cacheCloses := 0 |};
                pool.jems := [true] |} in
  let st := {| pool.the_pool := {| pool.dbName := "jem"; pool.closed := true;
                                   pool.refCount := 0;
                                   pool.cacheCloses := 1 |};
               pool.jems := [true; true; true] |} in
  pool.NewPool p a = Some (Ok st0) /\ pool.run ops st0 = Some st
  /\ pool.cacheCloses (pool.the_pool st) = 1.
Proof.
  intros p a ops st0 st.
  assert (H0 : pool.NewPool p a = Some (Ok st0)) by reflexivity.
  assert (Hr : pool.run ops st0 = Some st) by reflexivity.
  split; [exact H0 |]. split; [exact Hr |].
  apply (proj2 (proj2 (proj2 (pool_reference_count p a st0 ops st H0 Hr)))).
  split; reflexivity.
Defined.

(** X2.  On a pool made by [NewPool], the panic "negative reference
    count" cannot be reached: an operation panics only when it asks a
    closed pool for an instance, or names an instance that was never
    made, or clones a closed one.  In particular closing the pool and
    closing an instance never panic, however often they are repeated. *)
Theorem pool_no_negative_reference_count p a st0 ops st o :
  pool.NewPool p a = Some (Ok st0) ->
  pool.run ops st0 = Some st ->
  pool.step st o = None ->
  (o = pool.DoJEM /\ pool.closed (pool.the_pool st) = true)
  \/ (exists j, o = pool.DoClone j /\ pool.jems st !! j <> Some false)
  \/ (exists j, o = pool.DoJEMClose j /\ pool.jems st !! j = None).
Proof.
  intros H0 Hr Hs.
  destruct (pool_balanced_run ops st0 st (NewPool_balanced _ _ _ H0) Hr) as [Hn Hk].
  unfold open_jems in Hn.
  destruct st as [[db c n k] l]. simpl in *.
  destruct o as [| | j | j]; simpl in Hs.
  - exfalso. unfold pool.Close, pool.decRef in Hs. simpl in Hs.
    destruct c; [discriminate |].
    destruct (n - 1 <? 0)%Z eqn:Hneg; [| discriminate].
    apply Z.ltb_lt in Hneg. lia.
  - left. unfold pool.JEM in Hs. simpl in Hs. destruct c; [auto | discriminate].
  - right; left. exists j. split; [reflexivity |].
    unfold pool.Clone in Hs. simpl in Hs.
    destruct (l !! j) as [[|] |]; try discriminate; congruence.
  - right; right. exists j. split; [reflexivity |].
    unfold pool.JEM_Close, pool.decRef in Hs. simpl in Hs.
    destruct (l !! j) as [[|] |] eqn:Hj; try discriminate; [| reflexivity].
    exfalso. destruct (n - 1 <? 0)%Z eqn:Hneg; [| discriminate].
    apply Z.ltb_lt in Hneg. pose proof (open_filter_pos l j Hj).
    destruct c; lia.
Qed.

Lemma pool_no_negative_reference_count_witness :
  let p := {| pool.DB := Some {| pool.db_Name := "jem" |};
              pool.ControllerAdmin := "admin"; pool.SessionPool := true;
              pool.UsageSenderURL := "" |} in
  let a := {| pool.newGenerator := None; pool.newUsageClient := None;
              pool.ensureIndexes := None |} in
  let st0 := {| pool.the_pool := {| pool.dbName := "jem"; pool.closed := false;
                                    pool.refCount := 1;
                                    pool.cacheCloses := 0 |};
                pool.jems := [true] |} in
  let st := {| pool.the_pool := {| pool.dbName := "jem"; pool.closed := true;
                                   pool.refCount := 1;
                                   pool.cacheCloses := 0 |};
               pool.jems := [true; false] |} in
  pool.NewPool p a = Some (Ok st0)
  /\ pool.run [pool.DoJEM; pool.DoClose] st0 = Some st
  /\ pool.step st pool.DoJEM = None
  /\ pool.closed (pool.the_pool st) = true.
Proof.
  intros p a st0 st.
  assert (H0 : pool.NewPool p a = Some (Ok st0)) by reflexivity.
  assert (Hr : pool.run [pool.DoJEM; pool.DoClose] st0 = Some st) by reflexivity.
  assert (Hs : pool.step st pool.DoJEM = None) by reflexivity.
  split; [exact H0 |]. split; [exact Hr |]. split; [exact Hs |].
  destruct (pool_no_negative_reference_count p a st0 _ st _ H0 Hr Hs)
    as [[_ Hc] | [[j [Hj _]] | [j [Hj _]]]]; [exact Hc | discriminate | discriminate].
Defined.

(* ===================================================================== *)
(** * Further properties: the update builder                              *)
(* ===================================================================== *)

Lemma record_from {V} (ops : list (jimmdb.Op V)) : forall u,
  jimmdb.AddToSet_ (jimmdb.record ops u) = jimmdb.AddToSet_ u ++ adds ops
  /\ jimmdb.Pull_ (jimmdb.record ops u) = jimmdb.Pull_ u ++ pulls ops
  /\ (forall f, set_to (jimmdb.record ops u) f
                = match last_set f ops with
                  | Some v => Some v
                  | None => set_to u f
                  end)
  /\ (jimmdb.Set_ (jimmdb.record ops u) = None
      <-> jimmdb.Set_ u = None /\ sets ops = false).
Proof.
  induction ops as [| o ops IH]; intros u.
  - simpl. rewrite !app_nil_r. repeat split; tauto.
  - change (jimmdb.record (o :: ops) u) with (jimmdb.record ops (jimmdb.apply u o)).
    destruct (IH (jimmdb.apply u o)) as (Ha & Hp & Hs & Hn).
    rewrite Ha, Hp. split; [| split; [| split]].
    + destruct o; simpl; rewrite <- ?app_assoc; reflexivity.
    + destruct o; simpl; rewrite <- ?app_assoc; reflexivity.
    + intros f. rewrite Hs. simpl. destruct (last_set f ops); [reflexivity |].
      destruct o as [g v | g v | g v]; try reflexivity.
      unfold set_to. simpl.
      destruct (String.eqb_spec g f) as [-> | Hne].
      * now rewrite lookup_insert_eq.
      * rewrite lookup_insert_ne by exact Hne.
        destruct (jimmdb.Set_ u); [reflexivity | apply lookup_empty].
    + rewrite Hn. destruct o; simpl; try tauto.
      split; [intros [H _]; discriminate | intros [_ H]; discriminate].
Qed.

(** X3.  What a run of builder calls on a fresh update leaves in it:
    the [$addToSet] and [$pull] documents list the calls in call order,
    repeated ones included; the [$set] document holds for every field
    the value of the last [Set] call on it; and the map is still nil
    exactly when [Set] was never called. *)
Theorem Update_record_contents {V} (ops : list (jimmdb.Op V)) :
  let u := jimmdb.record ops jimmdb.zero in
  jimmdb.AddToSet_ u = adds ops
  /\ jimmdb.Pull_ u = pulls ops
  /\ (forall f, set_to u f = last_set f ops)
  /\ (jimmdb.Set_ u = None <-> sets ops = false).
Proof.
  destruct (record_from ops jimmdb.zero) as (Ha & Hp & Hs & Hn).
  simpl. split; [exact Ha |]. split; [exact Hp |]. split.
  - intros f. rewrite Hs. destruct (last_set f ops); reflexivity.
  - rewrite Hn. simpl. tauto.
Qed.

(* ===================================================================== *)
(** * Further properties: dispatch and the facade constructors            *)
(* ===================================================================== *)

Lemma unauthenticatedFacades_lookup root v :
  jujuapi.unauthenticatedFacades !! (root, v)
  = if decide (("Admin", 3%Z) = (root, v)) then Some "Admin"
    else if decide (("Pinger", 1%Z) = (root, v)) then Some "Pinger"
    else None.
Proof.
  unfold jujuapi.unauthenticatedFacades. simpl.
  rewrite !lookup_insert. repeat case_match; try reflexivity; apply lookup_empty.
Qed.

Lemma facades_no_Admin v : jujuapi.facades !! ("Admin", v) = None.
Proof.
  apply not_elem_of_list_to_map_1. simpl.
  rewrite !elem_of_cons, elem_of_nil. intuition discriminate.
Qed.

(** X4.  Before login a request reaches a method of the root exactly
    when it names [Admin] version 3 or [Pinger] version 1; every other
    request is answered with an error.  After login no request for
    [Admin], at whatever version, reaches a method of the root: the
    login facade is not in the table of an authenticated connection. *)
Theorem FindMethod_before_and_after_login (MethodCaller : Type)
        (findMethod : string -> Z -> string -> result MethodCaller)
        (rootName : string) (version : Z) (methodName : string) :
  (reaches_root (snd (jujuapi.FindMethod MethodCaller findMethod jujuapi.Unauthenticated
                                         rootName version methodName)) = true
   <-> (rootName = "Admin" /\ version = 3%Z) \/ (rootName = "Pinger" /\ version = 1%Z))
  /\ (reaches_root (snd (jujuapi.FindMethod MethodCaller findMethod jujuapi.Unauthenticated
                                            rootName version methodName)) = false ->
      exists e, fst (jujuapi.FindMethod MethodCaller findMethod jujuapi.Unauthenticated
                                        rootName version methodName) = Err e)
  /\ (rootName = "Admin" ->
      reaches_root (snd (jujuapi.FindMethod MethodCaller findMethod jujuapi.Authenticated
                                            rootName version methodName)) = false
      /\ exists e, fst (jujuapi.FindMethod MethodCaller findMethod jujuapi.Authenticated
                                           rootName version methodName) = Err e).
Proof.
  unfold jujuapi.FindMethod. simpl jujuapi.facades_of.
  rewrite unauthenticatedFacades_lookup.
  split; [| split].
  - destruct (String.eqb_spec rootName "Admin") as [-> | Hroot]; simpl;
      [destruct (version <? 3)%Z eqn:Hv; simpl;
       [apply Z.ltb_lt in Hv | apply Z.ltb_ge in Hv] |];
      repeat case_match; simplify_eq; simpl; (split; intros Hx);
      try discriminate; try reflexivity; auto;
      try (destruct Hx as [[? ?] | [? ?]]; simplify_eq; try congruence; try lia);
      repeat match goal with Hd : decide _ = _ |- _ => clear Hd end;
      simplify_eq; auto.
  - destruct (String.eqb rootName "Admin" && (version <? 3)%Z); simpl; [eauto |].
    repeat case_match; simplify_eq; simpl; try discriminate; eauto.
  - intros ->. rewrite facades_no_Admin. simpl.
    destruct (version <? 3)%Z; simpl; eauto.
Qed.

(** X5.  The facade constructors and the id they are given.  With the
    empty id [Admin], [ControllerV3] to [ControllerV8], [JIMMV2],
    [Pinger] and [UserManager] return their facade (the Controller
    facades the whole chain of embedded versions), and [ControllerV9]
    does once its generator is made, so the calls that mask the error
    of the version below are never reached with an error.  With any
    other id, [Admin], [ControllerV3] to [ControllerV8], [JIMMV2],
    [Pinger] and [UserManager] return [common.ErrBadId] itself, whereas
    [ControllerV9], which has no check of its own, returns an error
    that neither is [ErrBadId] nor has it as its cause. *)
Theorem facade_constructors_id (id : string) (newGenerator : option error) :
  (id = "" ->
   controllerroot.Admin id = Ok controllerroot.an_admin
   /\ controllerroot.ControllerV8 id
      = Ok (controllerroot.a_controllerV8
              (controllerroot.a_controllerV7
                 (controllerroot.a_controllerV6
                    (controllerroot.a_controllerV5
                       (controllerroot.a_controllerV4 controllerroot.a_controllerV3)))))
   /\ controllerroot.JIMMV2 id = Ok controllerroot.a_jimmV2
   /\ controllerroot.Pinger id = Ok controllerroot.a_pinger
   /\ controllerroot.UserManager id = Ok controllerroot.a_userManager
   /\ (newGenerator = None ->
       exists v8, controllerroot.ControllerV8 id = Ok v8
                  /\ controllerroot.ControllerV9 newGenerator id
                     = Ok (controllerroot.a_controllerV9 v8)))
  /\ (id <> "" ->
      Forall (fun r => r = Err controllerroot.ErrBadId)
             [controllerroot.Admin id; controllerroot.ControllerV3 id;
              controllerroot.ControllerV4 id; controllerroot.ControllerV5 id;
              controllerroot.ControllerV6 id; controllerroot.ControllerV7 id;
              controllerroot.ControllerV8 id; controllerroot.JIMMV2 id;
              controllerroot.Pinger id; controllerroot.UserManager id]
      /\ exists e, controllerroot.ControllerV9 newGenerator id = Err e
                   /\ e <> controllerroot.ErrBadId
                   /\ Cause e <> controllerroot.ErrBadId).
Proof.
  split.
  - intros ->. repeat split. intros ->. eexists. split; reflexivity.
  - intros Hid.
    assert (Hne : negb (String.eqb id "") = true)
      by (destruct (String.eqb_spec id ""); [contradiction | reflexivity]).
    unfold controllerroot.ControllerV9, controllerroot.ControllerV8,
      controllerroot.ControllerV7, controllerroot.ControllerV6,
      controllerroot.ControllerV5, controllerroot.ControllerV4,
      controllerroot.ControllerV3, controllerroot.Admin, controllerroot.JIMMV2,
      controllerroot.Pinger, controllerroot.UserManager.
    rewrite Hne. split; [repeat constructor |].
    destruct newGenerator; eexists; (split; [reflexivity |]); split; discriminate.
Qed.

(** X6.  A tag made by [userTag] always has a domain, so [user] never
    rejects it; a user name without a domain, or with the domain
    [external], comes back as its bare name. *)
Theorem user_of_userTag (NewUserTag : string -> jujuapi.UserTag) (username : string) :
  let tag := NewUserTag username in
  jujuapi.ut_IsLocal (jujuapi.userTag NewUserTag username) = false
  /\ exists u, jujuapi.user (jujuapi.userTag NewUserTag username) = Ok u
               /\ (jujuapi.ut_Domain tag = "" \/ jujuapi.ut_Domain tag = "external" ->
                   u = jujuapi.ut_Name tag)
               /\ (jujuapi.ut_Domain tag <> "" -> jujuapi.user tag = Ok u).
Proof.
  intros tag. unfold jujuapi.userTag, jujuapi.user, jujuapi.ut_IsLocal. fold tag.
  destruct (String.eqb_spec (jujuapi.ut_Domain tag) "") as [He | Hne]; simpl.
  - split; [reflexivity |]. eexists. split; [reflexivity |]. split; [reflexivity |].
    intros H; contradiction.
  - destruct (String.eqb_spec (jujuapi.ut_Domain tag) "") as [He | _]; [contradiction |].
    split; [reflexivity |]. eexists. split; [reflexivity |]. split; [| reflexivity].
    intros [H | H]; [contradiction |]. rewrite H. reflexivity.
Qed.

(* ===================================================================== *)
(** * Further properties: the users of a model                            *)
(* ===================================================================== *)

Lemma added_refl w : added w w [].
Proof. unfold added. now rewrite app_nil_r. Qed.

Lemma added_trans w1 w2 w3 evs1 evs2 :
  added w1 w2 evs1 -> added w2 w3 evs2 -> added w1 w3 (evs1 ++ evs2).
Proof. unfold added. intros H1 H2. rewrite H2, H1. now rewrite app_assoc. Qed.

Lemma added_log level msg w : added w (snd (Ext.log level msg w)) [(LogMsg level msg, None)].
Proof. reflexivity. Qed.

Lemma added_check env c w :
  added w (snd (Ext.check env c w)) [(c, fst (Ext.check env c w))].
Proof. reflexivity. Qed.

Lemma iterUsers_filterUsers env IsValidUser NewUserTag (admin : bool)
      (f : User -> ModelUserInfo -> list ModelUserInfo
           -> M (list ModelUserInfo)) :
  (forall u ui s w,
      f u ui s w
      = if admin then (s ++ [ui], w)
        else (match fst (Ext.check env (AuthCheckIsUser u) w) with
              | None => s ++ [ui]
              | Some _ => s
              end, snd (Ext.check env (AuthCheckIsUser u) w))) ->
  forall users acc w,
  exists kept evs,
    fst (jujuapi.iterUsers IsValidUser NewUserTag users f acc w) = acc ++ kept
    /\ added w (snd (jujuapi.iterUsers IsValidUser NewUserTag users f acc w)) evs
    /\ sublist kept (List.filter (is_external IsValidUser NewUserTag) users)
    /\ (admin = true ->
        kept = List.filter (is_external IsValidUser NewUserTag) users
        /\ forallb is_log evs = true)
    /\ (admin = false ->
        Forall (fun ui => exists u, external_user IsValidUser NewUserTag ui = Some u
                                    /\ In (AuthCheckIsUser u, None) evs) kept).
Proof.
  intros Hf. induction users as [| ui users IH]; intros acc w.
  - exists [], []. simpl. rewrite app_nil_r. repeat split; auto using added_refl.
  - cbn [jujuapi.iterUsers List.filter].
    assert (Hext : is_external IsValidUser NewUserTag ui
                   = match external_user IsValidUser NewUserTag ui with
                     | Some _ => true
                     | None => false
                     end) by reflexivity.
    unfold external_user in Hext.
    destruct (IsValidUser (UserName ui)) eqn:Hvalid; cbn [negb].
    + destruct (jujuapi.user (NewUserTag (UserName ui))) as [u | e] eqn:Huser;
        rewrite Hext.
      * unfold bind. rewrite Hf. destruct admin.
        -- destruct (IH (acc ++ [ui]) w) as (kept & evs & Hr & Ha & Hs & Ht & _).
           exists (ui :: kept), evs. rewrite Hr, <- app_assoc.
           split; [reflexivity |]. split; [exact Ha |].
           split; [now apply sublist_skip |].
           split; [| discriminate].
           intros _. destruct (Ht eq_refl) as [Hk Hl]. split; [now rewrite <- Hk | exact Hl].
        -- pose proof (added_check env (AuthCheckIsUser u) w) as Hc.
           destruct (Ext.check env (AuthCheckIsUser u) w) as [[err |] w1];
             cbn [fst snd] in Hc |- *.
           ++ destruct (IH acc w1) as (kept & evs & Hr & Ha & Hs & _ & Hk).
              exists kept, ((AuthCheckIsUser u, Some err) :: evs).
              split; [exact Hr |]. split; [exact (added_trans _ _ _ _ _ Hc Ha) |].
              split; [now apply sublist_cons |]. split; [discriminate |].
              intros _. eapply Forall_impl; [exact (Hk eq_refl) |].
              intros x (u' & Hx & Hin). exists u'. split; [exact Hx | now right].
           ++ destruct (IH (acc ++ [ui]) w1) as (kept & evs & Hr & Ha & Hs & _ & Hk).
              exists (ui :: kept), ((AuthCheckIsUser u, None) :: evs).
              rewrite Hr, <- app_assoc.
              split; [reflexivity |]. split; [exact (added_trans _ _ _ _ _ Hc Ha) |].
              split; [now apply sublist_skip |]. split; [discriminate |].
              intros _. constructor.
              ** exists u. unfold external_user. rewrite Hvalid, Huser.
                 split; [reflexivity | now left].
              ** eapply Forall_impl; [exact (Hk eq_refl) |].
                 intros x (u' & Hx & Hin). exists u'. split; [exact Hx | now right].
      * destruct (IH acc w) as (kept & evs & Hr & Ha & Hs & Ht & Hk).
        exists kept, evs. repeat split; auto; apply Ht; auto.
    + rewrite Hext. unfold bind.
      pose proof (added_log "info" "controller sent invalid username, skipping" w) as Hc.
      destruct (Ext.log "info" "controller sent invalid username, skipping" w) as [[] w1].
      cbn [snd] in Hc.
      destruct (IH acc w1) as (kept & evs & Hr & Ha & Hs & Ht & Hk).
      exists kept, ((LogMsg "info" "controller sent invalid username, skipping", None) :: evs).
      split; [exact Hr |]. split; [exact (added_trans _ _ _ _ _ Hc Ha) |].
      split; [exact Hs |]. split.
      * intros Hadm. destruct (Ht Hadm) as [Hk' Hl]. split; [exact Hk' | exact Hl].
      * intros Hadm. eapply Forall_impl; [exact (Hk Hadm) |].
        intros x (u' & Hx & Hin). exists u'. split; [exact Hx | now right].
Qed.

Lemma filter_sublist {A} (p : A -> bool) (l : list A) : sublist (List.filter p l) l.
Proof.
  induction l as [| x l IH]; simpl; [constructor |].
  destruct (p x); [now apply sublist_skip | now apply sublist_cons].
Qed.

(** X7.  [filterUsers] returns entries of the list it is given, in
    order, and only entries whose name is valid and not local to the
    controller.  For an admin these are all such entries, and the
    identity service is not consulted; for anyone else every entry
    returned has passed the identity check of its user. *)
Theorem filterUsers_visible env IsValidUser NewUserTag users (admin : bool) w :
  exists evs,
    added w (snd (jujuapi.filterUsers env IsValidUser NewUserTag users admin w)) evs
    /\ sublist (fst (jujuapi.filterUsers env IsValidUser NewUserTag users admin w))
               users
    /\ Forall (fun ui => is_external IsValidUser NewUserTag ui = true)
              (fst (jujuapi.filterUsers env IsValidUser NewUserTag users admin w))
    /\ (admin = true ->
        fst (jujuapi.filterUsers env IsValidUser NewUserTag users admin w)
        = List.filter (is_external IsValidUser NewUserTag) users
        /\ forallb is_log evs = true)
    /\ (admin = false ->
        Forall (fun ui => exists u, external_user IsValidUser NewUserTag ui = Some u
                                    /\ In (AuthCheckIsUser u, None) evs)
               (fst (jujuapi.filterUsers env IsValidUser NewUserTag users admin w))).
Proof.
  unfold jujuapi.filterUsers.
  match goal with
  | |- context [jujuapi.iterUsers _ _ _ ?f _ _] =>
      destruct (iterUsers_filterUsers env IsValidUser NewUserTag admin f) with
        (users := users) (acc := @nil ModelUserInfo) (w := w)
        as (kept & evs & Hr & Ha & Hs & Ht & Hk)
  end.
  - intros u ui s w0. destruct admin; [reflexivity |].
    unfold bind, Ext.CheckIsUser.
    destruct (Ext.check env (AuthCheckIsUser u) w0) as [[e |] w1]; reflexivity.
  - exists evs. rewrite Hr. simpl.
    split; [exact Ha |].
    split; [etransitivity; [exact Hs | apply filter_sublist] |].
    split; [| split; [exact Ht | exact Hk]].
    apply Forall_forall. intros ui Hin.
    pose proof (elem_of_sublist _ _ _ Hin Hs) as Hel.
    apply list_elem_of_In, filter_In in Hel. tauto.
Qed.

Lemma iterUsers_isModelAdmin env IsValidUser NewUserTag
      (f : User -> ModelUserInfo -> bool -> M bool) :
  (forall u ui (s : bool) w,
      f u ui s w
      = if s then (true, w)
        else if String.eqb (Access ui) jujuapi.ModelAdminAccess
        then (match fst (Ext.check env (AuthCheckIsUser u) w) with
              | None => true
              | Some _ => false
              end, snd (Ext.check env (AuthCheckIsUser u) w))
        else (false, w)) ->
  forall users acc w,
  exists evs,
    added w (snd (jujuapi.iterUsers IsValidUser NewUserTag users f acc w)) evs
    /\ (fst (jujuapi.iterUsers IsValidUser NewUserTag users f acc w) = true
        <-> acc = true \/ exists u, In (AuthCheckIsUser u, None) evs)
    /\ (acc = true -> forallb is_log evs = true)
    /\ (forall ev, In ev evs ->
        is_log ev = true
        \/ exists u ui, fst ev = AuthCheckIsUser u /\ In ui users
                        /\ Access ui = jujuapi.ModelAdminAccess
                        /\ external_user IsValidUser NewUserTag ui = Some u)
    /\ (forall evs1 u evs2, evs = evs1 ++ (AuthCheckIsUser u, None) :: evs2 ->
        forallb is_log evs2 = true).
Proof.
  intros Hf. induction users as [| ui users IH]; intros acc w.
  - exists []. simpl. split; [apply added_refl |].
    split; [split; [auto | intros [H | [u []]]; exact H] |].
    split; [reflexivity |]. split; [intros ev [] |].
    intros [| ? ?] u evs2 H; discriminate H.
  - cbn [jujuapi.iterUsers].
    assert (Hext : external_user IsValidUser NewUserTag ui
                   = if IsValidUser (UserName ui)
                     then match jujuapi.user (NewUserTag (UserName ui)) with
                          | Ok u => Some u
                          | Err _ => None
                          end
                     else None) by reflexivity.
    destruct (IsValidUser (UserName ui)) eqn:Hvalid; cbn [negb].
    + destruct (jujuapi.user (NewUserTag (UserName ui))) as [u | e] eqn:Huser.
      * unfold bind. rewrite Hf. destruct acc.
        -- destruct (IH true w) as (evs & Ha & Hr & Hl & Hc & Ho).
           exists evs. split; [exact Ha |]. split; [exact Hr |]. split; [exact Hl |].
           split; [| exact Ho].
           intros ev Hin. destruct (Hc ev Hin) as [H | (u' & ui' & H1 & H2 & H3)];
             [now left | right; exists u', ui'; repeat split; try tauto; now right].
        -- destruct (String.eqb_spec (Access ui)
                                     jujuapi.ModelAdminAccess) as [Hacc | Hacc].
           ++ pose proof (added_check env (AuthCheckIsUser u) w) as Hch.
              destruct (Ext.check env (AuthCheckIsUser u) w) as [[err |] w1];
                cbn [fst snd] in Hch |- *.
              ** destruct (IH false w1) as (evs & Ha & Hr & Hl & Hc & Ho).
                 exists ((AuthCheckIsUser u, Some err) :: evs).
                 split; [exact (added_trans _ _ _ _ _ Hch Ha) |].
                 split; [rewrite Hr; split;
                         [intros [H | [u' H]]; [discriminate | right; exists u'; now right]
                         | intros [H | [u' [H | H]]];
                           [discriminate | discriminate | right; now exists u']] |].
                 split; [discriminate |]. split.
                 --- intros ev [<- | Hin].
                     +++ right. exists u, ui. rewrite Hext. repeat split; auto. now left.
                     +++ destruct (Hc ev Hin) as [H | (u' & ui' & H1 & H2 & H3)];
                           [now left | right; exists u', ui'; repeat split; try tauto; now right].
                 --- intros [| ev1 evs1] u' evs2 H; simpl in H; [discriminate |].
                     injection H as _ H. exact (Ho _ _ _ H).
              ** destruct (IH true w1) as (evs & Ha & Hr & Hl & Hc & Ho).
                 exists ((AuthCheckIsUser u, None) :: evs).
                 split; [exact (added_trans _ _ _ _ _ Hch Ha) |].
                 split; [rewrite Hr; split;
                         [intros _; right; exists u; now left | intros _; now left] |].
                 split; [discriminate |]. split.
                 --- intros ev [<- | Hin].
                     +++ right. exists u, ui. rewrite Hext. repeat split; auto. now left.
                     +++ destruct (Hc ev Hin) as [H | (u' & ui' & H1 & H2 & H3)];
                           [now left | right; exists u', ui'; repeat split; try tauto; now right].
                 --- intros [| ev1 evs1] u' evs2 H; simpl in H.
                     +++ injection H as _ <-. exact (Hl eq_refl).
                     +++ injection H as _ H. exact (Ho _ _ _ H).
           ++ destruct (IH false w) as (evs & Ha & Hr & Hl & Hc & Ho).
              exists evs. split; [exact Ha |]. split; [exact Hr |]. split; [exact Hl |].
              split; [| exact Ho].
              intros ev Hin. destruct (Hc ev Hin) as [H | (u' & ui' & H1 & H2 & H3)];
                [now left | right; exists u', ui'; repeat split; try tauto; now right].
      * destruct (IH acc w) as (evs & Ha & Hr & Hl & Hc & Ho).
        exists evs. split; [exact Ha |]. split; [exact Hr |]. split; [exact Hl |].
        split; [| exact Ho].
        intros ev Hin. destruct (Hc ev Hin) as [H | (u' & ui' & H1 & H2 & H3)];
          [now left | right; exists u', ui'; repeat split; try tauto; now right].
    + unfold bind.
      pose proof (added_log "info" "controller sent invalid username, skipping" w) as Hlg.
      destruct (Ext.log "info" "controller sent invalid username, skipping" w) as [[] w1].
      cbn [snd] in Hlg.
      destruct (IH acc w1) as (evs & Ha & Hr & Hl & Hc & Ho).
      exists ((LogMsg "info" "controller sent invalid username, skipping", None) :: evs).
      split; [exact (added_trans _ _ _ _ _ Hlg Ha) |].
      split; [rewrite Hr; split;
              [intros [H | [u' H]]; [now left | right; exists u'; now right]
              | intros [H | [u' [H | H]]];
                [now left | discriminate | right; now exists u']] |].
      split; [intros H; simpl; exact (Hl H) |]. split.
      * intros ev [<- | Hin]; [now left |].
        destruct (Hc ev Hin) as [H | (u' & ui' & H1 & H2 & H3)];
          [now left | right; exists u', ui'; repeat split; try tauto; now right].
      * intros [| ev1 evs1] u' evs2 H; simpl in H; [discriminate |].
        injection H as _ H. exact (Ho _ _ _ H).
Qed.

(** X8.  [isModelAdmin] answers true exactly when an identity check it
    made has passed.  It asks the identity service only about entries
    that grant admin access and whose name is valid and not local to
    the controller, and once a check has passed it asks no more. *)
Theorem isModelAdmin_checks env IsValidUser NewUserTag users w :
  exists evs,
    added w (snd (jujuapi.isModelAdmin env IsValidUser NewUserTag users w)) evs
    /\ (fst (jujuapi.isModelAdmin env IsValidUser NewUserTag users w) = true
        <-> exists u, In (AuthCheckIsUser u, None) evs)
    /\ (forall ev, In ev evs ->
        is_log ev = true
        \/ exists u ui, fst ev = AuthCheckIsUser u /\ In ui users
                        /\ Access ui = jujuapi.ModelAdminAccess
                        /\ external_user IsValidUser NewUserTag ui = Some u)
    /\ (forall evs1 u evs2, evs = evs1 ++ (AuthCheckIsUser u, None) :: evs2 ->
        forallb is_log evs2 = true).
Proof.
  unfold jujuapi.isModelAdmin.
  match goal with
  | |- context [jujuapi.iterUsers _ _ _ ?f _ _] =>
      destruct (iterUsers_isModelAdmin env IsValidUser NewUserTag f) with
        (users := users) (acc := false) (w := w)
        as (evs & Ha & Hr & _ & Hc & Ho)
  end.
  - intros u ui s w0. destruct s; [reflexivity |].
    destruct (String.eqb (Access ui) jujuapi.ModelAdminAccess);
      [| reflexivity].
    unfold bind, Ext.CheckIsUser.
    destruct (Ext.check env (AuthCheckIsUser u) w0) as [[e |] w1]; reflexivity.
  - exists evs. split; [exact Ha |]. split; [| split; [exact Hc | exact Ho]].
    rewrite Hr. split; [intros [H | H]; [discriminate | exact H] | intros H; now right].
Qed.

(* ===================================================================== *)
(** * Further properties: traces and the connection discipline            *)
(* ===================================================================== *)

Lemma emits_ret {A} (a : A) (Q : A -> list Event -> Prop) :
  Q a [] -> emits (ret a) Q.
Proof. intros H w. exists []. split; [apply added_refl | exact H]. Qed.

Lemma emits_bind {A B} (c : M A) (k : A -> M B) (Q1 : A -> list Event -> Prop)
      (Q : B -> list Event -> Prop) :
  emits c Q1 ->
  (forall a evs1, Q1 a evs1 -> emits (k a) (fun b evs2 => Q b (evs1 ++ evs2))) ->
  emits (bind c k) Q.
Proof.
  intros Hc Hk w. unfold bind.
  destruct (Hc w) as (evs1 & Ha1 & H1).
  destruct (c w) as [a w1]. simpl in *.
  destruct (Hk a evs1 H1 w1) as (evs2 & Ha2 & H2).
  exists (evs1 ++ evs2). split; [exact (added_trans _ _ _ _ _ Ha1 Ha2) | exact H2].
Qed.

Lemma emits_weaken {A} (c : M A) (Q Q' : A -> list Event -> Prop) :
  emits c Q -> (forall a evs, Q a evs -> Q' a evs) -> emits c Q'.
Proof.
  intros Hc HQ w. destruct (Hc w) as (evs & Ha & H). exists evs. auto.
Qed.

Lemma emits_emit c err : emits (emit c err) (fun _ evs => evs = [(c, err)]).
Proof. intros w. exists [(c, err)]. split; reflexivity. Qed.

Lemma emits_log level msg :
  emits (Ext.log level msg) (fun _ evs => evs = [(LogMsg level msg, None)]).
Proof. apply emits_emit. Qed.

Lemma emits_call {A} env c (serve : Store -> result A * Store) :
  emits (DB.call env c serve) (fun r evs => evs = [(c, DB.err_of r)]).
Proof.
  intros w. unfold DB.call.
  destruct (db_fault env (tick w)) as [e |].
  - exists [(c, Some e)]. split; reflexivity.
  - destruct (serve (store w)) as [r s]. exists [(c, DB.err_of r)]. split; reflexivity.
Qed.

Lemma emits_call_err {A} env c (serve : Store -> result A * Store) :
  emits (let* r := DB.call env c serve in ret (DB.err_of r))
        (fun err evs => evs = [(c, err)]).
Proof.
  eapply emits_bind; [apply emits_call |].
  intros r evs1 ->. apply emits_ret. now rewrite app_nil_r.
Qed.

Lemma emits_check env c : emits (Ext.check env c) (fun err evs => evs = [(c, err)]).
Proof. intros w. exists [(c, acl_check env (tick w))]. split; reflexivity. Qed.

Lemma emits_api env c : emits (Ext.api env c) (fun err evs => evs = [(c, err)]).
Proof. intros w. exists [(c, api_fault env (tick w))]. split; reflexivity. Qed.

Lemma emits_api_CreateModel env c :
  emits (Ext.api_CreateModel env c) (fun r evs => evs = [(c, DB.err_of r)]).
Proof.
  intros w. unfold Ext.api_CreateModel.
  destruct (api_fault env (tick w)) as [e |]; eexists; split; reflexivity.
Qed.

Lemma emits_api_ModelInfo env uuid :
  emits (Ext.api_ModelInfo env uuid) (fun r evs => evs = [(APIModelInfo uuid, DB.err_of r)]).
Proof.
  intros w. unfold Ext.api_ModelInfo.
  destruct (api_fault env (tick w)) as [e |]; eexists; split; reflexivity.
Qed.

Lemma bracketed_app evs1 : forall d evs2,
  bracketed d (evs1 ++ evs2)
  = match bracketed d evs1 with
    | Some d' => bracketed d' evs2
    | None => None
    end.
Proof.
  induction evs1 as [| [c e] evs1 IH]; intros d evs2; [reflexivity |].
  simpl. destruct c; simpl; try apply IH.
  - destruct e; apply IH.
  - destruct d; [reflexivity | apply IH].
  - destruct (d =? 0)%nat; [reflexivity | apply IH].
  - destruct (d =? 0)%nat; [reflexivity | apply IH].
  - destruct (d =? 0)%nat; [reflexivity | apply IH].
  - destruct (d =? 0)%nat; [reflexivity | apply IH].
  - destruct (d =? 0)%nat; [reflexivity | apply IH].
  - destruct (d =? 0)%nat; [reflexivity | apply IH].
Qed.

Lemma steady_nil : steady [].
Proof. intros d. reflexivity. Qed.

Lemma steady_app evs1 evs2 : steady evs1 -> steady evs2 -> steady (evs1 ++ evs2).
Proof. intros H1 H2 d. now rewrite bracketed_app, H1. Qed.

Lemma steady_inside_nil : steady_inside [].
Proof. intros d. reflexivity. Qed.

Lemma steady_inside_app evs1 evs2 :
  steady_inside evs1 -> steady_inside evs2 -> steady_inside (evs1 ++ evs2).
Proof. intros H1 H2 d. now rewrite bracketed_app, H1. Qed.

Lemma steady_steady_inside evs : steady evs -> steady_inside evs.
Proof. intros H d. apply H. Qed.

Lemma steady_local c e :
  is_upstream c = false -> c <> ConnClose -> (forall u, c <> OpenAPI u) -> steady [(c, e)].
Proof.
  intros Hu Hc Ho d. destruct c; try discriminate; try reflexivity; try congruence.
Qed.

Lemma steady_inside_upstream c e : is_upstream c = true -> steady_inside [(c, e)].
Proof. intros Hu d. destruct c; try discriminate; reflexivity. Qed.

Lemma steady_failed_open u e : steady [(OpenAPI u, Some e)].
Proof. intros d. reflexivity. Qed.

Lemma steady_connection u inner :
  steady_inside inner -> steady ((OpenAPI u, None) :: inner ++ [(ConnClose, None)]).
Proof.
  intros H d. simpl. rewrite bracketed_app, H. reflexivity.
Qed.

Lemma emits_OpenAPIFromDoc env ctl :
  emits (JEM.OpenAPIFromDoc env ctl) (fun err evs => evs = [(OpenAPI (ctl_UUID ctl), err)]).
Proof. apply emits_api. Qed.

Lemma emits_OpenAPI env path :
  emits (JEM.OpenAPI env path)
        (fun err evs =>
           (exists e, evs = [(DBController path, Some e)] /\ err <> None)
           \/ exists u, evs = [(DBController path, None); (OpenAPI u, err)]).
Proof.
  unfold JEM.OpenAPI, DB.Controller.
  eapply emits_bind; [apply emits_call |].
  intros [ctl | e] evs1 ->; simpl.
  - eapply emits_weaken; [apply emits_OpenAPIFromDoc |].
    intros err evs ->. right. eexists. reflexivity.
  - apply emits_ret. left. exists e. split; [reflexivity | discriminate].
Qed.

Lemma emits_DB_Credential env path :
  emits (DB.Credential env path) (fun r evs => evs = [(DBCredential path, DB.err_of r)]).
Proof. apply emits_call. Qed.

Lemma emits_clearCredentialUpdate env ctl cred :
  emits (DB.clearCredentialUpdate env ctl cred)
        (fun err evs => evs = [(DBclearCredentialUpdate ctl cred, err)]).
Proof. apply emits_call_err. Qed.

Lemma emits_Close : emits JEM.Close (fun _ evs => evs = [(ConnClose, None)]).
Proof. apply emits_emit. Qed.

Lemma steady_cons_local c e evs :
  is_upstream c = false -> is_conn c = false -> steady evs -> steady ((c, e) :: evs).
Proof.
  intros Hu Hc H d. destruct c; try discriminate; simpl; apply H.
Qed.

Lemma steady_inside_cons c e evs :
  is_conn c = false -> steady_inside evs -> steady_inside ((c, e) :: evs).
Proof.
  intros Hc H d. destruct c; try discriminate; simpl; apply H.
Qed.

Lemma steady_cons_failed_open u e evs : steady evs -> steady ((OpenAPI u, Some e) :: evs).
Proof. intros H d. simpl. apply H. Qed.

(** Facts about the events of a run, by cases on the list. *)
Ltac events :=
  rewrite ?Forall_app, ?Exists_app, ?Forall_cons, ?Exists_cons, ?Forall_nil, ?Exists_nil;
  unfold pushed; simpl.

Lemma updateControllerCredential_emits env ctlPath credPath (conn : bool) cred :
  emits (JEM.updateControllerCredential env ctlPath credPath conn cred)
        (fun err evs =>
           (if conn then steady_inside evs /\ Forall (fun ev => is_conn (fst ev) = false) evs
            else steady evs)
           /\ (err = None <-> Exists pushed evs)
           /\ Forall (fun ev => push_for ctlPath credPath cred (fst ev)) evs
           /\ (Exists (fun ev => is_clear (fst ev) = true) evs -> err = None)
           /\ (conn = true -> cred = None ->
               exists e rest, evs = (DBCredential credPath, e) :: rest)
           /\ Forall (fun ev => is_check ev = false) evs).
Proof.
  unfold JEM.updateControllerCredential.
  eapply emits_bind with
    (Q1 := fun oerr evs1 =>
             if conn then oerr = None /\ evs1 = []
             else (exists e, evs1 = [(DBController ctlPath, Some e)] /\ oerr <> None)
                  \/ exists u, evs1 = [(DBController ctlPath, None); (OpenAPI u, oerr)]).
  { destruct conn; [apply emits_ret; auto | apply emits_OpenAPI]. }
  intros oerr evs1 H1.
  destruct oerr as [oe |].
  - (* the connection could not be opened *)
    apply emits_ret. rewrite app_nil_r.
    destruct conn; [destruct H1; discriminate |].
    destruct H1 as [(e & -> & _) | (u & ->)]; events;
      (split; [intros d; reflexivity |]); intuition discriminate.
  - (* a connection is at hand *)
    eapply emits_bind with
      (Q1 := fun res evs2 =>
               steady_inside evs2 /\ Forall (fun ev => is_conn (fst ev) = false) evs2
               /\ (res = None <-> Exists pushed evs2)
               /\ Forall (fun ev => push_for ctlPath credPath cred (fst ev)) evs2
               /\ (Exists (fun ev => is_clear (fst ev) = true) evs2 -> res = None)
               /\ (cred = None -> exists e rest, evs2 = (DBCredential credPath, e) :: rest)
               /\ Forall (fun ev => is_check ev = false) evs2).
    + eapply emits_bind with
        (Q1 := fun rc evs =>
                 match cred with
                 | Some c => rc = Ok c /\ evs = []
                 | None => evs = [(DBCredential credPath, DB.err_of rc)]
                 end).
      { destruct cred; [apply emits_ret; auto | apply emits_DB_Credential]. }
      intros rc evs0 H0.
      assert (Hev0 : (cred <> None /\ evs0 = [])
                     \/ (cred = None /\ exists e, evs0 = [(DBCredential credPath, e)]))
        by (destruct cred; [left; split; [discriminate | tauto] | right; eauto]).
      destruct rc as [c | e].
      * assert (Hc : forall c', cred = Some c' -> c' = c).
        { intros c' ->. destruct H0 as [H0 _]. now injection H0. }
        clear H0.
        eapply emits_bind with
          (Q1 := fun err evs =>
                   exists call, evs = [(call, err)]
                      /\ is_push call = true
                      /\ push_for ctlPath credPath cred call).
        { destruct (cred_Revoked c) eqn:Hrev;
            (eapply emits_weaken; [apply emits_api |]); intros err evs ->;
            eexists; (split; [reflexivity |]); (split; [reflexivity |]); simpl;
            (split; [reflexivity |]); intros cr Hcr; apply Hc in Hcr; subst cr; auto. }
        intros err evs (call & -> & Hpush & Hfor).
        assert (Hnc : is_conn call = false /\ is_clear call = false
                      /\ forall e, is_check (call, e) = false)
          by (destruct call; try discriminate; auto).
        destruct Hnc as (Hnc & Hncl & Hnch).
        pose proof (Hnch None) as Hnch2. unfold is_check in Hnch2. simpl in Hnch2.
        destruct err as [e |].
        -- apply emits_ret. rewrite app_nil_r.
           destruct Hev0 as [[Hcred ->] | (Hcred & e0 & ->)]; events;
             rewrite ?Hnc, ?Hncl, ?Hpush, ?Hnch, ?Hnch2;
             (split; [intros d; simpl; destruct call; try discriminate; reflexivity |]);
             intuition (try discriminate; try congruence; eauto).
        -- eapply emits_bind; [apply emits_clearCredentialUpdate |].
           intros cerr evs ->.
           eapply emits_weaken with
             (Q := fun (r : option error) evs =>
                     r = None /\ (evs = [] \/ exists l m, evs = [(LogMsg l m, None)])).
           { destruct cerr.
             - eapply emits_bind; [apply emits_log |]. intros _ evs ->.
               apply emits_ret. split; [reflexivity |]. right. eauto.
             - apply emits_ret. auto. }
           intros r evs [-> Hlog].
           destruct Hev0 as [[Hcred ->] | (Hcred & e0 & ->)]; destruct Hlog as [-> | (l & m & ->)];
             events; rewrite ?Hnc, ?Hncl, ?Hpush, ?Hnch, ?Hnch2;
             (split; [intros d; simpl; destruct call; try discriminate; reflexivity |]);
             intuition (try discriminate; try congruence; eauto).
      * (* the credential could not be read *)
        apply emits_ret. rewrite app_nil_r.
        destruct Hev0 as [[Hcred ->] | (Hcred & e0 & ->)]; events;
          (split; [intros d; reflexivity |]);
          intuition (try discriminate; try congruence; eauto).
    + intros res evs2 (Hs2 & Hl2 & Hres & Hp & Hcl & Hfirst & Hnk).
      eapply emits_bind with
        (Q1 := fun (_ : unit) evs => evs = if conn then [] else [(ConnClose, None)]).
      { destruct conn; [apply emits_ret; reflexivity | apply emits_Close]. }
      intros _ evs3 ->. apply emits_ret. rewrite app_nil_r.
      destruct conn.
      * destruct H1 as [_ ->]. simpl. rewrite app_nil_r. tauto.
      * destruct H1 as [(e & _ & Hf) | (u & ->)]; [congruence |].
        split.
        { change (steady ([(DBController ctlPath, None)]
                            ++ (OpenAPI u, None) :: evs2 ++ [(ConnClose, None)])).
          apply steady_app; [intros d; reflexivity | now apply steady_connection]. }
        events. intuition (try discriminate; auto).
Qed.

Lemma updateAll_emits env ctlPath credPaths :
  emits (credentials.updateAll env ctlPath credPaths)
        (fun _ evs =>
           steady_inside evs
           /\ Forall (fun ev => is_conn (fst ev) = false) evs
           /\ Forall (attempted evs) credPaths
           /\ Forall (fun ev => exists p, In p credPaths
                                          /\ push_for ctlPath p None (fst ev)) evs).
Proof.
  induction credPaths as [| p rest IH]; cbn [credentials.updateAll].
  - apply emits_ret. split; [apply steady_inside_nil |]. repeat constructor.
  - eapply emits_bind; [apply updateControllerCredential_emits |].
    intros err evs1 ((Hs1 & Hl1) & _ & Hp1 & _ & Hfirst & _).
    destruct (Hfirst eq_refl eq_refl) as (e & rest1 & Hev1).
    eapply emits_bind with
      (Q1 := fun (_ : unit) evs => evs = [] \/ exists l m, evs = [(LogMsg l m, None)]).
    { destruct err.
      - eapply emits_weaken; [apply emits_log |]. intros _ evs ->. right. eauto.
      - apply emits_ret. now left. }
    intros _ evs2 Hlog.
    eapply emits_weaken; [apply IH |].
    intros _ evs3 (Hs3 & Hl3 & Ha3 & Hp3).
    assert (H2 : steady_inside evs2 /\ Forall (fun ev => is_conn (fst ev) = false) evs2
                 /\ Forall (fun ev => push_for ctlPath p None (fst ev)) evs2).
    { destruct Hlog as [-> | (l & m & ->)].
      - split; [apply steady_inside_nil |]. split; constructor.
      - split; [intros d; reflexivity |]. split; repeat constructor. }
    destruct H2 as (Hs2 & Hl2 & Hp2).
    split; [repeat apply steady_inside_app; assumption |].
    split; [rewrite !Forall_app; auto |].
    split.
    + constructor.
      * unfold attempted. rewrite Hev1. apply Exists_cons. now left.
      * eapply Forall_impl; [exact Ha3 |]. intros q Hq. unfold attempted in *.
        rewrite !Exists_app. auto.
    + rewrite !Forall_app. split; [| split].
      * eapply Forall_impl; [exact Hp1 |]. intros ev Hev. exists p. split; [now left | exact Hev].
      * eapply Forall_impl; [exact Hp2 |]. intros ev Hev. exists p. split; [now left | exact Hev].
      * eapply Forall_impl; [exact Hp3 |]. intros ev (q & Hq & Hev). exists q.
        split; [now right | exact Hev].
Qed.

Ltac crack :=
  repeat match goal with
         | H : _ \/ _ |- _ => destruct H as [H | H]
         | H : exists _, _ |- _ => destruct H as [? H]
         | H : False |- _ => destruct H
         | H : _ /\ _ |- _ => destruct H as [? H]
         end; simplify_eq.

Lemma ControllerUpdateCredentials_emits env ctlPath :
  emits (credentials.ControllerUpdateCredentials env ctlPath)
        (fun err evs =>
           steady evs
           /\ (err = None <-> Exists opened evs)
           /\ (Exists (fun ev => is_upstream (fst ev) = true \/ is_clear (fst ev) = true) evs ->
               Exists opened evs)
           /\ (forall e, hd_error evs = Some (DBController ctlPath, Some e) ->
                         Is ErrNotFound (Cause e) = true ->
                         option_map Cause err = Some (ECode ErrNotFound))).
Proof.
  unfold credentials.ControllerUpdateCredentials, DB.Controller.
  eapply emits_bind; [apply emits_call |].
  intros [ctl | e] evs1 ->; simpl DB.err_of.
  - eapply emits_bind; [apply emits_OpenAPIFromDoc |].
    intros [oe |] evs2 ->.
    + apply emits_ret. unfold opened. events.
      split; [intros d; reflexivity |].
      repeat split; intros; crack; discriminate.
    + eapply emits_bind; [apply updateAll_emits |].
      intros _ evs3 (Hs3 & Hl3 & _ & _).
      eapply emits_bind; [apply emits_Close |].
      intros _ evs4 ->. apply emits_ret. rewrite app_nil_r.
      assert (Hop : Exists opened
                      ([(DBController ctlPath, None)] ++
                       [(OpenAPI (ctl_UUID ctl), None)] ++ evs3 ++ [(ConnClose, None)])).
      { apply Exists_app. right. apply Exists_cons. left. eexists. reflexivity. }
      split.
      { apply steady_app; [intros d; reflexivity | now apply steady_connection]. }
      split; [tauto |]. split; [auto |].
      intros e Hhd. discriminate Hhd.
  - apply emits_ret. unfold opened. events.
    split; [intros d; reflexivity |].
    split; [split; intros; crack; discriminate |].
    split; [intros; crack; discriminate |].
    intros e' Hhd Hnf. injection Hhd as <-.
    unfold NoteMask, matches. simpl. rewrite Hnf. simpl.
    destruct (Cause e); try discriminate. simpl in Hnf.
    apply bool_decide_eq_true in Hnf. now subst.
Qed.

(** X9.  [updateControllerCredential].  It returns nil exactly when
    the push to the controller succeeded, even if clearing the pending
    flag failed afterwards; the flag is cleared only after a successful
    push, and only for this controller and credential path; the push
    is for this path, a revocation when the credential given is
    revoked and an update with its type otherwise.  With a connection
    of the caller it opens and closes none; without one, every
    connection it opens it closes, on each of its return paths, and it
    makes no upstream call outside it. *)
Theorem updateControllerCredential_pushes env ctlPath credPath (conn : bool) cred w :
  exists evs,
    added w (snd (JEM.updateControllerCredential env ctlPath credPath conn cred w)) evs
    /\ (if conn then steady_inside evs /\ Forall (fun ev => is_conn (fst ev) = false) evs
        else steady evs)
    /\ (fst (JEM.updateControllerCredential env ctlPath credPath conn cred w) = None
        <-> Exists pushed evs)
    /\ Forall (fun ev => push_for ctlPath credPath cred (fst ev)) evs
    /\ (Exists (fun ev => is_clear (fst ev) = true) evs ->
        fst (JEM.updateControllerCredential env ctlPath credPath conn cred w) = None).
Proof.
  destruct (updateControllerCredential_emits env ctlPath credPath conn cred w)
    as (evs & Ha & H1 & H2 & H3 & H4 & _ & _).
  exists evs. auto.
Qed.

(** X10.  [ControllerUpdateCredentials] returns nil exactly when it got
    a connection to the controller, whatever became of the pushes; it
    makes no upstream call and clears no pending flag without having
    opened a connection, closes the connection it opened, and when the
    controller is not in the store the error it returns has the cause
    [params.ErrNotFound]. *)
Theorem ControllerUpdateCredentials_result env ctlPath w :
  exists evs,
    added w (snd (credentials.ControllerUpdateCredentials env ctlPath w)) evs
    /\ steady evs
    /\ (fst (credentials.ControllerUpdateCredentials env ctlPath w) = None
        <-> Exists opened evs)
    /\ (Exists (fun ev => is_upstream (fst ev) = true \/ is_clear (fst ev) = true) evs ->
        Exists opened evs)
    /\ (forall e, hd_error evs = Some (DBController ctlPath, Some e) ->
                  Is ErrNotFound (Cause e) = true ->
                  option_map Cause (fst (credentials.ControllerUpdateCredentials env ctlPath w))
                  = Some (ECode ErrNotFound)).
Proof. exact (ControllerUpdateCredentials_emits env ctlPath w). Qed.

(** X11.  Once [ControllerUpdateCredentials] has read the controller
    and has a connection to it, it attempts every credential that
    awaits a push on the controller, in spite of the pushes that fail,
    and returns nil; the pushes it makes and the flags it clears are
    for these credentials and this controller only. *)
Theorem ControllerUpdateCredentials_attempts_all env ctlPath w ctl w1 :
  DB.Controller env ctlPath w = (Ok ctl, w1) ->
  api_fault env (tick w1) = None ->
  fst (credentials.ControllerUpdateCredentials env ctlPath w) = None
  /\ exists evs,
      added w (snd (credentials.ControllerUpdateCredentials env ctlPath w)) evs
      /\ Forall (attempted evs) (UpdateCredentials ctl)
      /\ Forall (fun ev => is_push (fst ev) = true \/ is_clear (fst ev) = true ->
                           exists p, In p (UpdateCredentials ctl)
                                     /\ push_for (ctl_Path ctl) p None (fst ev)) evs.
Proof.
  intros Hctl Hapi.
  pose proof (emits_call env (DBController ctlPath)
                (fun s => (DB.lookup "controller" (fun c => bool_decide (ctl_Path c = ctlPath))
                                     (controllers s), s)) w) as (evs0 & Ha0 & Hev0).
  fold (DB.Controller env ctlPath) in Ha0, Hev0. rewrite Hctl in Ha0, Hev0. simpl in Ha0, Hev0.
  unfold credentials.ControllerUpdateCredentials, bind. rewrite Hctl.
  unfold JEM.OpenAPIFromDoc, Ext.api. rewrite Hapi.
  set (w2 := snd (emit (OpenAPI (ctl_UUID ctl)) None w1)).
  assert (Ha2 : added w1 w2 [(OpenAPI (ctl_UUID ctl), None)]) by reflexivity.
  destruct (updateAll_emits env (ctl_Path ctl) (UpdateCredentials ctl) w2)
    as (evs3 & Ha3 & _ & _ & Hatt & Hfor).
  destruct (credentials.updateAll env (ctl_Path ctl) (UpdateCredentials ctl) w2) as [[] w3].
  simpl in Ha3. unfold JEM.Close.
  assert (Ha4 : added w3 (snd (emit ConnClose None w3)) [(ConnClose, None)]) by reflexivity.
  destruct (emit ConnClose None w3) as [[] w4]. simpl in Ha4. unfold ret. simpl.
  split; [reflexivity |].
  exists (evs0 ++ [(OpenAPI (ctl_UUID ctl), None)] ++ evs3 ++ [(ConnClose, None)]).
  split; [eauto using added_trans |].
  split.
  - eapply Forall_impl; [exact Hatt |]. intros p Hp. unfold attempted in *.
    rewrite !Exists_app. auto.
  - subst evs0. events. repeat split; try (intros [Hx | Hx]; discriminate).
    eapply Forall_impl; [exact Hfor |]. intros ev Hev _. exact Hev.
Qed.

Lemma ControllerUpdateCredentials_attempts_all_witness :
  let env := Examples.with_api_fault (Examples.only_at 3 (EOther "connection reset"))
                                     Examples.calm in
  let w := Examples.start MoreExamples.pending in
  let w1 := {| tick := 1; store := MoreExamples.pending;
               trace := [(DBController Examples.ctl1, None)] |} in
  DB.Controller env Examples.ctl1 w = (Ok MoreExamples.behind, w1)
  /\ api_fault env (tick w1) = None
  /\ fst (credentials.ControllerUpdateCredentials env Examples.ctl1 w) = None.
Proof.
  intros env w w1.
  assert (H1 : DB.Controller env Examples.ctl1 w = (Ok MoreExamples.behind, w1))
    by reflexivity.
  assert (H2 : api_fault env (tick w1) = None) by reflexivity.
  split; [exact H1 |]. split; [exact H2 |].
  exact (proj1 (ControllerUpdateCredentials_attempts_all env Examples.ctl1 w
                  MoreExamples.behind w1 H1 H2)).
Defined.

(** ** The kinds of calls a function makes *)

Lemma touches_nil ks : touches ks [].
Proof. constructor. Qed.

Lemma touches_app ks evs1 evs2 :
  touches ks (evs1 ++ evs2) <-> touches ks evs1 /\ touches ks evs2.
Proof. apply Forall_app. Qed.

Lemma touches_one ks c e : In (kind c) ks -> touches ks [(c, e)].
Proof. intros H. repeat constructor. exact H. Qed.

Lemma touches_mono ks ks' evs : incl ks ks' -> touches ks evs -> touches ks' evs.
Proof. intros Hi H. eapply Forall_impl; [exact H |]. intros ev Hev. now apply Hi. Qed.

Lemma touches_without ks evs (P : Call -> Prop) :
  touches ks evs -> (forall c, In (kind c) ks -> P c) -> Forall (fun ev => P (fst ev)) evs.
Proof. intros H HP. eapply Forall_impl; [exact H |]. intros ev Hev. now apply HP. Qed.

Lemma emits_and {A} (c : M A) (Q1 Q2 : A -> list Event -> Prop) :
  emits c Q1 -> emits c Q2 -> emits c (fun a evs => Q1 a evs /\ Q2 a evs).
Proof.
  intros H1 H2 w. destruct (H1 w) as (evs1 & Ha1 & Hq1). destruct (H2 w) as (evs2 & Ha2 & Hq2).
  unfold added in *. rewrite Ha1 in Ha2. apply app_inv_head in Ha2. subst evs2.
  exists evs1. auto.
Qed.

Lemma calls_ret {A} ks (a : A) : calls ks (ret a).
Proof. apply emits_ret, touches_nil. Qed.

Lemma calls_bind {A B} ks (c : M A) (k : A -> M B) :
  calls ks c -> (forall a, calls ks (k a)) -> calls ks (bind c k).
Proof.
  intros Hc Hk. eapply emits_bind; [exact Hc |].
  intros a evs1 H1. eapply emits_weaken; [apply Hk |].
  intros b evs2 H2. apply touches_app. auto.
Qed.

Lemma calls_mono {A} ks ks' (c : M A) : incl ks ks' -> calls ks c -> calls ks' c.
Proof.
  intros Hi Hc. eapply emits_weaken; [exact Hc |]. intros a evs. now apply touches_mono.
Qed.

Lemma calls_emit ks c e : In (kind c) ks -> calls ks (emit c e).
Proof.
  intros H. eapply emits_weaken; [apply emits_emit |]. intros _ evs ->. now apply touches_one.
Qed.

Lemma calls_call {A} ks env c (serve : Store -> result A * Store) :
  In (kind c) ks -> calls ks (DB.call env c serve).
Proof.
  intros H. eapply emits_weaken; [apply emits_call |]. intros r evs ->. now apply touches_one.
Qed.

Lemma calls_check ks env c : In (kind c) ks -> calls ks (Ext.check env c).
Proof.
  intros H. eapply emits_weaken; [apply emits_check |]. intros r evs ->. now apply touches_one.
Qed.

Lemma calls_api ks env c : In (kind c) ks -> calls ks (Ext.api env c).
Proof.
  intros H. eapply emits_weaken; [apply emits_api |]. intros r evs ->. now apply touches_one.
Qed.

Lemma calls_api_CreateModel ks env c : In (kind c) ks -> calls ks (Ext.api_CreateModel env c).
Proof.
  intros H. eapply emits_weaken; [apply emits_api_CreateModel |].
  intros r evs ->. now apply touches_one.
Qed.

Lemma calls_api_ModelInfo ks env uuid : In KInfo ks -> calls ks (Ext.api_ModelInfo env uuid).
Proof.
  intros H. eapply emits_weaken; [apply emits_api_ModelInfo |].
  intros r evs ->. now apply touches_one.
Qed.

Lemma calls_source {A} ks (f : World -> A) c :
  In (kind c) ks -> calls ks (fun w => (f w, snd (emit c None w))).
Proof.
  intros H w. exists [(c, None)]. split; [reflexivity | now apply touches_one].
Qed.

Lemma calls_GetCredentials ks client user :
  In KSource ks -> calls ks (Ext.GetCredentials client user).
Proof.
  intros H w. eexists. split; [reflexivity |]. now apply touches_one.
Qed.

Lemma calls_get_tick ks : calls ks get_tick.
Proof. intros w. exists []. split; [apply added_refl | apply touches_nil]. Qed.

Ltac kinds := simpl; tauto.

Ltac incl_kinds := let k := fresh in intros k; simpl; tauto.

Create HintDb calls.

Ltac calls_step :=
  first
    [ apply calls_ret
    | apply calls_get_tick
    | eapply calls_mono; cycle 1; [solve [eauto with calls] | incl_kinds]
    | apply calls_bind; [| intros ?]
    | apply calls_call; kinds
    | apply calls_emit; kinds
    | apply calls_check; kinds
    | apply calls_api; kinds
    | apply calls_api_CreateModel; kinds
    | apply calls_api_ModelInfo; kinds
    | apply calls_GetCredentials; kinds
    | apply calls_source; kinds
    | match goal with |- calls _ (match ?x with _ => _ end) => destruct x end
    | match goal with |- calls _ (if ?x then _ else _) => destruct x end
    | progress cbv zeta ].

Ltac calls_auto :=
  unfold Ext.CheckIsUser, Ext.CheckCanRead, Ext.CheckIsAdmin, Ext.CheckReadACL, Ext.log,
    Ext.Now, Ext.Next,
    Ext.randIntn, JEM.Close, JEM.OpenAPIFromDoc,
    DB.Credential, DB.CloudRegion, DB.Controller, DB.ModelFromUUID, DB.AddModel,
    DB.DeleteModel, DB.DeleteModelWithUUID, DB.ApplyModel, DB.SetModelLife, DB.AppendAudit,
    DB.UpdateLegacyModel, DB.MachinesForModel, DB.ProviderType, DB.updateCredential,
    DB.setCredentialUpdates, DB.clearCredentialUpdate, DB.credentialAddController,
    DB.FindCredentials;
  repeat calls_step.

Lemma OpenAPI_calls env path : calls [KLookup; KOpen] (JEM.OpenAPI env path).
Proof. unfold JEM.OpenAPI. calls_auto. Qed.

#[local] Hint Resolve OpenAPI_calls : calls.

Lemma Controller_calls env path : calls [KCheck; KLookup] (JEM.Controller env path).
Proof. unfold JEM.Controller. calls_auto. Qed.

#[local] Hint Resolve Controller_calls : calls.

Lemma updateControllerCredential_calls env ctlPath credPath (conn : bool) cred :
  calls (if conn then [KLookup; KPush; KUpdate; KLog]
         else [KLookup; KOpen; KClose; KPush; KUpdate; KLog])
        (JEM.updateControllerCredential env ctlPath credPath conn cred).
Proof. unfold JEM.updateControllerCredential. destruct conn; calls_auto. Qed.

Lemma updateControllerCredential_calls_inside env ctlPath credPath cred :
  calls [KLookup; KPush; KUpdate; KLog]
        (JEM.updateControllerCredential env ctlPath credPath true cred).
Proof. apply (updateControllerCredential_calls env ctlPath credPath true cred). Qed.

Lemma updateControllerCredential_calls_outside env ctlPath credPath cred :
  calls [KLookup; KOpen; KClose; KPush; KUpdate; KLog]
        (JEM.updateControllerCredential env ctlPath credPath false cred).
Proof. apply (updateControllerCredential_calls env ctlPath credPath false cred). Qed.

#[local] Hint Resolve updateControllerCredential_calls_inside
  updateControllerCredential_calls_outside : calls.

Lemma createModelOnController_calls env ctlPath p cred :
  calls [KCheck; KLookup; KOpen; KClose; KPush; KUpdate; KCreate; KGrant; KLog]
        (JEM.createModelOnController env ctlPath p cred).
Proof. unfold JEM.createModelOnController. calls_auto. Qed.

#[local] Hint Resolve createModelOnController_calls : calls.

(** ** createModelOnController *)

Lemma emits_Controller env path :
  emits (JEM.Controller env path)
        (fun r evs =>
           (exists e, evs = [(AuthCheckReadACL path, Some e)] /\ DB.err_of r <> None)
           \/ (exists e, evs = [(AuthCheckReadACL path, None); (DBController path, e)])).
Proof.
  unfold JEM.Controller, Ext.CheckReadACL, DB.Controller.
  eapply emits_bind; [apply emits_check |].
  intros [e |] evs1 ->.
  - apply emits_ret. left. exists e. split; [reflexivity | discriminate].
  - eapply emits_bind; [apply emits_call |].
    intros [ctl | e] evs2 ->; apply emits_ret; right; eexists; reflexivity.
Qed.

Lemma dialled_app evs1 evs2 : dialled (evs1 ++ evs2) = dialled evs1 ++ dialled evs2.
Proof. apply flat_map_app. Qed.

Lemma dialled_touches ks evs : touches ks evs -> ~ In KCheck ks -> dialled evs = [].
Proof.
  intros H Hk. induction H as [| [c e] evs Hc _ IH]; [reflexivity |].
  unfold dialled in *. simpl. rewrite IH. destruct c; try reflexivity; simpl in Hc; tauto.
Qed.

Lemma touches_not_Exists ks evs (P : Event -> Prop) :
  touches ks evs -> (forall ev, In (kind (fst ev)) ks -> ~ P ev) -> ~ Exists P evs.
Proof.
  intros H HP Hex. apply Exists_exists in Hex. destruct Hex as (ev & Hin & Hev).
  unfold touches in H. rewrite Forall_forall in H. exact (HP ev (H ev Hin) Hev).
Qed.

Ltac inv_exists :=
  repeat match goal with
         | H : Exists _ (_ ++ _) |- _ => apply Exists_app in H; destruct H as [H | H]
         | H : Exists _ (_ :: _) |- _ => apply Exists_cons in H; destruct H as [H | H]
         | H : Exists _ [] |- _ => apply Exists_nil in H; destruct H
         end.

Ltac leaf :=
  repeat split; intros; simplify_eq; inv_exists; simpl in *; crack;
  try discriminate; try tauto.

Lemma createModelOnController_emits env ctlPath p cred :
  emits (JEM.createModelOnController env ctlPath p cred)
        (fun r evs =>
           steady evs
           /\ dialled evs = [ctlPath]
           /\ (forall m, r = Ok m -> Exists created evs /\ Exists (granted (mi_UUID m)) evs)
           /\ (forall e, r = Err e -> Is errInvalidModelParams (Cause e) = true ->
                         Exists (fun ev => kind (fst ev) = KCreate /\ snd ev <> None) evs)
           /\ (forall c, cred = Some c ->
                         Exists (fun ev => kind (fst ev) = KCreate) evs ->
                         Exists pushed evs
                         /\ Exists (fun ev => ev = (DBcredentialAddController (cred_Path c) ctlPath,
                                                    None)) evs)).
Proof.
  unfold JEM.createModelOnController.
  eapply emits_bind; [apply emits_Controller |].
  intros rctl evs1 H1.
  destruct rctl as [ctl | e].
  - destruct H1 as [(e & _ & Hf) | (e1 & ->)]; [exfalso; now apply Hf |].
    destruct (Deprecated ctl).
    + apply emits_ret. rewrite app_nil_r. unfold created, granted. events.
      split; [intros d; reflexivity |].
      leaf.
    + eapply emits_bind; [apply emits_OpenAPIFromDoc |].
      intros [oe |] evs2 ->.
      * apply emits_ret. rewrite app_nil_r. unfold created, granted. events.
        split; [intros d; reflexivity |].
        leaf.
      * (* connected *)
        eapply emits_bind with
          (Q1 := fun r evs =>
                   steady_inside evs
                   /\ dialled evs = []
                   /\ (forall m, r = Ok m ->
                                 Exists created evs /\ Exists (granted (mi_UUID m)) evs)
                   /\ (forall e, r = Err e -> Is errInvalidModelParams (Cause e) = true ->
                                 Exists (fun ev => kind (fst ev) = KCreate /\ snd ev <> None) evs)
                   /\ (forall c, cred = Some c ->
                                 Exists (fun ev => kind (fst ev) = KCreate) evs ->
                                 Exists pushed evs
                                 /\ Exists (fun ev => ev = (DBcredentialAddController
                                                              (cred_Path c) ctlPath, None)) evs)).
        -- eapply emits_bind with
             (Q1 := fun cerr evs =>
                      steady_inside evs /\ touches [KLookup; KPush; KUpdate; KLog] evs
                      /\ (forall e, cerr = Some e -> Is errInvalidModelParams (Cause e) = false)
                      /\ (cerr = None -> forall c, cred = Some c ->
                            Exists pushed evs
                            /\ Exists (fun ev => ev = (DBcredentialAddController
                                                         (cred_Path c) ctlPath, None)) evs)).
           { destruct cred as [c |].
             - eapply emits_bind;
                 [apply emits_and;
                  [apply updateControllerCredential_emits
                  | apply updateControllerCredential_calls_inside] |].
               intros pe evs (((Hs & _) & Hres & _) & Ht).
               destruct pe as [pe |].
               + apply emits_ret. rewrite app_nil_r.
                 split; [exact Hs |]. split; [exact Ht |].
                 split; [intros e He; injection He as <-; reflexivity | discriminate].
               + eapply emits_bind; [apply emits_call_err |].
                 intros e2 evs' ->.
                 destruct e2 as [e2 |]; apply emits_ret; rewrite app_nil_r;
                   (split; [apply steady_inside_app; [exact Hs | intros d; reflexivity] |]);
                   (split; [apply touches_app; split; [exact Ht | apply touches_one; kinds] |]);
                   (split; [intros e He; try discriminate; injection He as <-; reflexivity |]);
                   [discriminate |].
                 intros _ c' Hc'. injection Hc' as <-.
                 rewrite !Exists_app. split; [left; now apply Hres |].
                 right. apply Exists_cons. now left.
             - apply emits_ret. split; [apply steady_inside_nil |].
               split; [apply touches_nil |]. split; discriminate. }
           intros cerr evs3 (Hs3 & Ht3 & Hce & Hcred).
           pose proof (dialled_touches _ _ Ht3 ltac:(simpl; intuition discriminate)) as Hd3.
           assert (Hnc3 : ~ Exists (fun ev => kind (fst ev) = KCreate) evs3)
             by (apply (touches_not_Exists _ _ _ Ht3);
                 intros ev Hk Hev; rewrite Hev in Hk; simpl in Hk; intuition discriminate).
           assert (Hnc3' : ~ Exists (fun ev => kind (fst ev) = KCreate /\ snd ev <> None) evs3)
             by (apply (touches_not_Exists _ _ _ Ht3);
                 intros ev Hk [Hev _]; rewrite Hev in Hk; simpl in Hk; intuition discriminate).
           destruct cerr as [ce |].
           ++ apply emits_ret. rewrite app_nil_r.
              split; [exact Hs3 |]. split; [exact Hd3 |].
              split; [discriminate |].
              split; [intros e He Hinv; injection He as <-;
                      rewrite (Hce _ eq_refl) in Hinv; discriminate |].
              intros c Hc Hex. contradiction.
           ++ specialize (Hcred eq_refl).
              eapply emits_bind; [apply emits_api_CreateModel |].
              intros rm evs4 ->.
              destruct rm as [m | err].
              ** eapply emits_bind; [apply emits_api |].
                 intros gerr evs5 ->.
                 destruct gerr as [ge |].
                 --- eapply emits_bind; [apply emits_log |].
                     intros _ evs6 ->. apply emits_ret. rewrite !app_nil_r.
                     split; [repeat apply steady_inside_app; try exact Hs3;
                             intros d; reflexivity |].
                     split; [rewrite !dialled_app, Hd3; reflexivity |].
                     split; [discriminate |].
                     split; [intros e He Hinv; injection He as <-; discriminate |].
                     intros c Hc _. destruct (Hcred c Hc). rewrite !Exists_app. tauto.
                 --- apply emits_ret. rewrite !app_nil_r.
                     split; [repeat apply steady_inside_app; try exact Hs3;
                             intros d; reflexivity |].
                     split; [rewrite !dialled_app, Hd3; reflexivity |].
                     split.
                     { intros m' Hm. injection Hm as <-. rewrite !Exists_app. split.
                       - right. left. apply Exists_cons. left. split; reflexivity.
                       - right. right. apply Exists_cons. left. eexists. reflexivity. }
                     split; [discriminate |].
                     intros c Hc _. destruct (Hcred c Hc). rewrite !Exists_app. tauto.
              ** (* the controller refused to create the model *)
                 repeat match goal with
                        | |- emits (if ?b then _ else _) _ => destruct b
                        end;
                   apply emits_ret; rewrite !app_nil_r;
                   (split; [apply steady_inside_app; [exact Hs3 | intros d; reflexivity] |]);
                   (split; [rewrite dialled_app, Hd3; reflexivity |]);
                   (split; [discriminate |]);
                   (split; [intros; rewrite Exists_app; right; apply Exists_cons; left;
                            split; [reflexivity | discriminate] |]);
                   intros c Hc _; destruct (Hcred c Hc); rewrite !Exists_app; tauto.
        -- intros r evs3 (Hs3 & Hd3 & Hok & Hinv & Hcr).
           eapply emits_bind; [apply emits_Close |].
           intros _ evs4 ->. apply emits_ret. rewrite app_nil_r.
           split.
           { change (steady ([(AuthCheckReadACL ctlPath, None); (DBController ctlPath, e1)]
                               ++ (OpenAPI (ctl_UUID ctl), None) :: evs3 ++ [(ConnClose, None)])).
             apply steady_app; [intros d; reflexivity | now apply steady_connection]. }
           split; [rewrite !dialled_app, Hd3; reflexivity |].
           split.
           { intros m Hm. destruct (Hok m Hm). rewrite !Exists_app. tauto. }
           split.
           { intros e He Hi. specialize (Hinv e He Hi). rewrite !Exists_app. tauto. }
           intros c Hc Hex.
           assert (Hex3 : Exists (fun ev => kind (fst ev) = KCreate) evs3).
           { rewrite !Exists_app in Hex. destruct Hex as [Hex | [Hex | [Hex | Hex]]];
               [| | exact Hex |];
               exfalso; rewrite ?Exists_cons, ?Exists_nil in Hex; simpl in Hex; crack;
               discriminate. }
           destruct (Hcr c Hc Hex3). rewrite !Exists_app. tauto.
  - apply emits_ret. rewrite app_nil_r.
    destruct H1 as [(e0 & -> & _) | (e0 & ->)]; unfold created, granted; events;
      (split; [intros d; reflexivity |]); leaf.
Qed.

(** ** The loop over the candidate controllers *)

Lemma tryControllers_calls env p cred ctls :
  calls [KCheck; KLookup; KOpen; KClose; KPush; KUpdate; KCreate; KGrant; KLog]
        (JEM.tryControllers env p cred ctls).
Proof.
  induction ctls as [| c rest IH]; cbn [JEM.tryControllers]; calls_auto.
Qed.

#[local] Hint Resolve tryControllers_calls : calls.

Lemma tryControllers_emits env p cred ctls :
  emits (JEM.tryControllers env p cred ctls)
        (fun r evs =>
           steady evs
           /\ (exists rest, ctls = dialled evs ++ rest)
           /\ match r with
              | Ok (ctl, m) =>
                  (dialled evs = ctls /\ ctl = JEM.EntityPath_zero /\ m = base_ModelInfo_zero)
                  \/ (exists before, dialled evs = before ++ [ctl]
                                     /\ Exists created evs
                                     /\ Exists (granted (mi_UUID m)) evs)
              | Err e =>
                  dialled evs <> []
                  /\ Exists (fun ev => kind (fst ev) = KCreate /\ snd ev <> None) evs
              end).
Proof.
  induction ctls as [| c rest IH]; cbn [JEM.tryControllers].
  - apply emits_ret. split; [apply steady_nil |]. split; [exists []; reflexivity |].
    left. auto.
  - eapply emits_bind; [apply createModelOnController_emits |].
    intros r evs1 (Hs1 & Hd1 & Hok & Hinv & _).
    destruct r as [m | err].
    + apply emits_ret. rewrite app_nil_r. split; [exact Hs1 |].
      split; [exists rest; now rewrite Hd1 |].
      right. exists []. destruct (Hok m eq_refl). rewrite Hd1. auto.
    + destruct (Is errInvalidModelParams (Cause err)) eqn:Hc.
      * apply emits_ret. rewrite app_nil_r. split; [exact Hs1 |].
        split; [exists rest; now rewrite Hd1 |].
        split; [rewrite Hd1; discriminate | exact (Hinv err eq_refl Hc)].
      * eapply emits_bind; [apply emits_log |].
        intros _ evs2 ->.
        eapply emits_weaken; [apply IH |].
        intros r evs3 (Hs3 & (rest' & Hp3) & Hr).
        split; [repeat apply steady_app; try assumption; intros d; reflexivity |].
        rewrite !dialled_app, Hd1. simpl.
        split; [exists rest'; now rewrite Hp3 |].
        destruct r as [[ctl m] | e].
        -- destruct Hr as [(Hd & -> & ->) | (before & Hd & Hcr & Hgr)].
           ++ left. rewrite Hd. auto.
           ++ right. exists (c :: before). rewrite Hd. rewrite !Exists_app. auto.
        -- destruct Hr as [_ Hf]. split; [discriminate |]. rewrite !Exists_app. auto.
Qed.

(** ** CreateModel *)

Lemma canRead_calls env (rows : list Credential) :
  calls [KCheck] (DB.canRead (fun c => Ext.CheckCanRead env (CredentialEntity c)) rows).
Proof.
  induction rows as [| row rest IH]; cbn [DB.canRead]; calls_auto.
Qed.

#[local] Hint Resolve canRead_calls : calls.

Lemma shuffle_from_calls {A} env i : forall l : list A, calls [KSource] (Ext.shuffle_from env i l).
Proof.
  induction i as [| i IH]; intros l; cbn [Ext.shuffle_from]; calls_auto; try apply IH.
Qed.

Lemma shuffle_calls {A} env (l : list A) : calls [KSource] (Ext.shuffle env l).
Proof. apply shuffle_from_calls. Qed.

#[local] Hint Resolve shuffle_calls : calls.

Lemma selectCredential_calls env path user cloud :
  calls [KCheck; KLookup] (JEM.selectCredential env path user cloud).
Proof.
  unfold JEM.selectCredential, JEM.readableCredentials. calls_auto.
Qed.

#[local] Hint Resolve selectCredential_calls : calls.

Lemma possibleControllers_calls env ctlPath cloud region :
  calls [KCheck; KLookup; KSource] (JEM.possibleControllers env ctlPath cloud region).
Proof. unfold JEM.possibleControllers. calls_auto. Qed.

#[local] Hint Resolve possibleControllers_calls : calls.

Lemma prepare_calls env p : calls [KCheck; KSource; KLookup] (JEM.prepare env p).
Proof. unfold JEM.prepare. calls_auto. Qed.

Lemma steady_local_kinds evs :
  touches [KLookup; KReserve; KRemove; KUpdate; KCheck; KSource; KLog] evs -> steady evs.
Proof.
  induction 1 as [| [c e] evs Hc _ IH]; [apply steady_nil |].
  intros d. destruct c; simpl in Hc; try (exfalso; intuition discriminate); simpl; apply IH.
Qed.

Lemma createReserved_calls env p cred ctls doc :
  calls [KCheck; KLookup; KOpen; KClose; KPush; KUpdate; KCreate; KGrant; KLog]
        (JEM.createReserved env p cred ctls doc).
Proof. unfold JEM.createReserved. calls_auto. Qed.

Lemma createReserved_emits env p cred ctls doc :
  emits (JEM.createReserved env p cred ctls doc)
        (fun r evs =>
           steady evs
           /\ (forall m, r = Ok m ->
                 Exists created evs
                 /\ Exists (fun ev => exists id u, ev = (DBApplyModel id u, None)) evs)).
Proof.
  unfold JEM.createReserved.
  eapply emits_bind; [apply tryControllers_emits |].
  intros r evs1 (Hs1 & _ & Hr).
  destruct r as [[ctlPath modelInfo] | e].
  - destruct (String.eqb (Name ctlPath) "") eqn:Hname.
    + apply emits_ret. rewrite app_nil_r. split; [exact Hs1 | discriminate].
    + assert (Hcr : Exists created evs1).
      { destruct Hr as [(_ & -> & _) | (before & _ & Hcr & _)]; [discriminate | exact Hcr]. }
      unfold DB.ApplyModel.
      eapply emits_bind; [apply emits_call |].
      intros ra evs2 ->.
      destruct ra as [modelDoc | e].
      * unfold DB.AppendAudit.
        eapply emits_bind; [apply emits_call_err |].
        intros aerr evs3 ->.
        eapply emits_bind with
          (Q1 := fun (_ : unit) evs => steady evs).
        { destruct aerr.
          - eapply emits_weaken; [apply emits_log |]. intros _ evs ->. intros d. reflexivity.
          - apply emits_ret. apply steady_nil. }
        intros _ evs4 Hs4. apply emits_ret. rewrite app_nil_r.
        split; [repeat apply steady_app; try assumption; intros d; reflexivity |].
        intros m _. rewrite !Exists_app. split; [auto |].
        right. left. apply Exists_cons. left. eauto.
      * apply emits_ret. rewrite app_nil_r.
        split; [apply steady_app; [exact Hs1 | intros d; reflexivity] | discriminate].
  - apply emits_ret. rewrite app_nil_r. split; [exact Hs1 | discriminate].
Qed.

Lemma removeOnError_emits env doc (r : result Model) :
  emits (JEM.removeOnError env doc r)
        (fun _ evs =>
           touches [KRemove; KLog] evs
           /\ match r with
              | Ok _ => evs = []
              | Err _ => Exists (fun ev => kind (fst ev) = KRemove) evs
              end).
Proof.
  unfold JEM.removeOnError. destruct r as [m | e].
  - apply emits_ret. split; [apply touches_nil | reflexivity].
  - unfold DB.DeleteModel.
    eapply emits_bind; [apply emits_call_err |].
    intros derr evs1 ->.
    destruct derr.
    + eapply emits_weaken; [apply emits_log |]. intros _ evs ->.
      split; [repeat constructor; simpl; tauto |]. apply Exists_cons. now left.
    + apply emits_ret. split; [repeat constructor; simpl; tauto |]. apply Exists_cons. now left.
Qed.

Lemma CreateModel_emits env p :
  emits (JEM.CreateModel env p)
        (fun r evs =>
           steady evs
           /\ (exists pre post,
                  evs = pre ++ post
                  /\ touches [KCheck; KSource; KLookup] pre
                  /\ ((post = [] /\ exists e, r = Err e)
                      \/ exists doc e rest, post = (DBAddModel doc, e) :: rest))
           /\ (forall m, r = Ok m ->
                 Exists (fun ev => kind (fst ev) = KReserve /\ snd ev = None) evs
                 /\ Exists created evs
                 /\ Exists (fun ev => exists id u, ev = (DBApplyModel id u, None)) evs
                 /\ ~ Exists (fun ev => kind (fst ev) = KRemove) evs)
           /\ (forall e, r = Err e ->
                 Exists (fun ev => kind (fst ev) = KReserve /\ snd ev = None) evs ->
                 Exists (fun ev => kind (fst ev) = KRemove) evs)).
Proof.
  unfold JEM.CreateModel.
  eapply emits_bind; [apply prepare_calls |].
  intros pr pre Hpre.
  assert (Hspre : steady pre)
    by (apply steady_local_kinds; eapply touches_mono; [| exact Hpre]; incl_kinds).
  assert (Hnres : forall P : Event -> Prop,
             (forall ev, P ev -> kind (fst ev) = KReserve \/ kind (fst ev) = KRemove) ->
             ~ Exists P pre).
  { intros P HP. apply (touches_not_Exists _ _ _ Hpre). intros ev Hk Hev.
    destruct (HP ev Hev) as [H | H]; rewrite H in Hk; simpl in Hk; intuition discriminate. }
  destruct pr as [[[cred controllers] modelDoc] | e].
  - unfold DB.AddModel.
    eapply emits_bind; [apply emits_call |].
    intros ra evs1 ->.
    destruct ra as [doc | e].
    + eapply emits_bind;
        [apply emits_and; [apply createReserved_emits | apply createReserved_calls] |].
      intros r evs2 ((Hs2 & Hok) & Ht2).
      eapply emits_bind; [apply removeOnError_emits |].
      intros _ evs3 (Ht3 & Hr3). apply emits_ret. rewrite app_nil_r.
      assert (Hs3 : steady evs3)
        by (apply steady_local_kinds; eapply touches_mono; [| exact Ht3]; incl_kinds).
      split; [repeat apply steady_app; try assumption; intros d; reflexivity |].
      split; [exists pre; eexists; split; [reflexivity |]; split; [exact Hpre |];
              right; simpl; eauto |].
      split.
      * intros m ->. subst evs3. rewrite app_nil_r. destruct (Hok m eq_refl) as [Hc Ha].
        rewrite !Exists_app.
        split; [right; left; apply Exists_cons; left; split; reflexivity |].
        split; [auto |]. split; [auto |].
        intros [Hx | [Hx | Hx]].
        -- revert Hx. apply Hnres. auto.
        -- inv_exists. discriminate.
        -- revert Hx. apply (touches_not_Exists _ _ _ Ht2). intros ev Hk Hev.
           rewrite Hev in Hk. simpl in Hk. intuition discriminate.
      * intros e -> _. rewrite !Exists_app. auto.
    + apply emits_ret. rewrite app_nil_r.
      split; [apply steady_app; [exact Hspre | intros d; reflexivity] |].
      split; [exists pre; eexists; split; [reflexivity |]; split; [exact Hpre |];
              right; simpl; eauto |].
      split; [discriminate |].
      intros e' _ Hex. exfalso. apply Exists_app in Hex. destruct Hex as [Hx | Hx].
      * revert Hx. apply Hnres. intros ev [H _]. auto.
      * inv_exists. simpl in Hx. destruct Hx as [_ Hx]. discriminate.
  - apply emits_ret. rewrite app_nil_r.
    split; [exact Hspre |].
    split; [exists pre, []; rewrite app_nil_r; split; [reflexivity |]; split; [exact Hpre |];
            left; eauto |].
    split; [discriminate |].
    intros e' _ Hx. exfalso. revert Hx. apply Hnres. intros ev [H _]. auto.
Qed.

(** ** Model information *)

Lemma fetchModelInfo_calls env model :
  calls [KLookup; KOpen; KClose; KInfo; KLog] (jujuapi.fetchModelInfo env model).
Proof.
  unfold jujuapi.fetchModelInfo. calls_auto.
Qed.

#[local] Hint Resolve fetchModelInfo_calls : calls.

Lemma ErrCode_masked_deadline e :
  ErrCode (NoteMask (Some e) "" [jujuapi.IsDeadlineExceeded]) = "".
Proof.
  unfold ErrCode, NoteMask, matches. simpl.
  destruct (jujuapi.IsDeadlineExceeded (Cause e)) eqn:Hd; simpl; [| reflexivity].
  destruct (Cause e); simpl in *; try discriminate; reflexivity.
Qed.

Lemma emits_get_tick : emits get_tick (fun _ evs => evs = []).
Proof. intros w. exists []. split; [apply added_refl | reflexivity]. Qed.

Lemma runWithContext_ModelInfo_emits env uuid :
  emits (jujuapi.runWithContext env (Ext.api_ModelInfo env uuid))
        (fun r evs =>
           steady_inside evs
           /\ (forall infos, r = Ok infos ->
                 Exists (fun ev => ev = (APIModelInfo uuid, None)) evs)).
Proof.
  unfold jujuapi.runWithContext.
  eapply emits_bind; [apply emits_api_ModelInfo |].
  intros r evs1 ->.
  eapply emits_bind; [apply emits_get_tick |].
  intros t evs2 ->.
  destruct (ctx_done env t) as [cerr |].
  - eapply emits_bind with (Q1 := fun (_ : unit) evs => steady_inside evs).
    { destruct r.
      - apply emits_ret. apply steady_inside_nil.
      - eapply emits_weaken; [apply emits_log |]. intros _ evs ->. intros d. reflexivity. }
    intros _ evs3 Hs3. apply emits_ret. rewrite app_nil_r. simpl.
    split; [| discriminate].
    apply (steady_inside_app [_]); [intros d; reflexivity | exact Hs3].
  - destruct r as [infos | e]; apply emits_ret; simpl;
      (split; [intros d; reflexivity |]); [| discriminate].
    intros infos' _. apply Exists_cons. now left.
Qed.

Lemma fetchModelInfo_emits env model :
  emits (jujuapi.fetchModelInfo env model)
        (fun r evs =>
           steady evs
           /\ (forall e, r = Err e -> ErrCode e <> "" ->
                 (exists msg, e = EApi (ErrCode e) msg)
                 /\ Exists (fun ev => ev = (APIModelInfo (UUID model), None)) evs)).
Proof.
  unfold jujuapi.fetchModelInfo.
  eapply emits_bind; [apply emits_OpenAPI |].
  intros oerr evs1 H1.
  destruct oerr as [oe |].
  - apply emits_ret. rewrite app_nil_r.
    split.
    + destruct H1 as [(e & -> & _) | (u & ->)]; intros d; reflexivity.
    + intros e He Hcode. injection He as <-. rewrite ErrCode_masked_deadline in Hcode.
      contradiction.
  - destruct H1 as [(e & _ & Hf) | (u & ->)]; [congruence |].
    eapply emits_bind with
      (Q1 := fun r evs =>
               steady_inside evs
               /\ (forall e, r = Err e -> ErrCode e <> "" ->
                     (exists msg, e = EApi (ErrCode e) msg)
                     /\ Exists (fun ev => ev = (APIModelInfo (UUID model), None)) evs)).
    + eapply emits_bind; [apply runWithContext_ModelInfo_emits |].
      intros ri evs2 (Hs2 & Hok).
      destruct ri as [infos | e].
      * specialize (Hok infos eq_refl).
        destruct infos as [| info [| info' rest]];
          [ | destruct (mir_Error info) as [[code msg] |] | ];
          apply emits_ret; rewrite app_nil_r; (split; [exact Hs2 |]);
          intros e He Hcode; try discriminate; injection He as <-;
          try (exfalso; apply Hcode; reflexivity).
        split; [eexists; reflexivity | exact Hok].
      * apply emits_ret. rewrite app_nil_r. split; [exact Hs2 |].
        intros e' He Hcode. injection He as <-. rewrite ErrCode_masked_deadline in Hcode.
        contradiction.
    + intros r evs2 (Hs2 & Hcode).
      eapply emits_bind; [apply emits_Close |].
      intros _ evs3 ->. apply emits_ret. rewrite app_nil_r.
      split.
      { change (steady ([(DBController (Controller_ model), None)]
                          ++ (OpenAPI u, None) :: evs2 ++ [(ConnClose, None)])).
        apply steady_app; [intros d; reflexivity | now apply steady_connection]. }
      intros e He Hc. destruct (Hcode e He Hc) as [Hm Hex].
      split; [exact Hm |]. rewrite !Exists_app. auto.
Qed.

Lemma getModel_calls env PM PC PCC tag :
  calls [KLookup; KCheck; KOpen; KClose; KInfo; KLog; KUpdate]
        (jujuapi.getModel env PM PC PCC tag).
Proof. unfold jujuapi.getModel. calls_auto. Qed.

#[local] Hint Resolve getModel_calls : calls.

Lemma getModel_emits env PM PC PCC tag :
  emits (jujuapi.getModel env PM PC PCC tag) (fun _ evs => steady evs).
Proof.
  unfold jujuapi.getModel.
  destruct (PM tag) as [id | e]; [| apply emits_ret; apply steady_nil].
  unfold DB.ModelFromUUID.
  eapply emits_bind; [apply emits_call |].
  intros rm evs1 ->.
  assert (H1 : forall e, steady [(DBModelFromUUID id, e)]) by (intros e d; reflexivity).
  destruct rm as [model | e]; [| apply emits_ret; rewrite app_nil_r; apply H1].
  unfold Ext.CheckCanRead.
  eapply emits_bind; [apply emits_check |].
  intros aerr evs2 ->.
  assert (H2 : forall e, steady [(AuthCheckCanRead (ModelEntity model), e)])
    by (intros e d; reflexivity).
  destruct aerr as [ae |];
    [apply emits_ret; rewrite app_nil_r; apply steady_app; [apply H1 | apply H2] |].
  destruct (negb (String.eqb (Cloud__ model) ""));
    [apply emits_ret; rewrite app_nil_r; apply steady_app; [apply H1 | apply H2] |].
  eapply emits_bind; [apply fetchModelInfo_emits |].
  intros ri evs3 (Hs3 & _).
  assert (H3 : steady ([(DBModelFromUUID id, DB.err_of (Ok model))]
                         ++ [(AuthCheckCanRead (ModelEntity model), None)] ++ evs3))
    by (repeat apply steady_app; auto).
  destruct ri as [info | e];
    [| apply emits_ret; rewrite app_nil_r; exact H3].
  destruct (PC (cmi_CloudTag info)) as [cloud | e];
    [| apply emits_ret; rewrite app_nil_r; exact H3].
  destruct (PCC (cmi_CloudCredentialTag info)) as [[[credCloud credOwner] credName] | e];
    [| apply emits_ret; rewrite app_nil_r; exact H3].
  destruct (jujuapi.user credOwner) as [owner | e];
    [| apply emits_ret; rewrite app_nil_r; exact H3].
  unfold DB.UpdateLegacyModel.
  eapply emits_bind; [apply emits_call_err |].
  intros uerr evs4 ->.
  eapply emits_bind with (Q1 := fun (_ : unit) evs => steady evs).
  { destruct uerr.
    - eapply emits_weaken; [apply emits_log |]. intros _ evs ->. intros d. reflexivity.
    - apply emits_ret. apply steady_nil. }
  intros _ evs5 Hs5. apply emits_ret. rewrite app_nil_r.
  repeat apply steady_app; auto. intros d. reflexivity.
Qed.

Lemma modelDocToModelInfo_calls env NU PV r model :
  calls [KLookup; KCheck; KLog] (jujuapi.modelDocToModelInfo env NU PV r model).
Proof. unfold jujuapi.modelDocToModelInfo, jujuapi.modelVersion. calls_auto. Qed.

#[local] Hint Resolve modelDocToModelInfo_calls : calls.

Lemma iterUsers_calls {S} ks IV NU users
      (f : User -> ModelUserInfo -> S -> M S) :
  In KLog ks ->
  (forall u ui s, calls ks (f u ui s)) ->
  forall s, calls ks (jujuapi.iterUsers IV NU users f s).
Proof.
  intros Hlog Hf.
  induction users as [| ui users IH]; intros s; cbn [jujuapi.iterUsers].
  - apply calls_ret.
  - destruct (negb (IV (UserName ui))).
    + apply calls_bind; [apply calls_emit; exact Hlog | intros _; apply IH].
    + destruct (jujuapi.user (NU (UserName ui))) as [u | e]; [| apply IH].
      apply calls_bind; [apply Hf | intros s'; apply IH].
Qed.

Lemma isModelAdmin_calls env IV NU users :
  calls [KCheck; KLog] (jujuapi.isModelAdmin env IV NU users).
Proof.
  unfold jujuapi.isModelAdmin. apply iterUsers_calls; [kinds |].
  intros u ui admin. calls_auto.
Qed.

Lemma filterUsers_calls env IV NU users admin :
  calls [KCheck; KLog] (jujuapi.filterUsers env IV NU users admin).
Proof.
  unfold jujuapi.filterUsers. apply iterUsers_calls; [kinds |].
  intros u ui filtered. calls_auto.
Qed.

#[local] Hint Resolve isModelAdmin_calls filterUsers_calls : calls.

Lemma modelInfo_calls env PM PC PCC IV NU PV r tag (localOnly : bool) :
  calls [KLookup; KCheck; KOpen; KClose; KInfo; KLog; KUpdate; KRemove]
        (jujuapi.modelInfo env PM PC PCC IV NU PV r tag localOnly).
Proof. unfold jujuapi.modelInfo. calls_auto. Qed.

Lemma Cause_masked_three u msg a b c :
  let e := NoteMask (Some u) msg [Is a; Is b; Is c] in
  Cause e = e \/ Cause e = ECode a \/ Cause e = ECode b \/ Cause e = ECode c.
Proof.
  unfold NoteMask, matches. simpl.
  assert (Hi : forall x, Is x (Cause u) = true -> Cause u = ECode x).
  { intros x Hx. destruct (Cause u); try discriminate. simpl in Hx.
    apply bool_decide_eq_true in Hx. now subst. }
  destruct (Is a (Cause u)) eqn:Ha; simpl; [right; left; auto |].
  destruct (Is b (Cause u)) eqn:Hb; simpl; [right; right; left; auto |].
  destruct (Is c (Cause u)) eqn:Hc; simpl; [right; right; right; auto |].
  now left.
Qed.

Lemma modelInfo_emits env PM PC PCC IV NU PV r tag (localOnly : bool) :
  emits (jujuapi.modelInfo env PM PC PCC IV NU PV r tag localOnly)
        (fun res evs =>
           steady evs
           /\ (forall e, res = Err e ->
                 Cause e = e \/ Cause e = ECode ErrBadRequest
                 \/ Cause e = ECode ErrUnauthorized \/ Cause e = ECode ErrNotFound)
           /\ (Exists (fun ev => kind (fst ev) = KRemove) evs ->
               localOnly = false
               /\ (exists e, res = Err e /\ Cause e = ECode ErrUnauthorized)
               /\ Exists (fun ev => exists uuid, ev = (APIModelInfo uuid, None)) evs)).
Proof.
  unfold jujuapi.modelInfo.
  eapply emits_bind;
    [apply emits_and; [apply getModel_emits | apply getModel_calls] |].
  intros rm evs1 (Hs1 & Ht1).
  assert (Hn1 : ~ Exists (fun ev => kind (fst ev) = KRemove) evs1)
    by (apply (touches_not_Exists _ _ _ Ht1); intros ev Hk Hev; rewrite Hev in Hk;
        simpl in Hk; intuition discriminate).
  destruct rm as [model | e].
  - eapply emits_bind; [apply modelDocToModelInfo_calls |].
    intros ri evs2 Ht2.
    assert (Hs2 : steady evs2)
      by (apply steady_local_kinds; eapply touches_mono; [| exact Ht2]; incl_kinds).
    assert (Hn2 : ~ Exists (fun ev => kind (fst ev) = KRemove) evs2)
      by (apply (touches_not_Exists _ _ _ Ht2); intros ev Hk Hev; rewrite Hev in Hk;
          simpl in Hk; intuition discriminate).
    destruct ri as [info | e].
    + destruct localOnly.
      * apply emits_ret. rewrite app_nil_r.
        split; [now apply steady_app |]. split; [discriminate |].
        intros Hx. apply Exists_app in Hx. tauto.
      * eapply emits_bind;
          [apply emits_and; [apply fetchModelInfo_emits | apply fetchModelInfo_calls] |].
        intros rc evs3 ((Hs3 & Hcode) & Ht3).
        assert (Hn3 : ~ Exists (fun ev => kind (fst ev) = KRemove) evs3)
          by (apply (touches_not_Exists _ _ _ Ht3); intros ev Hk Hev; rewrite Hev in Hk;
              simpl in Hk; intuition discriminate).
        destruct rc as [cinfo | err].
        -- eapply emits_bind; [apply isModelAdmin_calls |].
           intros admin evs4 Ht4.
           eapply emits_bind; [apply filterUsers_calls |].
           intros users evs5 Ht5.
           assert (Hs4 : steady evs4)
             by (apply steady_local_kinds; eapply touches_mono; [| exact Ht4]; incl_kinds).
           assert (Hs5 : steady evs5)
             by (apply steady_local_kinds; eapply touches_mono; [| exact Ht5]; incl_kinds).
           assert (Hn4 : ~ Exists (fun ev => kind (fst ev) = KRemove) evs4)
             by (apply (touches_not_Exists _ _ _ Ht4); intros ev Hk Hev;
                 rewrite Hev in Hk; simpl in Hk; intuition discriminate).
           assert (Hn5 : ~ Exists (fun ev => kind (fst ev) = KRemove) evs5)
             by (apply (touches_not_Exists _ _ _ Ht5); intros ev Hk Hev;
                 rewrite Hev in Hk; simpl in Hk; intuition discriminate).
           apply emits_ret. rewrite app_nil_r.
           split; [repeat apply steady_app; assumption |]. split; [discriminate |].
           intros Hx. rewrite !Exists_app in Hx. tauto.
        -- destruct (String.eqb (Life model) "dying"
                     && String.eqb (ErrCode err) jujuapi.CodeUnauthorized) eqn:Hreap.
           ++ apply andb_true_iff in Hreap. destruct Hreap as [_ Hcu].
              apply String.eqb_eq in Hcu.
              destruct (Hcode err eq_refl) as [_ Hinfo];
                [rewrite Hcu; discriminate |].
              eapply emits_bind; [apply emits_log |].
              intros _ evs4 ->.
              unfold DB.DeleteModelWithUUID.
              eapply emits_bind; [apply emits_call_err |].
              intros derr evs5 ->.
              eapply emits_bind with (Q1 := fun (_ : unit) evs => steady evs).
              { destruct derr.
                - eapply emits_weaken; [apply emits_log |]. intros _ evs ->.
                  intros d. reflexivity.
                - apply emits_ret. apply steady_nil. }
              intros _ evs6 Hs6. apply emits_ret. rewrite app_nil_r.
              split; [repeat apply steady_app; try assumption; intros d; reflexivity |].
              split; [intros e He; injection He as <-; simpl; auto |].
              intros _. split; [reflexivity |]. split; [eexists; split; reflexivity |].
              rewrite !Exists_app. right. right. left.
              eapply Exists_impl; [exact Hinfo |]. intros ev ->. eauto.
           ++ eapply emits_bind; [apply emits_log |].
              intros _ evs4 ->. apply emits_ret. rewrite app_nil_r.
              split; [repeat apply steady_app; try assumption; intros d; reflexivity |].
              split; [discriminate |].
              intros Hx. rewrite !Exists_app in Hx.
              destruct Hx as [Hx | [Hx | [Hx | Hx]]]; try tauto.
              inv_exists. discriminate.
    + apply emits_ret. rewrite app_nil_r.
      split; [now apply steady_app |].
      split; [intros e' He; injection He as <-; left; reflexivity |].
      intros Hx. apply Exists_app in Hx. tauto.
  - apply emits_ret. rewrite app_nil_r.
    split; [exact Hs1 |].
    split; [intros e' He; injection He as <-; apply Cause_masked_three |].
    intros Hx. tauto.
Qed.

(** ** modelInfo: reaping a dying model *)

Section ModelInfoFacts.
Variable env : Env.
Variable ParseModelTag : string -> result string.
Variable ParseCloudTag : string -> result string.
Variable ParseCloudCredentialTag : string -> result (string * jujuapi.UserTag * string).
Variable IsValidUser : string -> bool.
Variable NewUserTag : string -> jujuapi.UserTag.
Variable ParseVersion : string -> result string.

Local Abbreviation getModel :=
  (jujuapi.getModel env ParseModelTag ParseCloudTag ParseCloudCredentialTag).
Local Abbreviation modelInfo :=
  (jujuapi.modelInfo env ParseModelTag ParseCloudTag ParseCloudCredentialTag
                     IsValidUser NewUserTag ParseVersion).

(** C7.  Reaping a dying model.  Take a [modelInfo] request that is
    not local-only and has loaded the row and built the local
    information, and let the connection to the controller of the model
    be open.

    - When the life of the row is "dying", the [ModelInfo] call is
      delivered before the context is done, and the reply is a single
      entry whose error has the code [unauthorized access], the
      request asks the store to delete the rows with the model's
      (controller, UUID) and returns an error with cause Unauthorized.
      A failure of the delete is only logged; when the store serves
      it, no row with that (controller, UUID) is left and the other
      rows stay.
    - When the call itself fails, whatever the code of its error and
      the life of the row, the request returns the local information
      without an error and leaves the store as it is.

    A request that cannot load the row fails with the error of
    [getModel], masked, after the calls of [getModel] alone, none of
    which removes anything. *)
Theorem modelInfo_reaps_dying_model (r : jujuapi.controllerRoot) (tag : string) (w : World) :
  (forall model info entry msg w1 w2 wa,
      getModel tag w = (Ok model, w1) ->
      jujuapi.modelDocToModelInfo env NewUserTag ParseVersion r model w1 = (Ok info, w2) ->
      JEM.OpenAPI env (Controller_ model) w2 = (None, wa) ->
      Life model = "dying" ->
      api_fault env (tick wa) = None ->
      ctx_done env (S (tick wa)) = None ->
      api_model_infos env (tick wa) = [entry] ->
      mir_Error entry = Some (jujuapi.CodeUnauthorized, msg) ->
      exists e w4 derr,
        modelInfo r tag false w = (Err e, w4)
        /\ Cause e = ECode ErrUnauthorized
        /\ added wa w4
             ((APIModelInfo (UUID model), None)
                :: (ConnClose, None)
                :: (LogMsg "info" "could not get ModelInfo for dying model, marking dead",
                    None)
                :: (DBDeleteModelWithUUID (Controller_ model) (UUID model), derr)
                :: logged "warn" "error deleting model" derr)
        /\ (derr = None ->
            models (store w4)
            = filter (fun m => negb (DB.has_uuid (Controller_ model) (UUID model) m))
                     (models (store wa))
            /\ Forall (fun m => ~ (Controller_ m = Controller_ model
                                   /\ UUID m = UUID model))
                      (models (store w4))))
  /\ (forall model info e0 w1 w2 wa,
        getModel tag w = (Ok model, w1) ->
        jujuapi.modelDocToModelInfo env NewUserTag ParseVersion r model w1 = (Ok info, w2) ->
        JEM.OpenAPI env (Controller_ model) w2 = (None, wa) ->
        api_fault env (tick wa) = Some e0 ->
        exists w4,
          modelInfo r tag false w = (Ok info, w4)
          /\ added wa w4
               ((APIModelInfo (UUID model), Some e0)
                  :: match ctx_done env (S (tick wa)) with
                     | Some _ => [(LogMsg "info" "error in canceled task", None)]
                     | None => []
                     end
                  ++ [(ConnClose, None);
                      (LogMsg "error" "failed to get ModelInfo from controller", None)])
          /\ store w4 = store wa)
  /\ (forall e w1,
        getModel tag w = (Err e, w1) ->
        modelInfo r tag false w
        = (Err (NoteMask (Some e) "" [Is ErrBadRequest; Is ErrUnauthorized; Is ErrNotFound]),
           w1)
        /\ exists evs,
             added w w1 evs
             /\ Forall (fun ev => kind (fst ev) <> KRemove) evs).
Proof.
  split; [| split].
  - intros model info entry msg w1 w2 wa Hget Hlocal Hopen Hlife Hcall Hctx Hreply Hentry.
    unfold jujuapi.modelInfo, bind.
    rewrite Hget, Hlocal. simpl.
    unfold jujuapi.fetchModelInfo, bind. rewrite Hopen.
    unfold jujuapi.runWithContext, bind, Ext.api_ModelInfo. rewrite Hcall, Hreply.
    simpl. rewrite Hctx. run. rewrite Hentry. run.
    rewrite Hlife. run.
    unfold DB.DeleteModelWithUUID. run.
    match goal with
    | |- context [db_fault env ?t] => destruct (db_fault env t) as [de |] eqn:Hdel
    end; run.
    + eexists _, _, (Some de). split; [reflexivity |].
      split; [reflexivity |]. split; [| discriminate].
      simpl. rewrite <- !app_assoc. reflexivity.
    + eexists _, _, None. split; [reflexivity |].
      split; [reflexivity |]. split.
      * simpl. rewrite <- !app_assoc. reflexivity.
      * intros _. simpl. split; [reflexivity |].
        apply Forall_forall. intros m Hm.
        apply list_elem_of_filter in Hm. destruct Hm as [Hm _].
        intros [Hc Hu]. unfold DB.has_uuid in Hm.
        rewrite !bool_decide_eq_true_2 in Hm by assumption. exact Hm.
  - intros model info e0 w1 w2 wa Hget Hlocal Hopen Hcall.
    unfold jujuapi.modelInfo, bind.
    rewrite Hget, Hlocal. simpl.
    unfold jujuapi.fetchModelInfo, bind. rewrite Hopen.
    unfold jujuapi.runWithContext, bind, Ext.api_ModelInfo. rewrite Hcall.
    simpl.
    destruct (ctx_done env (S (tick wa))) as [cerr |]; run;
      rewrite ErrCode_masked_deadline; rewrite andb_false_r; run;
      (eexists; split; [reflexivity |]; split; [| reflexivity]);
      rewrite <- !app_assoc; reflexivity.
  - intros e w1 Hget.
    unfold jujuapi.modelInfo, bind. rewrite Hget. split; [reflexivity |].
    destruct (getModel_calls env ParseModelTag ParseCloudTag ParseCloudCredentialTag tag w)
      as (evs & Ha & Ht).
    rewrite Hget in Ha. simpl in Ha. exists evs. split; [exact Ha |].
    unfold touches in Ht. eapply Forall_impl; [exact Ht |]. cbv beta.
    intros ev Hin Hk. rewrite Hk in Hin.
    simpl in Hin. intuition discriminate.
Qed.

End ModelInfoFacts.

Lemma modelInfo_reaps_dying_model_witness :
  let env := Examples.with_model_infos [Examples.refused] Examples.calm in
  exists e w4,
    MoreExamples.ask env Examples.two_models = (Err e, w4)
    /\ Cause e = ECode ErrUnauthorized
    /\ models (store w4) = [Examples.model "new" "77c1" "alive"].
Proof.
  intros env.
  set (w := Examples.start Examples.two_models).
  set (get := jujuapi.getModel env (Examples.parse_tag "model") (Examples.parse_tag "cloud")
                               Examples.no_credential_tags "model-0f5a" w).
  set (model := Examples.model "old" "0f5a" "dying").
  set (local := jujuapi.modelDocToModelInfo env MoreExamples.plain_tag
                                            MoreExamples.any_version Examples.root model
                                            (snd get)).
  set (conn := JEM.OpenAPI env (Controller_ model) (snd local)).
  destruct (proj1 (modelInfo_reaps_dying_model
                     env (Examples.parse_tag "model") (Examples.parse_tag "cloud")
                     Examples.no_credential_tags MoreExamples.any_user
                     MoreExamples.plain_tag MoreExamples.any_version
                     Examples.root "model-0f5a" w)
                  model
                  (Examples.value
                     {| jujuapi.r_Name := ""; jujuapi.r_UUID := "";
                        jujuapi.r_ControllerUUID := ""; jujuapi.r_ProviderType := "";
                        jujuapi.r_DefaultSeries := ""; jujuapi.r_Cloud := "";
                        jujuapi.r_CloudRegion := "";
                        jujuapi.r_CloudCredential := JEM.CredentialPath_zero;
                        jujuapi.r_Owner := ""; jujuapi.r_Life := "";
                        jujuapi.r_Status := jujuapi.modelStatus None;
                        jujuapi.r_Users := []; jujuapi.r_Machines := [];
                        jujuapi.r_AgentVersion := None; jujuapi.r_Type := "" |}
                     (fst local))
                  Examples.refused "permission denied"
                  (snd get) (snd local) (snd conn))
    as (e & w4 & derr & Hrun & Hcause & Hadded & Hdel).
  - vm_compute. reflexivity.
  - vm_compute. reflexivity.
  - vm_compute. reflexivity.
  - vm_compute. reflexivity.
  - vm_compute. reflexivity.
  - vm_compute. reflexivity.
  - vm_compute. reflexivity.
  - vm_compute. reflexivity.
  - exists e, w4. split; [exact Hrun |]. split; [exact Hcause |].
    assert (Hd : derr = None).
    { vm_compute in Hrun. inversion Hrun; subst.
      vm_compute in Hadded.
      destruct derr; [discriminate Hadded | reflexivity]. }
    destruct (Hdel Hd) as [Hm _]. rewrite Hm. vm_compute. reflexivity.
Defined.

(** C7, counterexample.  Not every query that fails with the code
    [unauthorized access] reaps a dying model.  When the [ModelInfo]
    call itself fails with that code, [fetchModelInfo] masks the
    error: the request returns the local information without an error
    and the row stays.  When the row has no cloud details, [getModel]
    queries the controller first; a reply entry with that code fails
    the request with an error that has no cause, and the row stays. *)
Lemma modelInfo_dying_model_not_reaped :
  let dying := Examples.model "old" "0f5a" "dying" in
  let fresh := Examples.model "new" "77c1" "alive" in
  (let run := MoreExamples.ask (MoreExamples.call_denied 6) Examples.two_models in
   models Examples.two_models = [dying; fresh]
   /\ Life dying = "dying"
   /\ ErrCode MoreExamples.denied = jujuapi.CodeUnauthorized
   /\ trace (snd run)
      = [(DBModelFromUUID "0f5a", None);
         (AuthCheckCanRead (ModelEntity dying), None);
         (DBMachinesForModel "0f5a", None);
         (AuthCheckIsAdmin (ModelEntity dying), None);
         (DBController Examples.ctl1, None);
         (OpenAPI "uuid-1", None);
         (APIModelInfo "0f5a", Some MoreExamples.denied);
         (ConnClose, None);
         (LogMsg "error" "failed to get ModelInfo from controller", None)]
   /\ (exists info, fst run = Ok info)
   /\ ~ (exists e, fst run = Err e /\ Cause e = ECode ErrUnauthorized)
   /\ models (store (snd run)) = [dying; fresh])
  /\ (let env := Examples.with_model_infos [Examples.refused] Examples.calm in
      let run := MoreExamples.ask env MoreExamples.legacy_models in
      models MoreExamples.legacy_models = [MoreExamples.legacy; fresh]
      /\ Life MoreExamples.legacy = "dying"
      /\ Cloud__ MoreExamples.legacy = ""
      /\ (forall t, api_model_infos env t = [Examples.refused])
      /\ mir_Error Examples.refused = Some (jujuapi.CodeUnauthorized, "permission denied")
      /\ trace (snd run)
         = [(DBModelFromUUID "0f5a", None);
            (AuthCheckCanRead (ModelEntity MoreExamples.legacy), None);
            (DBController Examples.ctl1, None);
            (OpenAPI "uuid-1", None);
            (APIModelInfo "0f5a", None);
            (ConnClose, None)]
      /\ (exists e, fst run = Err e /\ Cause e = e /\ Cause e <> ECode ErrUnauthorized)
      /\ models (store (snd run)) = [MoreExamples.legacy; fresh]).
Proof.
  intros dying fresh. split.
  - intros run. vm_compute in run.
    do 4 (split; [reflexivity |]).
    split; [eexists; reflexivity |].
    split; [intros (e & He & _); discriminate He | reflexivity].
  - intros env run. vm_compute in run.
    do 6 (split; [reflexivity |]).
    split; [| reflexivity].
    eexists. split; [reflexivity |]. split; [reflexivity | discriminate].
Qed.

(** ** What the model lifecycle does, as theorems *)

(** X12.  [createModelOnController] asks for the controller document
    with an access check, once.  It closes the connection it opens on
    every return path and makes its upstream calls inside it.  A model
    it returns has been created upstream and the controller admin has
    been granted admin access to it.  An error with the cause
    [errInvalidModelParams] comes from a refused upstream
    [CreateModel].  With a credential, no upstream [CreateModel] is
    attempted before the credential has been pushed to the controller
    and recorded as deployed there.  It makes no call of any other
    kind; in particular it removes nothing. *)
Theorem createModelOnController_discipline env ctlPath p cred w :
  exists evs,
    added w (snd (JEM.createModelOnController env ctlPath p cred w)) evs
    /\ steady evs
    /\ dialled evs = [ctlPath]
    /\ (forall m, fst (JEM.createModelOnController env ctlPath p cred w) = Ok m ->
          Exists created evs /\ Exists (granted (mi_UUID m)) evs)
    /\ (forall e, fst (JEM.createModelOnController env ctlPath p cred w) = Err e ->
          Is errInvalidModelParams (Cause e) = true ->
          Exists (fun ev => kind (fst ev) = KCreate /\ snd ev <> None) evs)
    /\ (forall c, cred = Some c ->
          Exists (fun ev => kind (fst ev) = KCreate) evs ->
          Exists pushed evs
          /\ Exists (fun ev => ev = (DBcredentialAddController (cred_Path c) ctlPath, None)) evs)
    /\ touches [KCheck; KLookup; KOpen; KClose; KPush; KUpdate; KCreate; KGrant; KLog] evs.
Proof.
  destruct (emits_and _ _ _ (createModelOnController_emits env ctlPath p cred)
                      (createModelOnController_calls env ctlPath p cred) w)
    as (evs & Ha & (H1 & H2 & H3 & H4 & H5) & H6).
  exists evs. auto 10.
Qed.

(** X13.  The loop of [CreateModel] over the candidate controllers
    tries them in the order of the list, each at most once, and none
    after the one that took the model.  It ends with the controller
    tried last, on which the model has then been created and admin
    access granted; or with the zero path, when every candidate has
    been tried; or with an error, after an upstream [CreateModel] was
    refused.  Every connection opened along the way is closed. *)
Theorem tryControllers_in_order env p cred ctls w :
  exists evs,
    added w (snd (JEM.tryControllers env p cred ctls w)) evs
    /\ steady evs
    /\ (exists rest, ctls = dialled evs ++ rest)
    /\ match fst (JEM.tryControllers env p cred ctls w) with
       | Ok (ctl, m) =>
           (dialled evs = ctls /\ ctl = JEM.EntityPath_zero /\ m = base_ModelInfo_zero)
           \/ (exists before, dialled evs = before ++ [ctl]
                              /\ Exists created evs
                              /\ Exists (granted (mi_UUID m)) evs)
       | Err e =>
           dialled evs <> []
           /\ Exists (fun ev => kind (fst ev) = KCreate /\ snd ev <> None) evs
       end.
Proof. exact (tryControllers_emits env p cred ctls w). Qed.

(** X14.  [CreateModel].  Everything it does before the reservation of
    the model row is an identity check, a lookup or a draw from a
    process-wide source, and a request rejected at that stage returns
    an error without any write or upstream call.  A model is returned
    only after the row was reserved, the model created upstream and
    the row updated, and then nothing is removed.  An error after a
    successful reservation comes with an attempt to remove the row.
    Every connection opened is closed, whatever the outcome. *)
Theorem CreateModel_stages env p w :
  exists evs,
    added w (snd (JEM.CreateModel env p w)) evs
    /\ steady evs
    /\ (exists pre post,
           evs = pre ++ post
           /\ touches [KCheck; KSource; KLookup] pre
           /\ ((post = [] /\ exists e, fst (JEM.CreateModel env p w) = Err e)
               \/ exists doc e rest, post = (DBAddModel doc, e) :: rest))
    /\ (forall m, fst (JEM.CreateModel env p w) = Ok m ->
          Exists (fun ev => kind (fst ev) = KReserve /\ snd ev = None) evs
          /\ Exists created evs
          /\ Exists (fun ev => exists id u, ev = (DBApplyModel id u, None)) evs
          /\ ~ Exists (fun ev => kind (fst ev) = KRemove) evs)
    /\ (forall e, fst (JEM.CreateModel env p w) = Err e ->
          Exists (fun ev => kind (fst ev) = KReserve /\ snd ev = None) evs ->
          Exists (fun ev => kind (fst ev) = KRemove) evs).
Proof. exact (CreateModel_emits env p w). Qed.

(** X15.  [fetchModelInfo] closes the connection it opens on every
    return path, and makes only lookups, the upstream [ModelInfo] call
    and log entries.  An error it returns carries a wire code only when
    the call was delivered and the single entry of the reply carried
    that code: a failure to connect, a failed or cancelled call and a
    reply of the wrong length all come back without a code. *)
Theorem fetchModelInfo_code env model w :
  exists evs,
    added w (snd (jujuapi.fetchModelInfo env model w)) evs
    /\ steady evs
    /\ touches [KLookup; KOpen; KClose; KInfo; KLog] evs
    /\ (forall e, fst (jujuapi.fetchModelInfo env model w) = Err e -> ErrCode e <> "" ->
          (exists msg, e = EApi (ErrCode e) msg)
          /\ Exists (fun ev => ev = (APIModelInfo (UUID model), None)) evs).
Proof.
  destruct (emits_and _ _ _ (fetchModelInfo_emits env model)
                      (fetchModelInfo_calls env model) w)
    as (evs & Ha & (H1 & H2) & H3).
  exists evs. auto.
Qed.

(** X16.  [modelInfo].  The cause of an error it returns is
    [params.ErrBadRequest], [params.ErrUnauthorized] or
    [params.ErrNotFound], or the error has no cause of its own.  It
    removes a model row only when asked for more than the local
    information, after a delivered upstream [ModelInfo] call, and then
    it returns an error with the cause [params.ErrUnauthorized]: any
    other failure to reach the controller removes nothing.  It closes
    every connection it opens, and it never creates, destroys or
    reserves a model, pushes a credential or grants access. *)
Theorem modelInfo_contract env ParseModelTag ParseCloudTag ParseCloudCredentialTag
        IsValidUser NewUserTag ParseVersion r tag (localOnly : bool) w :
  exists evs,
    added w (snd (jujuapi.modelInfo env ParseModelTag ParseCloudTag ParseCloudCredentialTag
                                    IsValidUser NewUserTag ParseVersion
                                    r tag localOnly w)) evs
    /\ steady evs
    /\ touches [KLookup; KCheck; KOpen; KClose; KInfo; KLog; KUpdate; KRemove] evs
    /\ (forall e, fst (jujuapi.modelInfo env ParseModelTag ParseCloudTag
                                         ParseCloudCredentialTag IsValidUser NewUserTag
                                         ParseVersion r tag localOnly w) = Err e ->
          Cause e = e \/ Cause e = ECode ErrBadRequest
          \/ Cause e = ECode ErrUnauthorized \/ Cause e = ECode ErrNotFound)
    /\ (Exists (fun ev => kind (fst ev) = KRemove) evs ->
        localOnly = false
        /\ (exists e, fst (jujuapi.modelInfo env ParseModelTag ParseCloudTag
                                             ParseCloudCredentialTag IsValidUser NewUserTag
                                             ParseVersion r tag localOnly w) = Err e
                      /\ Cause e = ECode ErrUnauthorized)
        /\ Exists (fun ev => exists uuid, ev = (APIModelInfo uuid, None)) evs).
Proof.
  destruct (emits_and _ _ _
              (modelInfo_emits env ParseModelTag ParseCloudTag ParseCloudCredentialTag
                               IsValidUser NewUserTag ParseVersion r tag localOnly)
              (modelInfo_calls env ParseModelTag ParseCloudTag ParseCloudCredentialTag
                               IsValidUser NewUserTag ParseVersion r tag localOnly) w)
    as (evs & Ha & (H1 & H2 & H3) & H4).
  exists evs. auto.
Qed.

(** ** UpdateCredential *)

Lemma waitPushes_returns env c path sched :
  forall n running w,
    n <= reports sched ->
    fst (JEM.waitPushes env c path sched n running w) = Some tt.
Proof.
  induction sched as [| s sched IH]; intros n running w Hn.
  - destruct n; simpl in *; [reflexivity | lia].
  - destruct n as [| n]; [reflexivity |].
    destruct s; simpl in Hn |- *.
    + unfold bind.
      destruct (match running with
                | ctlPath :: _ => JEM.push env c path ctlPath
                | [] => ret tt
                end w) as [[] w1].
      apply IH. lia.
    + apply IH. exact Hn.
Qed.

(** X17.  Once the local update and the re-read of the credential have
    succeeded, [UpdateCredential] returns exactly when the [select]
    has received a report from the goroutine of every controller the
    credential is deployed to, and then it returns nil.  How often the
    cancelled context is observed makes no difference; with no
    controller it returns at once. *)
Theorem UpdateCredential_returns_iff env sched cred w w1 c w2 :
  DB.updateCredential env cred w = (None, w1) ->
  DB.Credential env (cred_Path cred) w1 = (Ok c, w2) ->
  (fst (JEM.UpdateCredential env sched cred w) = Some None
   <-> length (cred_Controllers c) <= reports sched)
  /\ (fst (JEM.UpdateCredential env sched cred w) = None
      <-> reports sched < length (cred_Controllers c)).
Proof.
  intros Hupd Hget.
  destruct (UpdateCredential_returns_with_loop env sched cred w w1 c w2 Hupd Hget)
    as [w3 Hr].
  rewrite Hr.
  destruct (le_lt_dec (length (cred_Controllers c)) (reports sched)) as [Hle | Hlt].
  - rewrite (waitPushes_returns env c (cred_Path cred) sched _ _ w3 Hle).
    split; split; intros H; try reflexivity; try assumption; try discriminate; lia.
  - destruct (JEM.waitPushes env c (cred_Path cred) sched (length (cred_Controllers c))
                             (cred_Controllers c) w3) as [[[] |] w4] eqn:Hw; simpl.
    + apply waitPushes_needs_every_report in Hw. lia.
    + split; split; intros H; try reflexivity; try assumption; try discriminate; lia.
Qed.

Lemma UpdateCredential_returns_iff_witness :
  let cred := Examples.credential Examples.alice_aws [Examples.ctl1] in
  let w := Examples.start Examples.three_credentials in
  let w1 := snd (DB.updateCredential Examples.calm cred w) in
  let w2 := snd (DB.Credential Examples.calm (cred_Path cred) w1) in
  DB.updateCredential Examples.calm cred w = (None, w1)
  /\ DB.Credential Examples.calm (cred_Path cred) w1 = (Ok cred, w2)
  /\ fst (JEM.UpdateCredential Examples.calm [JEM.CtxDone; JEM.RecvCh; JEM.CtxDone] cred w)
     = Some None.
Proof.
  intros cred w w1 w2.
  assert (H1 : DB.updateCredential Examples.calm cred w = (None, w1))
    by (vm_compute; reflexivity).
  assert (H2 : DB.Credential Examples.calm (cred_Path cred) w1 = (Ok cred, w2))
    by (vm_compute; reflexivity).
  split; [exact H1 |]. split; [exact H2 |].
  apply (proj1 (UpdateCredential_returns_iff Examples.calm
                  [JEM.CtxDone; JEM.RecvCh; JEM.CtxDone] cred w w1 cred w2 H1 H2)).
  simpl. lia.
Defined.

Lemma push_calls env c credPath ctlPath :
  calls [KLookup; KOpen; KClose; KPush; KUpdate; KLog] (JEM.push env c credPath ctlPath).
Proof. unfold JEM.push. calls_auto. Qed.

#[local] Hint Resolve push_calls : calls.

Lemma push_emits env c credPath ctlPath :
  emits (JEM.push env c credPath ctlPath)
        (fun _ evs =>
           steady evs
           /\ Forall (fun ev => push_for ctlPath credPath (Some c) (fst ev)) evs).
Proof.
  unfold JEM.push.
  eapply emits_bind; [apply updateControllerCredential_emits |].
  intros err evs1 (Hs1 & _ & Hp1 & _).
  destruct err.
  - eapply emits_weaken; [apply emits_log |]. intros _ evs ->.
    split; [apply steady_app; [exact Hs1 | intros d; reflexivity] |].
    rewrite Forall_app. split; [exact Hp1 | repeat constructor].
  - apply emits_ret. rewrite app_nil_r. auto.
Qed.

Lemma waitPushes_calls env c credPath sched :
  forall n running,
    calls [KLookup; KOpen; KClose; KPush; KUpdate; KLog]
          (JEM.waitPushes env c credPath sched n running).
Proof.
  induction sched as [| s sched IH]; intros n running; destruct n as [| n];
    cbn [JEM.waitPushes]; calls_auto; apply IH.
Qed.

#[local] Hint Resolve waitPushes_calls : calls.

Lemma waitPushes_emits env c credPath sched :
  forall n running,
    emits (JEM.waitPushes env c credPath sched n running)
          (fun _ evs =>
             steady evs
             /\ Forall (fun ev => exists ctlPath,
                                    In ctlPath running
                                    /\ push_for ctlPath credPath (Some c) (fst ev)) evs).
Proof.
  induction sched as [| s sched IH]; intros n running; destruct n as [| n];
    cbn [JEM.waitPushes]; try (apply emits_ret; split; [apply steady_nil | constructor]).
  destruct s.
  - eapply emits_bind with
      (Q1 := fun (_ : unit) evs =>
               steady evs
               /\ Forall (fun ev => exists ctlPath,
                                      In ctlPath running
                                      /\ push_for ctlPath credPath (Some c) (fst ev)) evs).
    { destruct running as [| ctlPath rest].
      - apply emits_ret. split; [apply steady_nil | constructor].
      - eapply emits_weaken; [apply push_emits |]. intros _ evs [Hs Hp].
        split; [exact Hs |]. eapply Forall_impl; [exact Hp |].
        intros ev Hev. exists ctlPath. split; [now left | exact Hev]. }
    intros _ evs1 [Hs1 Hp1].
    eapply emits_weaken; [apply IH |]. intros r evs2 [Hs2 Hp2].
    split; [now apply steady_app |].
    rewrite Forall_app. split; [exact Hp1 |].
    eapply Forall_impl; [exact Hp2 |]. intros ev (ctlPath & Hin & Hev).
    exists ctlPath. split; [| exact Hev]. destruct running; [destruct Hin | now right].
  - apply IH.
Qed.

Lemma UpdateCredential_calls env sched cred :
  calls [KLookup; KOpen; KClose; KPush; KUpdate; KLog] (JEM.UpdateCredential env sched cred).
Proof. unfold JEM.UpdateCredential. calls_auto. Qed.

Lemma push_for_any ctlPath credPath cred c :
  push_for ctlPath credPath cred c -> push_for ctlPath credPath None c.
Proof.
  destruct c; simpl; try tauto; intros [H _]; (split; [exact H | discriminate]).
Qed.

Lemma UpdateCredential_emits env sched cred :
  emits (JEM.UpdateCredential env sched cred)
        (fun _ evs =>
           steady evs
           /\ (Exists (fun ev => kind (fst ev) = KPush) evs ->
               Exists (fun ev => ev = (DBupdateCredential cred, None)) evs
               /\ Exists (fun ev => ev = (DBCredential (cred_Path cred), None)) evs)
           /\ Forall (fun ev => exists ctlPath,
                                  push_for ctlPath (cred_Path cred) None (fst ev)) evs).
Proof.
  unfold JEM.UpdateCredential, DB.updateCredential, DB.Credential, DB.setCredentialUpdates.
  eapply emits_bind; [apply emits_call_err |].
  intros uerr evs1 ->.
  destruct uerr as [ue |].
  - apply emits_ret. rewrite app_nil_r.
    split; [intros d; reflexivity |].
    split; [intros Hx; inv_exists; discriminate |].
    repeat constructor. exists JEM.EntityPath_zero. exact I.
  - eapply emits_bind; [apply emits_call |].
    intros rc evs2 ->.
    destruct rc as [c | e].
    + eapply emits_bind; [apply emits_call_err |].
      intros serr evs3 ->.
      eapply emits_bind with
        (Q1 := fun (_ : unit) evs => evs = [] \/ exists l m, evs = [(LogMsg l m, None)]).
      { destruct serr.
        - eapply emits_weaken; [apply emits_log |]. intros _ evs ->. right. eauto.
        - apply emits_ret. now left. }
      intros _ evs4 Hlog.
      eapply emits_bind; [apply waitPushes_emits |].
      intros done evs5 [Hs5 Hp5].
      assert (H4 : steady evs4
                   /\ Forall (fun ev => exists ctlPath : EntityPath,
                                          push_for ctlPath (cred_Path cred) None (fst ev)) evs4).
      { destruct Hlog as [-> | (l & m & ->)].
        - split; [apply steady_nil | constructor].
        - split; [intros d; reflexivity |].
          repeat constructor. exists JEM.EntityPath_zero. exact I. }
      destruct H4 as [Hs4 Hp4].
      destruct done; apply emits_ret; rewrite app_nil_r;
        (split; [repeat apply steady_app; try assumption; intros d; reflexivity |]);
        (split;
         [intros _; split;
          [apply Exists_app; left; apply Exists_cons; now left
          | apply Exists_app; right; apply Exists_app; left; apply Exists_cons; now left] |]);
        rewrite !Forall_app;
        (split; [repeat constructor; exists JEM.EntityPath_zero; exact I |]);
        (split; [repeat constructor; exists JEM.EntityPath_zero; exact I |]);
        (split; [repeat constructor; exists JEM.EntityPath_zero; exact I |]);
        (split; [exact Hp4 |]);
        (eapply Forall_impl; [exact Hp5 |]); intros ev (ctlPath & _ & Hev);
        exists ctlPath; eapply push_for_any; exact Hev.
    + apply emits_ret. rewrite app_nil_r.
      split; [intros d; reflexivity |].
      split; [intros Hx; inv_exists; discriminate |].
      repeat constructor; exists JEM.EntityPath_zero; exact I.
Qed.

(** X18.  [UpdateCredential] pushes nothing before the local update
    and the re-read of the credential have succeeded; every push it
    makes and every pending flag it clears is for the path of the
    credential it was given; every goroutine closes the connection it
    opens; and besides lookups, updates of the store and log entries it
    makes no other call. *)
Theorem UpdateCredential_pushes env sched cred w :
  exists evs,
    added w (snd (JEM.UpdateCredential env sched cred w)) evs
    /\ steady evs
    /\ touches [KLookup; KOpen; KClose; KPush; KUpdate; KLog] evs
    /\ (Exists (fun ev => kind (fst ev) = KPush) evs ->
        Exists (fun ev => ev = (DBupdateCredential cred, None)) evs
        /\ Exists (fun ev => ev = (DBCredential (cred_Path cred), None)) evs)
    /\ Forall (fun ev => exists ctlPath,
                           push_for ctlPath (cred_Path cred) None (fst ev)) evs.
Proof.
  destruct (emits_and _ _ _ (UpdateCredential_emits env sched cred)
                      (UpdateCredential_calls env sched cred) w)
    as (evs & Ha & (H1 & H2 & H3) & H4).
  exists evs. auto.
Qed.

(* ===================================================================== *)
(** * Further properties: the monitor                                     *)
(* ===================================================================== *)

Lemma sweep_nil_covers Clock_Now acquireLease ctls :
  forall m m',
    monitor.sweep Clock_Now acquireLease ctls m = (None, m') ->
    Forall (covered Clock_Now acquireLease m' (monitor.ownerId m)) ctls.
Proof.
  induction ctls as [| ctl rest IH]; intros m m' H; [constructor |].
  pose proof (sweep_sound Clock_Now acquireLease _ _ _ _ H) as (_ & Hmono & _).
  cbn [monitor.sweep] in H.
  destruct (monitor.is_monitoring m (ctl_Path ctl)) eqn:Hmon.
  { constructor; [left; auto | exact (IH _ _ H)]. }
  destruct (negb (String.eqb (MonitorLeaseOwner ctl) (monitor.ownerId m))) eqn:Hother;
    cbn [andb] in H.
  - destruct (monitor.Before (Clock_Now (monitor.mtick m)) (MonitorLeaseExpiry ctl)) eqn:Hb.
    + constructor; [| exact (IH _ _ H)].
      right. left. split; [| eauto].
      intros Heq. rewrite Heq, String.eqb_refl in Hother. discriminate.
    + destruct (acquireLease _ _ _ _ _) as [newExpiry | err] eqn:Hacq.
      * pose proof (sweep_sound Clock_Now acquireLease _ _ _ _ H) as (_ & Hmono' & _).
        constructor; [| exact (IH _ _ H)].
        left. apply Hmono'. rewrite is_monitoring_step, is_monitoring_set.
        destruct (decide (ctl_Path ctl = ctl_Path ctl)); [reflexivity | contradiction].
      * destruct (monitor.isMonitoringStoppedError (Some err)) eqn:Hs; [| discriminate].
        constructor; [| exact (IH _ _ H)].
        right. right. eauto.
  - destruct (acquireLease _ _ _ _ _) as [newExpiry | err] eqn:Hacq.
    + pose proof (sweep_sound Clock_Now acquireLease _ _ _ _ H) as (_ & Hmono' & _).
      constructor; [| exact (IH _ _ H)].
      left. apply Hmono'. rewrite is_monitoring_step, is_monitoring_set.
      destruct (decide (ctl_Path ctl = ctl_Path ctl)); [reflexivity | contradiction].
    + destruct (monitor.isMonitoringStoppedError (Some err)) eqn:Hs; [| discriminate].
      constructor; [| exact (IH _ _ H)].
      right. right. eauto.
Qed.

Lemma sweep_error_source Clock_Now acquireLease ctls :
  forall m e m',
    monitor.sweep Clock_Now acquireLease ctls m = (Some e, m') ->
    exists ctl t e0,
      In ctl ctls
      /\ acquireLease t (ctl_Path ctl) (MonitorLeaseExpiry ctl) (MonitorLeaseOwner ctl)
                      (monitor.ownerId m) = Err e0
      /\ monitor.isMonitoringStoppedError (Some e0) = false
      /\ e = Notef (Some e0) "cannot acquire lease".
Proof.
  induction ctls as [| ctl rest IH]; intros m e m' H; [discriminate |].
  assert (Hrest : forall m1, monitor.ownerId m1 = monitor.ownerId m ->
                             monitor.sweep Clock_Now acquireLease rest m1 = (Some e, m') ->
                             exists ctl0 t e0,
                               In ctl0 (ctl :: rest)
                               /\ acquireLease t (ctl_Path ctl0) (MonitorLeaseExpiry ctl0)
                                               (MonitorLeaseOwner ctl0) (monitor.ownerId m)
                                  = Err e0
                               /\ monitor.isMonitoringStoppedError (Some e0) = false
                               /\ e = Notef (Some e0) "cannot acquire lease").
  { intros m1 Hown H1. destruct (IH _ _ _ H1) as (c & t & e0 & Hin & Ha & Hs & He).
    rewrite Hown in Ha. exists c, t, e0. split; [now right | auto]. }
  cbn [monitor.sweep] in H.
  destruct (monitor.is_monitoring m (ctl_Path ctl)); [eapply Hrest; [| exact H]; reflexivity |].
  assert (Hown1 : monitor.ownerId
                    (if negb (String.eqb (MonitorLeaseOwner ctl) (monitor.ownerId m))
                     then monitor.step monitor.ClockNow m else m) = monitor.ownerId m)
    by (destruct (negb _); reflexivity).
  destruct (negb (String.eqb (MonitorLeaseOwner ctl) (monitor.ownerId m))
            && monitor.Before (Clock_Now (monitor.mtick m)) (MonitorLeaseExpiry ctl));
    [eapply Hrest; [| exact H]; simpl; first [reflexivity | exact Hown1] |].
  destruct (acquireLease _ _ _ _ _) as [newExpiry | err] eqn:Hacq;
    [eapply Hrest; [| exact H]; simpl; first [reflexivity | exact Hown1] |].
  destruct (monitor.isMonitoringStoppedError (Some err)) eqn:Hs;
    [eapply Hrest; [| exact H]; simpl; first [reflexivity | exact Hown1] |].
  injection H as <- _. exists ctl. eexists _, err.
  split; [now left |]. split; [exact Hacq |]. split; [exact Hs | reflexivity].
Qed.

(** X19.  A sweep that returns nil has dealt with every controller of
    the list: the controller is monitored afterwards, or another owner
    held an unexpired lease on it, or another replica took the lease
    first.  A sweep that returns an error has failed to take the lease
    of a listed controller for another reason than that, and reports
    this failure. *)
Theorem sweep_outcome Clock_Now acquireLease ctls m :
  match fst (monitor.sweep Clock_Now acquireLease ctls m) with
  | None =>
      Forall (covered Clock_Now acquireLease
                      (snd (monitor.sweep Clock_Now acquireLease ctls m))
                      (monitor.ownerId m)) ctls
  | Some e =>
      exists ctl t e0,
        In ctl ctls
        /\ acquireLease t (ctl_Path ctl) (MonitorLeaseExpiry ctl) (MonitorLeaseOwner ctl)
                        (monitor.ownerId m) = Err e0
        /\ monitor.isMonitoringStoppedError (Some e0) = false
        /\ e = Notef (Some e0) "cannot acquire lease"
  end.
Proof.
  destruct (monitor.sweep Clock_Now acquireLease ctls m) as [[e |] m'] eqn:H; simpl.
  - exact (sweep_error_source _ _ _ _ _ _ H).
  - exact (sweep_nil_covers _ _ _ _ _ H).
Qed.

Lemma drain_spec removed : forall m,
  (fst (supervision.drain removed m) = true ->
   monitor.monitoring (snd (supervision.drain removed m)) = ∅)
  /\ (fst (supervision.drain removed m) = true
      <-> forall p, is_Some (monitor.monitoring m !! p) -> In p removed)
  /\ monitor.ownerId (snd (supervision.drain removed m)) = monitor.ownerId m
  /\ monitor.steps (snd (supervision.drain removed m)) = monitor.steps m.
Proof.
  induction removed as [| q rest IH]; intros m; cbn [supervision.drain].
  - destruct (size (monitor.monitoring m) =? 0)%nat eqn:Hsz; simpl.
    + apply Nat.eqb_eq, map_size_empty_iff in Hsz.
      split; [auto |]. split; [| auto].
      split; [| reflexivity]. intros _ p Hp. rewrite Hsz, lookup_empty in Hp.
      destruct Hp; discriminate.
    + split; [discriminate |]. split; [| auto].
      split; [discriminate |]. intros Hall. exfalso.
      apply Nat.eqb_neq in Hsz. apply Hsz, map_size_empty_iff, map_empty.
      intros p. destruct (monitor.monitoring m !! p) eqn:Hp; [| reflexivity].
      destruct (Hall p); eauto.
  - destruct (size (monitor.monitoring m) =? 0)%nat eqn:Hsz; simpl.
    + apply Nat.eqb_eq, map_size_empty_iff in Hsz.
      split; [auto |]. split; [| auto].
      split; [| reflexivity]. intros _ p Hp. rewrite Hsz, lookup_empty in Hp.
      destruct Hp; discriminate.
    + destruct (IH (supervision.delete_monitoring q m)) as (He & Hiff & Hown & Hst).
      split; [exact He |]. split; [| auto].
      rewrite Hiff. simpl. split.
      * intros Hall p Hp. destruct (decide (q = p)) as [-> | Hne]; [now left |].
        right. apply Hall. rewrite lookup_delete_ne by exact Hne. exact Hp.
      * intros Hall p Hp. apply lookup_delete_is_Some in Hp. destruct Hp as [Hne Hp].
        destruct (Hall p Hp) as [Heq | Hin]; [contradiction | exact Hin].
Qed.

Lemma waitLoop_returns jemAll Clock_Now acquireLease sched : forall m e,
  fst (supervision.waitLoop jemAll Clock_Now acquireLease sched m) = Some e ->
  (e = supervision.ErrDying
   /\ monitor.monitoring (snd (supervision.waitLoop jemAll Clock_Now acquireLease sched m)) = ∅
   /\ exists removed, In (supervision.Dying removed) sched)
  \/ exists err, e = Notef (Some err) "cannot start monitors".
Proof.
  induction sched as [| s rest IH]; intros m e H; [discriminate |].
  destruct s as [ctlId | | removed]; cbn [supervision.waitLoop] in H |- *.
  - destruct (IH _ _ H) as [(He & Hm & rm & Hin) | Herr]; [left | right; exact Herr].
    split; [exact He |]. split; [exact Hm |]. exists rm. now right.
  - destruct (monitor.startMonitors jemAll Clock_Now acquireLease m) as [[err |] m'].
    + right. injection H as <-. eauto.
    + destruct (IH _ _ H) as [(He & Hm & rm & Hin) | Herr]; [left | right; exact Herr].
      split; [exact He |]. split; [exact Hm |]. exists rm. now right.
  - pose proof (drain_spec removed m) as (Hempty & _).
    destruct (supervision.drain removed m) as [[|] m']; [| discriminate].
    left. injection H as <-. split; [reflexivity |]. split; [now apply Hempty |].
    exists removed. now left.
Qed.

(** X20.  [allMonitor.run] returns only with [tomb.ErrDying] or with
    the error of a sweep.  It returns [tomb.ErrDying] only after the
    tomb was dying and with an empty monitoring set, that is, after
    every controller monitor has reported its termination; and the
    loop that waits for these reports ends exactly when the reports
    received cover the monitoring set. *)
Theorem allMonitor_run_returns jemAll Clock_Now acquireLease sched m :
  (forall e,
      fst (supervision.run jemAll Clock_Now acquireLease sched m) = Some e ->
      (e = supervision.ErrDying
       /\ monitor.monitoring (snd (supervision.run jemAll Clock_Now acquireLease sched m)) = ∅
       /\ exists removed, In (supervision.Dying removed) sched)
      \/ exists err, e = Notef (Some err) "cannot start monitors")
  /\ (forall removed m0,
         fst (supervision.drain removed m0) = true
         <-> forall p, is_Some (monitor.monitoring m0 !! p) -> In p removed).
Proof.
  split.
  - intros e. unfold supervision.run.
    destruct (monitor.startMonitors jemAll Clock_Now acquireLease m) as [[err |] m'].
    + intros H. right. injection H as <-. eauto.
    + apply waitLoop_returns.
  - intros removed m0. apply drain_spec.
Qed.

Lemma Monitor_run_round (st : pool.State) :
  pool_balanced st ->
  pool.closed (pool.the_pool st) = false ->
  exists shim st1 st2,
    pool.JEM st = Some (shim, st1)
    /\ pool.JEM_Close shim st1 = Some st2
    /\ pool.refCount (pool.the_pool st1) = (pool.refCount (pool.the_pool st) + 1)%Z
    /\ pool.closed (pool.the_pool st1) = false
    /\ pool_balanced st1
    /\ pool.refCount (pool.the_pool st2) = pool.refCount (pool.the_pool st)
    /\ pool.closed (pool.the_pool st2) = false
    /\ open_jems st2 = open_jems st
    /\ pool_balanced st2.
Proof.
  intros Hb Hc.
  destruct (pool.JEM st) as [[shim st1] |] eqn:HJ;
    [| unfold pool.JEM in HJ; rewrite Hc in HJ; discriminate].
  assert (Hb1 : pool_balanced st1)
    by (apply (pool_balanced_step st pool.DoJEM); [exact Hb | simpl; now rewrite HJ]).
  unfold pool.JEM in HJ. rewrite Hc in HJ. injection HJ as <- <-.
  destruct st as [[db c n k] l]. simpl in *. subst c.
  destruct Hb as [Hn Hk]. simpl in Hn, Hk.
  assert (Hpos : (1 <= n)%Z) by (unfold open_jems in Hn; simpl in Hn; lia).
  assert (Hclose : pool.JEM_Close (length l)
                     {| pool.the_pool := {| pool.dbName := db; pool.closed := false;
                                            pool.refCount := n + 1;
                                            pool.cacheCloses := k |};
                        pool.jems := l ++ [false] |}
                   = Some {| pool.the_pool := {| pool.dbName := db; pool.closed := false;
                                                 pool.refCount := n;
                                                 pool.cacheCloses := k |};
                             pool.jems := l ++ [true] |}).
  { unfold pool.JEM_Close, pool.decRef. simpl.
    rewrite lookup_app_r by lia. rewrite Nat.sub_diag. simpl.
    replace (n + 1 - 1)%Z with n by lia.
    destruct (n <? 0)%Z eqn:Hneg; [apply Z.ltb_lt in Hneg; lia |].
    destruct (n =? 0)%Z eqn:Hz; [apply Z.eqb_eq in Hz; lia |].
    rewrite insert_app_r_alt by lia. rewrite Nat.sub_diag. reflexivity. }
  eexists _, _, _. split; [reflexivity |]. split; [exact Hclose |]. simpl.
  split; [reflexivity |]. split; [reflexivity |]. split; [exact Hb1 |].
  split; [reflexivity |]. split; [reflexivity |].
  assert (Ho : length (filter (fun c : bool => negb c) (l ++ [true]))
               = length (filter (fun c : bool => negb c) l))
    by (rewrite open_jems_app; lia).
  split; [exact Ho |].
  unfold pool_balanced, open_jems in *. simpl in *. rewrite Ho. split; [exact Hn | exact Hk].
Qed.

(** X21.  [Monitor.run] on an open pool never panics.  While it runs
    it holds exactly one instance of the pool; when it returns, which
    it does only with [tomb.ErrDying], it has closed every instance it
    took: the reference count and the number of open instances are as
    it found them.  On a closed pool it panics at once. *)
Theorem Monitor_run_pool sched : forall st,
  pool_balanced st ->
  match supervision.Monitor_run sched st with
  | supervision.Panicked => pool.closed (pool.the_pool st) = true
  | supervision.Running st' =>
      pool.closed (pool.the_pool st) = false
      /\ pool.refCount (pool.the_pool st') = (pool.refCount (pool.the_pool st) + 1)%Z
      /\ pool_balanced st'
  | supervision.Returned err st' =>
      pool.closed (pool.the_pool st) = false
      /\ err = supervision.ErrDying
      /\ pool.refCount (pool.the_pool st') = pool.refCount (pool.the_pool st)
      /\ open_jems st' = open_jems st
      /\ pool_balanced st'
  end.
Proof.
  induction sched as [| s rest IH]; intros st Hb;
    destruct (pool.closed (pool.the_pool st)) eqn:Hc;
    try (destruct sched; cbn [supervision.Monitor_run]; unfold pool.JEM; rewrite Hc;
         reflexivity);
    try (cbn [supervision.Monitor_run]; unfold pool.JEM; rewrite Hc; reflexivity);
    destruct (Monitor_run_round st Hb Hc)
      as (shim & st1 & st2 & HJ & HC & Hr1 & Hc1 & Hb1 & Hr2 & Hc2 & Ho2 & Hb2);
    cbn [supervision.Monitor_run]; rewrite HJ.
  - auto.
  - destruct s; rewrite HC.
    + specialize (IH st2 Hb2).
      destruct (supervision.Monitor_run rest st2) as [| st' | err st'].
      * congruence.
      * destruct IH as (_ & Hr & Hb'). rewrite Hr, Hr2. auto.
      * destruct IH as (_ & He & Hr & Ho & Hb'). rewrite Hr, Hr2, Ho, Ho2. auto.
    + auto 6.
Qed.

Lemma Monitor_run_pool_witness :
  let st := {| pool.the_pool := {| pool.dbName := "jem"; pool.closed := false;
                                    pool.refCount := 1;
                                   pool.cacheCloses := 0 |};
               pool.jems := [true] |} in
  pool_balanced st
  /\ exists st',
      supervision.Monitor_run [supervision.InnerDead; supervision.InnerDead;
                               supervision.OuterDying] st
      = supervision.Returned supervision.ErrDying st'
      /\ open_jems st' = open_jems st.
Proof.
  intros st.
  assert (Hb : pool_balanced st) by (split; reflexivity).
  split; [exact Hb |].
  pose proof (Monitor_run_pool [supervision.InnerDead; supervision.InnerDead;
                                supervision.OuterDying] st Hb) as H.
  destruct (supervision.Monitor_run _ st) as [| st' | err st'] eqn:Hrun;
    [discriminate H | discriminate Hrun |].
  destruct H as (_ & -> & _ & Ho & _). exists st'. split; [reflexivity | exact Ho].
Defined.

(* ===================================================================== *)
(** * Further properties: getModel and the reply of modelInfo             *)
(* ===================================================================== *)

Lemma Cause_Notef u msg : Cause (Notef u msg) = Notef u msg.
Proof. unfold Notef, NoteMask, matches. destruct u; reflexivity. Qed.

Lemma Cause_masked_one u msg a :
  Cause (NoteMask (Some u) msg [Is a]) = ECode ErrUnauthorized -> a = ErrUnauthorized.
Proof.
  unfold NoteMask, matches. simpl.
  destruct (Is a (Cause u)) eqn:Ha; simpl; [| discriminate].
  destruct (Cause u); try discriminate. simpl in Ha. apply bool_decide_eq_true in Ha.
  intros H. congruence.
Qed.

Lemma getModel_causes env PM PC PCC tag :
  emits (jujuapi.getModel env PM PC PCC tag)
        (fun r evs =>
           (forall e0, PM tag = Err e0 ->
                       evs = [] /\ exists e, r = Err e /\ Cause e = ECode ErrBadRequest)
           /\ (Exists (fun ev => kind (fst ev) = KUpdate) evs -> exists model, r = Ok model)
           /\ (forall e, r = Err e -> Cause e = ECode ErrUnauthorized ->
                         Exists (fun ev => kind (fst ev) = KCheck /\ snd ev <> None) evs)).
Proof.
  unfold jujuapi.getModel.
  destruct (PM tag) as [id | e0].
  2:{ apply emits_ret. split; [intros e1 _; split; [reflexivity |]; eauto |].
      split; [intros Hx; inversion Hx |]. intros e He Hc. injection He as <-. discriminate. }
  unfold DB.ModelFromUUID.
  eapply emits_bind; [apply emits_call |].
  intros rm evs1 ->.
  destruct rm as [model | e].
  2:{ apply emits_ret. rewrite app_nil_r. split; [discriminate |].
      split; [intros Hx; inv_exists; discriminate |].
      intros e' He Hc. injection He as <-. apply Cause_masked_one in Hc. discriminate. }
  unfold Ext.CheckCanRead.
  eapply emits_bind; [apply emits_check |].
  intros aerr evs2 ->.
  destruct aerr as [ae |].
  { apply emits_ret. rewrite app_nil_r. split; [discriminate |].
    split; [intros Hx; inv_exists; discriminate |].
    intros e' _ _. apply Exists_app. right. apply Exists_cons. left.
    split; [reflexivity | discriminate]. }
  destruct (negb (String.eqb (Cloud__ model) "")).
  { apply emits_ret. rewrite app_nil_r. split; [discriminate |].
    split; [intros Hx; inv_exists; discriminate | discriminate]. }
  eapply emits_bind; [apply fetchModelInfo_calls |].
  intros ri evs3 Ht3.
  assert (Hn3 : ~ Exists (fun ev => kind (fst ev) = KUpdate) evs3)
    by (apply (touches_not_Exists _ _ _ Ht3); intros ev Hk Hev; rewrite Hev in Hk;
        simpl in Hk; intuition discriminate).
  assert (Hnone : forall (evs : list Event),
             Exists (fun ev => kind (fst ev) = KUpdate)
                    ([(DBModelFromUUID id, DB.err_of (Ok model))]
                       ++ [(AuthCheckCanRead (ModelEntity model), None)] ++ evs3 ++ []) ->
             False).
  { intros _ Hx. rewrite app_nil_r in Hx. inv_exists; try discriminate. contradiction. }
  destruct ri as [info | e];
    [| apply emits_ret; split; [discriminate |];
       split; [intros Hx; exfalso; exact (Hnone [] Hx) |];
       intros e' He Hc; injection He as <-; discriminate].
  destruct (PC (cmi_CloudTag info)) as [cloud | e];
    [| apply emits_ret; split; [discriminate |];
       split; [intros Hx; exfalso; exact (Hnone [] Hx) |];
       intros e' He Hc; injection He as <-; rewrite Cause_Notef in Hc; discriminate].
  destruct (PCC (cmi_CloudCredentialTag info)) as [[[credCloud credOwner] credName] | e];
    [| apply emits_ret; split; [discriminate |];
       split; [intros Hx; exfalso; exact (Hnone [] Hx) |];
       intros e' He Hc; injection He as <-; rewrite Cause_Notef in Hc; discriminate].
  destruct (jujuapi.user credOwner) as [owner | e];
    [| apply emits_ret; split; [discriminate |];
       split; [intros Hx; exfalso; exact (Hnone [] Hx) |];
       intros e' He Hc; injection He as <-; apply Cause_masked_one in Hc; discriminate].
  unfold DB.UpdateLegacyModel.
  eapply emits_bind; [apply emits_call_err |].
  intros uerr evs4 ->.
  eapply emits_bind with (Q1 := fun (_ : unit) (evs : list Event) => True).
  { destruct uerr; [eapply emits_weaken; [apply emits_log |]; auto | apply emits_ret; auto]. }
  intros _ evs5 _. apply emits_ret.
  split; [discriminate |]. split; [eauto | discriminate].
Qed.

(** X22.  [getModel].  An invalid model tag is rejected with the cause
    [params.ErrBadRequest] before any call is made.  An error with the
    cause [params.ErrUnauthorized] comes from a refusal of the access
    check only.  The cloud details of a model stored without them are
    written back only on the way to returning the model, and a failure
    of that write does not fail the call.  Every connection opened is
    closed, and nothing is removed, created, destroyed or pushed. *)
Theorem getModel_contract env ParseModelTag ParseCloudTag ParseCloudCredentialTag tag w :
  exists evs,
    added w (snd (jujuapi.getModel env ParseModelTag ParseCloudTag ParseCloudCredentialTag
                                   tag w)) evs
    /\ steady evs
    /\ touches [KLookup; KCheck; KOpen; KClose; KInfo; KLog; KUpdate] evs
    /\ (forall e0, ParseModelTag tag = Err e0 ->
          evs = []
          /\ exists e, fst (jujuapi.getModel env ParseModelTag ParseCloudTag
                                             ParseCloudCredentialTag tag w) = Err e
                       /\ Cause e = ECode ErrBadRequest)
    /\ (Exists (fun ev => kind (fst ev) = KUpdate) evs ->
        exists model, fst (jujuapi.getModel env ParseModelTag ParseCloudTag
                                            ParseCloudCredentialTag tag w) = Ok model)
    /\ (forall e, fst (jujuapi.getModel env ParseModelTag ParseCloudTag
                                        ParseCloudCredentialTag tag w) = Err e ->
          Cause e = ECode ErrUnauthorized ->
          Exists (fun ev => kind (fst ev) = KCheck /\ snd ev <> None) evs).
Proof.
  destruct (emits_and _ _ _
              (emits_and _ _ _
                 (getModel_emits env ParseModelTag ParseCloudTag ParseCloudCredentialTag tag)
                 (getModel_calls env ParseModelTag ParseCloudTag ParseCloudCredentialTag tag))
              (getModel_causes env ParseModelTag ParseCloudTag ParseCloudCredentialTag tag) w)
    as (evs & Ha & (H1 & H2) & H3 & H4 & H5).
  exists evs. auto 10.
Qed.

Lemma insert_sorted_In x s l :
  In x (jujuapi.insert_sorted s l) <-> x = s \/ In x l.
Proof.
  induction l as [| y l IH]; simpl; [intuition congruence |].
  destruct (String.leb s y); simpl; [intuition congruence |]. rewrite IH. tauto.
Qed.

Lemma sort_Strings_In x l : In x (jujuapi.sort_Strings l) <-> In x l.
Proof.
  unfold jujuapi.sort_Strings.
  induction l as [| y l IH]; simpl; [tauto |].
  rewrite insert_sorted_In, IH. intuition congruence.
Qed.

Lemma assign_lookup (access : string) (users : list string) :
  forall (m : gmap string string) (k : string),
    foldl (fun m user => <[user := access]> m) m users !! k
    = if bool_decide (k ∈ users) then Some access else m !! k.
Proof.
  induction users as [| u users IH]; intros m k; cbn [foldl].
  - rewrite bool_decide_eq_false_2 by apply not_elem_of_nil. reflexivity.
  - rewrite IH.
    destruct (bool_decide (k ∈ users)) eqn:Hin.
    + apply bool_decide_eq_true in Hin.
      rewrite bool_decide_eq_true_2 by (apply elem_of_cons; tauto). reflexivity.
    + apply bool_decide_eq_false in Hin.
      destruct (decide (u = k)) as [-> | Hne].
      * rewrite bool_decide_eq_true_2 by (apply elem_of_cons; tauto).
        apply lookup_insert_eq.
      * rewrite bool_decide_eq_false_2
          by (rewrite elem_of_cons; intros [H | H]; [congruence | contradiction]).
        apply lookup_insert_ne. exact Hne.
Qed.

(** The level [modelDocToModelInfo] gives a user: the owner
    administers the model, and of the lists of the ACL the admin list
    counts before the write list, and the write list before the read
    list. *)
Lemma userLevels_lookup model (k : string) :
  jujuapi.userLevels model !! k
  = if bool_decide (k = User_ (Path model)) then Some jujuapi.ModelAdminAccess
    else if bool_decide (k ∈ Admin (model_ACL model)) then Some jujuapi.ModelAdminAccess
    else if bool_decide (k ∈ Write (model_ACL model)) then Some jujuapi.ModelWriteAccess
    else if bool_decide (k ∈ Read (model_ACL model)) then Some jujuapi.ModelReadAccess
    else None.
Proof.
  unfold jujuapi.userLevels.
  destruct (bool_decide (k = User_ (Path model))) eqn:Hk.
  - apply bool_decide_eq_true in Hk. subst k. apply lookup_insert_eq.
  - apply bool_decide_eq_false in Hk.
    rewrite lookup_insert_ne by congruence.
    rewrite !assign_lookup. rewrite lookup_empty. reflexivity.
Qed.

Lemma modelVersion_emits PV info :
  emits (jujuapi.modelVersion PV info)
        (fun _ evs =>
           evs = []
           \/ (evs = [(LogMsg "warn" "cannot parse agent-version", None)]
               /\ exists i v e, info = Some i /\ AgentVersion i = Some v /\ PV v = Err e)).
Proof.
  unfold jujuapi.modelVersion.
  destruct info as [i |]; [| apply emits_ret; now left].
  destruct (AgentVersion i) as [v |] eqn:Hv; simpl; [| apply emits_ret; now left].
  destruct (String.eqb v ""); [apply emits_ret; now left |].
  destruct (PV v) as [n | e] eqn:Hparse; [apply emits_ret; now left |].
  eapply emits_bind; [apply emits_log |]. intros _ evs ->.
  apply emits_ret. right. split; [reflexivity |]. exists i, v, e. auto.
Qed.

Ltac pieces :=
  repeat match goal with
         | |- _ /\ _ => split
         | |- _ -> _ => intro
         | |- forall _, _ => intro
         end;
  first [ discriminate
        | assumption
        | match goal with
          | H : Exists _ (_ ++ _) |- _ => rewrite !Exists_app in H; tauto
          end
        | rewrite !Forall_app; auto 10
        | idtac ].

Lemma modelDocToModelInfo_emits env NU PV r model :
  emits (jujuapi.modelDocToModelInfo env NU PV r model)
        (fun res evs =>
           (jujuapi.controllerUUIDMasking r = true ->
            Forall (fun ev => forall p, fst ev <> DBController p) evs
            /\ forall info, res = Ok info ->
                            jujuapi.r_ControllerUUID info = jujuapi.cr_ControllerUUID r)
           /\ (jujuapi.controllerUUIDMasking r = false ->
               forall info, res = Ok info ->
                            Exists (fun ev => ev = (DBController (Controller_ model), None)) evs)
           /\ (ProviderType model <> "" ->
               Forall (fun ev => forall c, fst ev <> DBProviderType c) evs
               /\ forall info, res = Ok info ->
                               jujuapi.r_ProviderType info = ProviderType model)
           /\ (forall info, res = Ok info ->
                 jujuapi.r_UUID info = UUID model
                 /\ jujuapi.r_Name info = Name (Path model)
                 /\ jujuapi.r_Owner info = User_ (Path model)
                 /\ jujuapi.r_Life info = Life model)
           /\ Forall (fun ev => kind (fst ev) = KCheck ->
                                fst ev = AuthCheckIsAdmin (ModelEntity model)) evs
           /\ (Exists (fun ev => kind (fst ev) = KLog) evs ->
               exists i v e,
                 Info model = Some i /\ AgentVersion i = Some v /\ PV v = Err e)
           /\ (forall info, res = Ok info ->
                 (Exists (fun ev => ev = (AuthCheckIsAdmin (ModelEntity model), None)) evs
                  /\ jujuapi.r_Users info
                     = map (jujuapi.user_entry NU (jujuapi.userLevels model))
                           (jujuapi.sort_Strings
                              (map fst (map_to_list (jujuapi.userLevels model)))))
                 \/ (exists e,
                       Exists (fun ev => ev = (AuthCheckIsAdmin (ModelEntity model), Some e))
                              evs
                       /\ jujuapi.r_Users info
                          = [jujuapi.user_entry NU (jujuapi.userLevels model)
                                                (jujuapi.identity_Id r)]))).
Proof.
  unfold jujuapi.modelDocToModelInfo, DB.MachinesForModel, DB.ProviderType, DB.Controller,
    Ext.CheckIsAdmin.
  set (noctl := fun ev : Event => forall p, fst ev <> DBController p).
  set (noprov := fun ev : Event => forall c, fst ev <> DBProviderType c).
  set (adm := fun ev : Event => kind (fst ev) = KCheck ->
                                fst ev = AuthCheckIsAdmin (ModelEntity model)).
  set (islog := fun ev : Event => kind (fst ev) = KLog).
  set (bad := exists i v e, Info model = Some i /\ AgentVersion i = Some v /\ PV v = Err e).
  assert (Hone : forall (P : Event -> Prop) ev, P ev -> Forall P [ev])
    by (intros; repeat constructor; assumption).
  assert (Hnone : forall (P : Event -> Prop) ev, ~ P ev -> ~ Exists P [ev])
    by (intros P ev Hn Hx; inversion Hx as [? ? Hp | ? ? Hp]; [auto | inversion Hp]).
  eapply emits_bind; [apply emits_call |].
  intros rms evs1 ->.
  match goal with
  | |- context [[(DBMachinesForModel ?u, ?e)]] => set (m := (DBMachinesForModel u, e))
  end.
  assert (Hm1 : Forall noctl [m]) by (apply Hone; intros p; discriminate).
  assert (Hm2 : Forall noprov [m]) by (apply Hone; intros p; discriminate).
  assert (Hm3 : Forall adm [m]) by (apply Hone; intros p; discriminate).
  assert (Hm4 : ~ Exists islog [m]) by (apply Hnone; discriminate).
  destruct rms as [machines | e].
  2:{ apply emits_ret. rewrite app_nil_r. pieces. contradiction. }
  eapply emits_bind with
    (Q1 := fun rp evs =>
             if String.eqb (ProviderType model) "" then exists c e, evs = [(DBProviderType c, e)]
             else evs = [] /\ rp = Ok (ProviderType model)).
  { destruct (String.eqb (ProviderType model) "").
    - eapply emits_weaken; [apply emits_call |]. intros rp evs ->. eauto.
    - apply emits_ret. auto. }
  intros rp evs2 H2.
  assert (Hp : ProviderType model <> "" -> evs2 = [] /\ rp = Ok (ProviderType model)).
  { intros Hne. destruct (String.eqb_spec (ProviderType model) ""); [contradiction | exact H2]. }
  assert (Hp1 : Forall noctl evs2 /\ Forall adm evs2 /\ ~ Exists islog evs2).
  { destruct (String.eqb (ProviderType model) "").
    - destruct H2 as (c & e & ->).
      split; [apply Hone; intros p; discriminate |].
      split; [apply Hone; intros p; discriminate | apply Hnone; discriminate].
    - destruct H2 as [-> _]. split; [constructor |]. split; [constructor |].
      intros Hx. inversion Hx. }
  destruct Hp1 as (Hp1 & Hp3 & Hp4).
  assert (Hp2 : ProviderType model <> "" -> Forall noprov evs2)
    by (intros Hne; destruct (Hp Hne) as [-> _]; constructor).
  destruct rp as [providerType | e].
  2:{ apply emits_ret. rewrite app_nil_r. pieces. }
  cbv zeta.
  eapply emits_bind; [apply emits_check |].
  intros aerr evsc ->.
  set (chk := (AuthCheckIsAdmin (ModelEntity model), aerr)).
  assert (Hc1 : Forall noctl [chk]) by (apply Hone; intros p; discriminate).
  assert (Hc2 : Forall noprov [chk]) by (apply Hone; intros p; discriminate).
  assert (Hc3 : Forall adm [chk]) by (apply Hone; intros _; reflexivity).
  assert (Hc4 : ~ Exists islog [chk]) by (apply Hnone; discriminate).
  eapply emits_bind; [apply modelVersion_emits |].
  intros agentVersion evsv Hv.
  assert (Hv1 : Forall noctl evsv /\ Forall noprov evsv /\ Forall adm evsv
                /\ (Exists islog evsv -> bad)).
  { destruct Hv as [-> | [-> Hbad]].
    - repeat split; try constructor. intros Hx. inversion Hx.
    - repeat split; try (apply Hone; intros p; discriminate). intros _. exact Hbad. }
  destruct Hv1 as (Hv1 & Hv2 & Hv3 & Hv4).
  assert (Husers : forall users,
             users = match aerr with
                     | None => map (jujuapi.user_entry NU (jujuapi.userLevels model))
                                   (jujuapi.sort_Strings
                                      (map fst (map_to_list (jujuapi.userLevels model))))
                     | Some _ => [jujuapi.user_entry NU (jujuapi.userLevels model)
                                                     (jujuapi.identity_Id r)]
                     end ->
             forall rest,
             (Exists (fun ev => ev = (AuthCheckIsAdmin (ModelEntity model), None))
                     ([m] ++ evs2 ++ [chk] ++ rest)
              /\ users = map (jujuapi.user_entry NU (jujuapi.userLevels model))
                             (jujuapi.sort_Strings
                                (map fst (map_to_list (jujuapi.userLevels model)))))
             \/ (exists e,
                   Exists (fun ev => ev = (AuthCheckIsAdmin (ModelEntity model), Some e))
                          ([m] ++ evs2 ++ [chk] ++ rest)
                   /\ users = [jujuapi.user_entry NU (jujuapi.userLevels model)
                                                  (jujuapi.identity_Id r)])).
  { intros users Hu rest. subst chk. destruct aerr as [ae |]; [right; exists ae | left];
      (split; [| exact Hu]); rewrite !Exists_app; right; right; left;
      apply Exists_cons; now left. }
  destruct (jujuapi.controllerUUIDMasking r) eqn:Hmask; cbn [negb].
  - apply emits_ret. rewrite app_nil_r.
    split; [intros _; split;
            [rewrite !Forall_app; auto
            | intros info Hi; injection Hi as <-; reflexivity] |].
    split; [discriminate |].
    split.
    { intros Hne. destruct (Hp Hne) as [_ Hrp]. injection Hrp as ->.
      split; [rewrite !Forall_app; auto |].
      intros info Hi. injection Hi as <-. reflexivity. }
    split; [intros info Hi; injection Hi as <-; auto |].
    split; [rewrite !Forall_app; auto |].
    split; [intros Hx; rewrite !Exists_app in Hx; tauto |].
    intros info Hi. injection Hi as <-. cbn [jujuapi.r_Users].
    exact (Husers _ eq_refl _).
  - eapply emits_bind; [apply emits_call |].
    intros rc evs3 ->.
    match goal with
    | |- context [[(DBController ?u, ?e)]] => set (c := (DBController u, e))
    end.
    assert (Hd2 : Forall noprov [c]) by (apply Hone; intros p; discriminate).
    assert (Hd3 : Forall adm [c]) by (apply Hone; intros p; discriminate).
    assert (Hd4 : ~ Exists islog [c]) by (apply Hnone; discriminate).
    destruct rc as [ctl | e]; apply emits_ret; rewrite app_nil_r;
      (split; [discriminate |]).
    + split; [intros _ info _; rewrite !Exists_app; do 4 right;
              apply Exists_cons; now left |].
      split.
      { intros Hne. destruct (Hp Hne) as [_ Hrp]. injection Hrp as ->.
        split; [rewrite !Forall_app; auto 10 |].
        intros info Hi. injection Hi as <-. reflexivity. }
      split; [intros info Hi; injection Hi as <-; auto |].
      split; [rewrite !Forall_app; auto 10 |].
      split; [intros Hx; rewrite !Exists_app in Hx; tauto |].
      intros info Hi. injection Hi as <-. cbn [jujuapi.r_Users].
      exact (Husers _ eq_refl _).
    + split; [discriminate |].
      split.
      { intros Hne. split; [rewrite !Forall_app; auto 10 | discriminate]. }
      split; [discriminate |].
      split; [rewrite !Forall_app; auto 10 |].
      split; [intros Hx; rewrite !Exists_app in Hx; tauto | discriminate].
Qed.

Lemma sort_Strings_length l : length (jujuapi.sort_Strings l) = length l.
Proof.
  assert (Hi : forall s l', length (jujuapi.insert_sorted s l') = S (length l')).
  { intros s l'. induction l' as [| y l' IH]; simpl; [reflexivity |].
    destruct (String.leb s y); simpl; [reflexivity | now rewrite IH]. }
  unfold jujuapi.sort_Strings. induction l as [| y l IH]; simpl; [reflexivity |].
  now rewrite Hi, IH.
Qed.

Lemma sorted_keys_In (m : gmap string string) (u : string) :
  In u (jujuapi.sort_Strings (map fst (map_to_list m))) <-> is_Some (m !! u).
Proof.
  rewrite sort_Strings_In, in_map_iff. split.
  - intros ([k x] & <- & Hin). apply list_elem_of_In, elem_of_map_to_list in Hin.
    simpl. eauto.
  - intros [x Hx]. exists (u, x). split; [reflexivity |].
    apply list_elem_of_In, elem_of_map_to_list. exact Hx.
Qed.

(** X23.  The reply [modelDocToModelInfo] builds.  Besides lookups it
    makes one identity check at most, whether the caller administers
    the model, and it writes to the log only when the agent version of
    the row does not parse.  With controller UUID masking on, the controller
    document is never read and the reply carries the UUID of JIMM
    itself; with masking off, a reply is given only after the
    controller document has been read.  The provider type is looked up
    only for a row that has none.  The name, the owner, the UUID and
    the life of the reply are those of the row.  A caller who
    administers the model gets one entry for every user with a level,
    the owner among them; any other caller gets the entry of their own
    identity alone.  As for the levels, the owner administers the
    model, and of the lists of the ACL the admin list counts before the
    write list, and the write list before the read list. *)
Theorem modelDocToModelInfo_reply env NewUserTag ParseVersion r model w :
  exists evs,
    added w (snd (jujuapi.modelDocToModelInfo env NewUserTag ParseVersion r model w)) evs
    /\ touches [KLookup; KCheck; KLog] evs
    /\ Forall (fun ev => kind (fst ev) = KCheck ->
                         fst ev = AuthCheckIsAdmin (ModelEntity model)) evs
    /\ (Exists (fun ev => kind (fst ev) = KLog) evs ->
        exists i v e,
          Info model = Some i /\ AgentVersion i = Some v /\ ParseVersion v = Err e)
    /\ (jujuapi.controllerUUIDMasking r = true ->
        Forall (fun ev => forall p, fst ev <> DBController p) evs
        /\ forall info, fst (jujuapi.modelDocToModelInfo env NewUserTag ParseVersion
                                                    r model w) = Ok info ->
                        jujuapi.r_ControllerUUID info = jujuapi.cr_ControllerUUID r)
    /\ (jujuapi.controllerUUIDMasking r = false ->
        forall info, fst (jujuapi.modelDocToModelInfo env NewUserTag ParseVersion
                                                    r model w) = Ok info ->
                     Exists (fun ev => ev = (DBController (Controller_ model), None)) evs)
    /\ (ProviderType model <> "" ->
        Forall (fun ev => forall c, fst ev <> DBProviderType c) evs
        /\ forall info, fst (jujuapi.modelDocToModelInfo env NewUserTag ParseVersion
                                                    r model w) = Ok info ->
                        jujuapi.r_ProviderType info = ProviderType model)
    /\ (forall info, fst (jujuapi.modelDocToModelInfo env NewUserTag ParseVersion
                                                    r model w) = Ok info ->
          jujuapi.r_UUID info = UUID model
          /\ jujuapi.r_Name info = Name (Path model)
          /\ jujuapi.r_Owner info = User_ (Path model)
          /\ jujuapi.r_Life info = Life model)
    /\ (forall info, fst (jujuapi.modelDocToModelInfo env NewUserTag ParseVersion
                                                    r model w) = Ok info ->
          (Exists (fun ev => ev = (AuthCheckIsAdmin (ModelEntity model), None)) evs
           /\ (forall ui,
                 In ui (jujuapi.r_Users info)
                 <-> exists u, is_Some (jujuapi.userLevels model !! u)
                               /\ ui = jujuapi.user_entry NewUserTag
                                                          (jujuapi.userLevels model) u)
           /\ length (jujuapi.r_Users info) = size (jujuapi.userLevels model)
           /\ In {| UserName := jujuapi.ut_Id (jujuapi.userTag NewUserTag
                                                               (User_ (Path model)));
                    DisplayName := jujuapi.ut_Name (jujuapi.userTag NewUserTag
                                                                    (User_ (Path model)));
                    Access := jujuapi.ModelAdminAccess |}
                 (jujuapi.r_Users info))
          \/ (exists e,
                Exists (fun ev => ev = (AuthCheckIsAdmin (ModelEntity model), Some e)) evs
                /\ jujuapi.r_Users info
                   = [jujuapi.user_entry NewUserTag (jujuapi.userLevels model)
                                         (jujuapi.identity_Id r)]))
    /\ (forall k,
          jujuapi.userLevels model !! k
          = if bool_decide (k = User_ (Path model)) then Some jujuapi.ModelAdminAccess
            else if bool_decide (k ∈ Admin (model_ACL model))
                 then Some jujuapi.ModelAdminAccess
            else if bool_decide (k ∈ Write (model_ACL model))
                 then Some jujuapi.ModelWriteAccess
            else if bool_decide (k ∈ Read (model_ACL model))
                 then Some jujuapi.ModelReadAccess
            else None).
Proof.
  destruct (emits_and _ _ _
                      (modelDocToModelInfo_emits env NewUserTag ParseVersion r model)
                      (modelDocToModelInfo_calls env NewUserTag ParseVersion r model) w)
    as (evs & Ha & (H1 & H2 & H3 & H4 & H5 & Hlog & H6) & H7).
  exists evs. do 8 (split; [assumption |]).
  split; [| apply userLevels_lookup].
  intros info Hi. destruct (H6 info Hi) as [[Hex Hu] | (e & Hex & Hu)]; [left | right; eauto].
  split; [exact Hex |]. rewrite Hu. split; [| split].
  - intros ui. rewrite in_map_iff. split.
    + intros (u & <- & Hin). exists u. split; [now apply sorted_keys_In | reflexivity].
    + intros (u & Hsome & ->). exists u. split; [reflexivity | now apply sorted_keys_In].
  - rewrite length_map, sort_Strings_length, length_map. apply length_map_to_list.
  - apply in_map_iff. exists (User_ (Path model)). split.
    + unfold jujuapi.user_entry. rewrite userLevels_lookup.
      rewrite bool_decide_eq_true_2 by reflexivity. reflexivity.
    + apply sorted_keys_In. rewrite userLevels_lookup.
      rewrite bool_decide_eq_true_2 by reflexivity. eauto.
Qed.

(** X24.  [runWithContext].  When the context is done by the time the
    task has finished, the caller gets an error with the cause of
    [ctx.Err()], whatever the task returned.  Otherwise the caller gets
    the result of the task, an error of the task with its cause
    unmasked. *)
Theorem runWithContext_result {A} env (f : M (result A)) w :
  match ctx_done env (tick (snd (f w))) with
  | Some cerr =>
      exists e, fst (jujuapi.runWithContext env f w) = Err e /\ Cause e = Cause cerr
  | None =>
      match fst (f w) with
      | Ok a => fst (jujuapi.runWithContext env f w) = Ok a
      | Err e0 =>
          exists e, fst (jujuapi.runWithContext env f w) = Err e /\ Cause e = Cause e0
      end
  end.
Proof.
  unfold jujuapi.runWithContext, bind, get_tick.
  destruct (f w) as [r w1]. simpl.
  destruct (ctx_done env (tick w1)) as [cerr |].
  - destruct r as [a | e0]; simpl; eexists; (split; [reflexivity |]);
      apply Cause_NoteMask_pass; reflexivity.
  - destruct r as [a | e0]; simpl; [reflexivity |].
    eexists. split; [reflexivity |]. apply Cause_NoteMask_pass. reflexivity.
Qed.

(* ===================================================================== *)
(** * Further properties: reading a controller, making a pool             *)
(* ===================================================================== *)

Lemma Cause_masked_Is u a :
  Cause (NoteMask (Some u) "" [Is a]) = ECode a
  \/ Cause (NoteMask (Some u) "" [Is a]) = NoteMask (Some u) "" [Is a].
Proof.
  unfold NoteMask, matches. simpl.
  destruct (Is a (Cause u)) eqn:Ha; simpl; [left | right; reflexivity].
  destruct (Cause u); try discriminate. simpl in Ha. apply bool_decide_eq_true in Ha.
  now subst.
Qed.

(** X25.  [JEM.Controller] and [JEM.OpenAPI].  [Controller] asks the
    identity service first and reads the store only when the check has
    passed; the cause of its error is [params.ErrUnauthorized] when it
    comes from the check and [params.ErrNotFound] when it comes from
    the store, and any other cause is masked.  [OpenAPI] dials only a
    controller it has found in the store, and of the causes of a failed
    lookup it keeps [params.ErrNotFound] alone. *)
Theorem Controller_then_dial env path w :
  (exists evs,
      added w (snd (JEM.Controller env path w)) evs
      /\ ((exists e, evs = [(AuthCheckReadACL path, Some e)])
          \/ (exists e, evs = [(AuthCheckReadACL path, None); (DBController path, e)]))
      /\ (forall e, fst (JEM.Controller env path w) = Err e ->
            (Cause e = e
             \/ (Cause e = ECode ErrUnauthorized
                 /\ exists e0, evs = [(AuthCheckReadACL path, Some e0)])
             \/ (Cause e = ECode ErrNotFound
                 /\ exists e0, evs = [(AuthCheckReadACL path, None);
                                      (DBController path, Some e0)]))))
  /\ (exists evs,
         added w (snd (JEM.OpenAPI env path w)) evs
         /\ ((exists e, evs = [(DBController path, Some e)]
                        /\ exists err, fst (JEM.OpenAPI env path w) = Some err
                                       /\ (Cause err = err \/ Cause err = ECode ErrNotFound))
             \/ exists u, evs = [(DBController path, None);
                                 (OpenAPI u, fst (JEM.OpenAPI env path w))])).
Proof.
  split.
  - unfold JEM.Controller, bind, Ext.CheckReadACL, DB.Controller.
    pose proof (emits_check env (AuthCheckReadACL path) w) as (evs1 & Ha1 & ->).
    destruct (Ext.check env (AuthCheckReadACL path) w) as [[ae |] w1]; simpl in *.
    + exists [(AuthCheckReadACL path, Some ae)]. split; [exact Ha1 |].
      split; [left; eauto |].
      intros e He. injection He as <-.
      destruct (Cause_masked_Is ae ErrUnauthorized) as [Hc | Hc]; rewrite Hc; eauto.
    + match goal with
      | |- context [DB.call env ?c ?serve w1] =>
          pose proof (emits_call env c serve w1) as (evs2 & Ha2 & Hev2);
          destruct (DB.call env c serve w1) as [[ctl | de] w2]
      end; simpl in *; subst evs2.
      * exists [(AuthCheckReadACL path, None); (DBController path, None)].
        split; [exact (added_trans _ _ _ _ _ Ha1 Ha2) |].
        split; [right; eauto | discriminate].
      * exists [(AuthCheckReadACL path, None); (DBController path, Some de)].
        split; [exact (added_trans _ _ _ _ _ Ha1 Ha2) |].
        split; [right; eauto |].
        intros e He. injection He as <-.
        destruct (Cause_masked_Is de ErrNotFound) as [Hc | Hc]; rewrite Hc; eauto.
  - unfold JEM.OpenAPI, bind, DB.Controller.
    match goal with
    | |- context [DB.call env ?c ?serve w] =>
        pose proof (emits_call env c serve w) as (evs1 & Ha1 & Hev1);
        destruct (DB.call env c serve w) as [[ctl | de] w1]
    end; simpl in *; subst evs1.
    + pose proof (emits_OpenAPIFromDoc env ctl w1) as (evs2 & Ha2 & ->).
      eexists. split; [exact (added_trans _ _ _ _ _ Ha1 Ha2) |]. right. eauto.
    + exists [(DBController path, Some de)]. split; [exact Ha1 |]. left.
      eexists. split; [reflexivity |]. eexists. split; [reflexivity |].
      unfold NoteMask, matches. simpl.
      destruct (Is ErrNotFound (Cause de)) eqn:Ha; simpl; [right | left; reflexivity].
      destruct (Cause de); try discriminate. simpl in Ha. apply bool_decide_eq_true in Ha.
      now subst.
Qed.

(** X26.  [NewPool] refuses parameters without a controller admin or
    without a session pool before doing anything else.  It does not
    check the database it is given: it panics exactly when both checks
    have passed, the generator has been made and the database is nil.
    The pool it returns bears the name of the database and is open,
    with a reference count of one and its connection cache not closed:
    the instance used to ensure the indexes has been closed again. *)
Theorem NewPool_result (p : pool.Params) (a : pool.Answers) :
  (pool.NewPool p a = None
   <-> pool.ControllerAdmin p <> "" /\ pool.SessionPool p = true
       /\ pool.newGenerator a = None /\ pool.DB p = None)
  /\ (pool.ControllerAdmin p = "" \/ pool.SessionPool p = false ->
      exists e, pool.NewPool p a = Some (Err e))
  /\ (forall st, pool.NewPool p a = Some (Ok st) ->
        pool.ControllerAdmin p <> ""
        /\ pool.SessionPool p = true
        /\ pool.ensureIndexes a = None
        /\ (exists db, pool.DB p = Some db
                       /\ pool.dbName (pool.the_pool st) = pool.db_Name db)
        /\ pool.closed (pool.the_pool st) = false
        /\ pool.refCount (pool.the_pool st) = 1%Z
        /\ pool.cacheCloses (pool.the_pool st) = 0
        /\ open_jems st = 0).
Proof.
  unfold pool.NewPool.
  destruct (String.eqb_spec (pool.ControllerAdmin p) "") as [Hadm | Hadm].
  { split; [split; [discriminate | tauto] |]. split; [eauto | discriminate]. }
  destruct (pool.SessionPool p) eqn:Hsp; simpl.
  2:{ split; [split; [discriminate | intros (_ & H & _); discriminate] |].
      split; [eauto | discriminate]. }
  destruct (pool.newGenerator a) as [ge |].
  { split; [split; [discriminate | intros (_ & _ & H & _); discriminate] |].
    split; [intros [H | H]; [contradiction | discriminate] | discriminate]. }
  destruct (pool.DB p) as [db |].
  2:{ split; [split; [auto | reflexivity] |].
      split; [intros [H | H]; [contradiction | discriminate] | discriminate]. }
  destruct (if negb (String.eqb (pool.UsageSenderURL p) "") then pool.newUsageClient a
            else None) as [ue |].
  { split; [split; [discriminate | intros (_ & _ & _ & H); discriminate] |].
    split; [intros [H | H]; [contradiction | discriminate] | discriminate]. }
  vm_compute pool.JEM. cbv beta iota. unfold pool.JEM_Close, pool.decRef. simpl.
  destruct (pool.ensureIndexes a) as [ie |].
  - split; [split; [discriminate | intros (_ & _ & _ & H); discriminate] |].
    split; [intros [H | H]; [contradiction | discriminate] | discriminate].
  - split; [split; [discriminate | intros (_ & _ & _ & H); discriminate] |].
    split; [intros [H | H]; [contradiction | discriminate] |].
    intros st Hst. injection Hst as <-. repeat split; eauto.
Qed.
